(** * agentops [llm_tracker.py]: the LLM call tracker

    A shallow embedding of [src/agentops/llm_tracker.py] (class [LlmTracker])
    and the properties its specification states about it.

    Layout of the development:
    - the Python values the tracker inspects and the primitive operations it
      applies to them (module [Py]);
    - events, the sink, the clock and the state of the interpreter;
    - the tracker at call time (section [Tracker]): the stream accumulator,
      the decorated generators, the two response normalizers and the closures
      built by [wrap_method] and by the two [override_openai_*] patches;
    - the tracker at installation time: [_override_method], [override_api],
      with the parser and the order of [packaging.version] as parameters, and
      the constructor;
    - sample data, with a parser of release versions for the examples (module
      [Versions]);
    - the properties, with the specified ones marked C1 to C10. *)

From Stdlib Require Import ZArith Lia Ascii String List Sorted Permutation.
From stdpp Require Import base option list strings gmap.

Local Open Scope string_scope.
Local Open Scope list_scope.

(** ** Exceptions and fallible results *)

(** The Python exceptions that the modelled code can raise. The specification
    calls [ValueError "Unsupported API"] an UnsupportedProviderError and the
    [AttributeError] of a failed [getattr] an AttributeResolutionError. *)
Inductive exn : Type :=
| AttributeError
| KeyError
| IndexError
| TypeError
| ValueError
| ImportError
| InvalidVersion.

Inductive Exc (A : Type) : Type :=
| Ok (a : A)
| Raise (e : exn).
Arguments Ok {A} a.
Arguments Raise {A} e.

Definition raised {A} (r : Exc A) : bool :=
  match r with Ok _ => false | Raise _ => true end.

(** ** Python values *)

Module Py.

(** The values that flow through the tracker: JSON-like data (the chunks and
    the mapping-style responses) and plain objects with data attributes (the
    object-style responses). Dictionaries keep their insertion order and have
    string keys.

    A list is an object that [+=] extends in place, and the tracker applies
    [+=] to whatever a chunk carries as content: a list is therefore given by
    its address, and its items are in the store. Dictionaries and objects are
    given by value: the tracker changes none but the [returns] of the events
    it builds. *)
#[warnings="-register-all"]
Inductive pyval : Type :=
| PNone
| PInt (z : Z)
| PStr (s : string)
| PList (l : nat)
| PDict (d : list (string * pyval))
| PObj (attrs : list (string * pyval)).

(** The items of every list object, by address. *)
Abbreviation store := (gmap nat (list pyval)).

(** The items of the list at [l]; an address the store does not hold is that
    of an empty list. *)
Definition items (ls : store) (l : nat) : list pyval := default [] (ls !! l).

(** Lookup of a key in an insertion-ordered dictionary. *)
Fixpoint assoc {A} (k : string) (d : list (string * A)) : option A :=
  match d with
  | [] => None
  | (k', v) :: d' => if String.eqb k k' then Some v else assoc k d'
  end.

(** [d[k] = v] on a dictionary: an existing key keeps its position, a new key
    goes last. *)
Fixpoint dict_setitem {A} (d : list (string * A)) (k : string) (v : A)
  : list (string * A) :=
  match d with
  | [] => [(k, v)]
  | (k', v') :: d' =>
      if String.eqb k k' then (k', v) :: d' else (k', v') :: dict_setitem d' k v
  end.

(** [d[k]] on a dictionary of the model ([kwargs], [Event.returns]). *)
Definition dict_getitem {A} (d : list (string * A)) (k : string) : Exc A :=
  match assoc k d with
  | Some v => Ok v
  | None => Raise KeyError
  end.

(** [v[k]] with a string key [k]. *)
Definition getitem (v : pyval) (k : string) : Exc pyval :=
  match v with
  | PDict d => dict_getitem d k
  | _ => Raise TypeError
  end.

(** [v[0]]. A dictionary of the model has no integer key. *)
Definition getindex0 (ls : store) (v : pyval) : Exc pyval :=
  match v with
  | PList l =>
      match items ls l with
      | x :: _ => Ok x
      | [] => Raise IndexError
      end
  | PStr (String c _) => Ok (PStr (String c EmptyString))
  | PStr EmptyString => Raise IndexError
  | PDict _ => Raise KeyError
  | _ => Raise TypeError
  end.

(** [v.get(k, dflt)]: a method of dictionaries only. *)
Definition dict_get (v : pyval) (k : string) (dflt : pyval) : Exc pyval :=
  match v with
  | PDict d => Ok (default dflt (assoc k d))
  | PObj attrs =>
      match assoc "get" attrs with
      | Some _ => Raise TypeError
      | None => Raise AttributeError
      end
  | _ => Raise AttributeError
  end.

(** [v.name], for the attribute names the tracker reads ([object], [choices],
    [message], [model]): none of them is an attribute of a built-in value. *)
Definition getattr (v : pyval) (name : string) : Exc pyval :=
  match v with
  | PObj attrs =>
      match assoc name attrs with
      | Some x => Ok x
      | None => Raise AttributeError
      end
  | _ => Raise AttributeError
  end.

(** Truth value of [v], as tested by [if v:]. *)
Definition truthy (ls : store) (v : pyval) : bool :=
  match v with
  | PNone => false
  | PInt z => negb (Z.eqb z 0)
  | PStr s => negb (String.eqb s "")
  | PList l => match items ls l with [] => false | _ => true end
  | PDict d => match d with [] => false | _ => true end
  | PObj _ => true
  end.

Fixpoint chars (s : string) : list pyval :=
  match s with
  | EmptyString => []
  | String c s' => PStr (String c EmptyString) :: chars s'
  end.

(** What iterating over [v] gives: the items of a list, the characters of a
    string, the keys of a dictionary; nothing else here is iterable. *)
Definition iterable (ls : store) (v : pyval) : option (list pyval) :=
  match v with
  | PList l => Some (items ls l)
  | PStr s => Some (chars s)
  | PDict d => Some (map (fun kv => PStr (fst kv)) d)
  | _ => None
  end.

(** [a += b]: the new value of [a] and the store after it. Strings and
    integers are added into a new value. A list is extended in place by what
    iterating over [b] gives, and stays the same object: whoever holds it sees
    the longer list. *)
Definition iadd (ls : store) (a b : pyval) : Exc (pyval * store) :=
  match a with
  | PStr x =>
      match b with
      | PStr y => Ok (PStr (String.append x y), ls)
      | _ => Raise TypeError
      end
  | PInt x =>
      match b with
      | PInt y => Ok (PInt (x + y), ls)
      | _ => Raise TypeError
      end
  | PList l =>
      match iterable ls b with
      | Some more => Ok (PList l, <[l := items ls l ++ more]> ls)
      | None => Raise TypeError
      end
  | _ => Raise TypeError
  end.

(** [s.split(".")]: never empty; an empty string gives one empty part. *)
Fixpoint split_dot (s : string) : list string :=
  match s with
  | EmptyString => [EmptyString]
  | String c s' =>
      if Ascii.eqb c "."%char then EmptyString :: split_dot s'
      else match split_dot s' with
           | part :: parts => String c part :: parts
           | [] => [String c EmptyString]
           end
  end.

End Py.
Import Py.

(** Keyword arguments of a call. *)
Abbreviation pykwargs := (list (string * pyval)).

(** ** Events, the sink and the clock *)

(** An instant of the clock. [get_ISO_time] formats it in a fixed-width
    ISO 8601 representation, whose order is the order of the instants. *)
Abbreviation timestamp := nat (only parsing).

(** Modelled from the spec: the [Event] record of [agentops/event.py], which is
    not part of the sources. It has the fields the tracker passes to its
    constructor and an end timestamp that can be set later. *)
Record Event : Type := mkEvent {
  event_type : pyval;
  params : pykwargs;
  result : string;
  returns : list (string * pyval);
  action_type : string;
  model : pyval;
  prompt : pyval;
  init_timestamp : timestamp;
  end_timestamp : timestamp
}.

Definition set_returns (ev : Event) (r : list (string * pyval)) : Event :=
  mkEvent (event_type ev) (params ev) (result ev) r (action_type ev)
          (model ev) (prompt ev) (init_timestamp ev) (end_timestamp ev).

Definition set_end_timestamp (ev : Event) (t : timestamp) : Event :=
  mkEvent (event_type ev) (params ev) (result ev) (returns ev) (action_type ev)
          (model ev) (prompt ev) (init_timestamp ev) t.

(** What the tracker prints on standard output. *)
Inductive line : Type :=
| UnableToParseChunk (kwargs : pykwargs)
| UnableToParseResponse (kwargs : pykwargs)
| PrintStr (s : string)
| PrintArgs (args : list pyval)
| PrintKwargs (kwargs : pykwargs).

(** ** The monad of the modelled code: state, with exceptions that keep the
    state reached when they are raised (Python rolls nothing back). *)

Definition SE (S A : Type) : Type := S -> Exc A * S.

Definition ret {S A} (a : A) : SE S A := fun st => (Ok a, st).

Definition bind {S A B} (m : SE S A) (k : A -> SE S B) : SE S B :=
  fun st =>
    match m st with
    | (Ok a, st') => k a st'
    | (Raise e, st') => (Raise e, st')
    end.

Definition lift {S A} (r : Exc A) : SE S A := fun st => (r, st).

Definition raise {S A} (e : exn) : SE S A := fun st => (Raise e, st).

(** [try: body except: handler], with the bare [except:] of the source. *)
Definition try_except {S} (body handler : SE S unit) : SE S unit :=
  fun st =>
    match body st with
    | (Ok tt, st') => (Ok tt, st')
    | (Raise _, st') => handler st'
    end.

Declare Scope se_scope.
Delimit Scope se_scope with SE.
Notation "x <- m ; k" := (bind m (fun x => k))
  (at level 20, m at level 100, k at level 200, only parsing) : se_scope.
Notation "m ;; k" := (bind m (fun _ => k))
  (at level 100, k at level 200, only parsing, right associativity) : se_scope.
Local Open Scope se_scope.

(** ** Generators, responses and callables *)

(** A generator object, first-order: the provider's own sequence with the
    chunks it has yet to yield, or the [generator()] that a normalizer layers
    over a response, closed over [kwargs] and [init_timestamp]. *)
Inductive gen : Type :=
| Upstream (chunks : list pyval)
| Decorated (kwargs : pykwargs) (init_timestamp : timestamp) (response : gen).

(** Addresses of modules and objects. *)
Abbreviation loc := nat (only parsing).

(** The value of an attribute in the module graph: a module or object, plain
    data, a function of the provider, or one of the closures the tracker
    builds: [sync_method] and [async_method] of [wrap_method], and the two
    [patched_function]s. *)
Inductive val : Type :=
| VRef (l : loc)
| VData (v : pyval)
| VNative (name : string) (coroutine : bool)
| VSync (api : string) (original_method : val)
| VAsync (api : string) (original_method : val)
| VPatched (original_create : val)
| VPatchedAsync (original_create : val).

(** The state the code acts on: [self.event_stream]; the events handed to
    [self.client.record], oldest first; the number of times the clock has been
    read; standard output; [sys.modules]; the attributes of every module and
    object, by address; and the items of every list, by address. *)
Record world : Type := mkWorld {
  event_stream : option Event;
  client : list Event;
  ticks : nat;
  stdout : list line;
  sys_modules : gmap string nat;
  heap : gmap nat (gmap string val);
  lists : store
}.

(** Code that runs in the interpreter. *)
Abbreviation M := (SE world).

(** What a call returns: a generator ([inspect.isgenerator]), an asynchronous
    generator ([inspect.isasyncgen]), a coroutine object (awaiting it runs its
    body), or any other value. *)
#[warnings="-register-all"]
Inductive returned : Type :=
| RVal (v : pyval)
| RGen (g : gen)
| RAsyncGen (g : gen)
| RCoro (body : M returned).

Definition print (l : line) : M unit :=
  fun st => (Ok tt, mkWorld (event_stream st) (client st) (ticks st) (stdout st ++ [l])
                            (sys_modules st) (heap st) (lists st)).

Definition get_event_stream : M (option Event) :=
  fun st => (Ok (event_stream st), st).

Definition set_event_stream (es : option Event) : M unit :=
  fun st => (Ok tt, mkWorld es (client st) (ticks st) (stdout st)
                            (sys_modules st) (heap st) (lists st)).

(** An in-place update of the object in [self.event_stream]; on [None] the
    attribute access raises. *)
Definition update_event_stream (f : Event -> Event) : M unit :=
  es <- get_event_stream;
  match es with
  | Some ev => set_event_stream (Some (f ev))
  | None => raise AttributeError
  end.

(** Modelled from the spec: [record] of the sink [self.client], which is not
    part of the sources. It accepts the event and returns nothing; the model
    keeps what it was handed, in order. *)
Definition client_record (ev : Event) : M unit :=
  fun st => (Ok tt, mkWorld (event_stream st) (client st ++ [ev]) (ticks st) (stdout st)
                            (sys_modules st) (heap st) (lists st)).

(** The state after a line was printed: nothing else differs. *)
Definition printed (l : line) (st : world) : world :=
  mkWorld (event_stream st) (client st) (ticks st) (stdout st ++ [l])
          (sys_modules st) (heap st) (lists st).

(** The state after the clock was read once. *)
Definition tick (st : world) : world :=
  mkWorld (event_stream st) (client st) (S (ticks st)) (stdout st)
          (sys_modules st) (heap st) (lists st).

(** [v[0]] and [if v:], which look into a list when [v] is one. *)
Definition index0 (v : pyval) : M pyval :=
  fun st => (getindex0 (lists st) v, st).

Definition is_true (v : pyval) : M bool :=
  fun st => (Ok (truthy (lists st) v), st).

(** [a += b], giving the new value of [a]; a list is extended where it is. *)
Definition iadd_in_place (a b : pyval) : M pyval :=
  fun st =>
    match iadd (lists st) a b with
    | Ok (a', ls) =>
        (Ok a', mkWorld (event_stream st) (client st) (ticks st) (stdout st)
                        (sys_modules st) (heap st) ls)
    | Raise e => (Raise e, st)
    end.

Section Tracker.

(** The clock: [clk i] is the instant returned by the [i]-th reading. *)
Variable clk : nat -> timestamp.

(** Modelled from the spec: [get_ISO_time] of [agentops/helpers.py], the
    clock collaborator, which is not part of the sources. *)
Definition get_ISO_time : M timestamp :=
  fun st => (Ok (clk (ticks st)),
             mkWorld (event_stream st) (client st) (S (ticks st)) (stdout st)
                     (sys_modules st) (heap st) (lists st)).

(** Modelled from the spec: the constructor [Event(...)], which is not part
    of the sources. It stores its arguments; the event is complete as built,
    so its end timestamp is the instant of construction until it is set again. *)
Definition Event_init (event_type : pyval) (params : pykwargs) (result : string)
    (returns : list (string * pyval)) (action_type : string)
    (model prompt : pyval) (init_timestamp : timestamp) : M Event :=
  now <- get_ISO_time;
  ret (mkEvent event_type params result returns action_type model prompt
               init_timestamp now).

(** *** The stream accumulator: [handle_stream_chunk] *)

(** The body of the [try:] of [handle_stream_chunk]. Where the event is
    handed to the sink the slot holds it, so that the [None] branch there is
    never taken. *)
Definition handle_stream_chunk_body (kwargs : pykwargs) (init_timestamp : timestamp)
    (chunk : pyval) : M unit :=
  model <- lift (getitem chunk "model");
  choices <- lift (getitem chunk "choices");
  choice <- index0 choices;
  delta <- lift (getitem choice "delta");
  token <- lift (dict_get delta "content" (PStr ""));
  choice' <- index0 choices;
  finish_reason <- lift (getitem choice' "finish_reason");
  es <- get_event_stream;
  match es with
  | None =>
      prompt <- lift (dict_getitem kwargs "messages");
      ev <- Event_init (PStr "openai stream") kwargs "Success"
              [("finish_reason", PNone); ("content", token)]
              "llm" model prompt init_timestamp;
      set_event_stream (Some ev)
  | Some ev =>
      content <- lift (dict_getitem (returns ev) "content");
      content' <- iadd_in_place content token;
      set_event_stream (Some (set_returns ev (dict_setitem (returns ev) "content" content')))
  end ;;
  passes <- is_true finish_reason;
  if passes then
    update_event_stream
      (fun ev => set_returns ev (dict_setitem (returns ev) "finish_reason" finish_reason)) ;;
    now <- get_ISO_time;
    update_event_stream (fun ev => set_end_timestamp ev now) ;;
    es' <- get_event_stream;
    match es' with
    | Some ev => client_record ev
    | None => raise AttributeError
    end ;;
    set_event_stream None
  else ret tt.

Definition handle_stream_chunk (kwargs : pykwargs) (init_timestamp : timestamp)
    (chunk : pyval) : M unit :=
  try_except (handle_stream_chunk_body kwargs init_timestamp chunk)
             (print (UnableToParseChunk kwargs)).

(** *** The two halves of [handle_stream_chunk], for the statements below *)

(** What [handle_stream_chunk] reads from a chunk: the model, the token of the
    first choice and its finish reason. The lists are those of the store
    [ls]. *)
Definition parse_chunk (ls : store) (chunk : pyval) : Exc (pyval * pyval * pyval) :=
  match getitem chunk "model" with
  | Raise e => Raise e
  | Ok model =>
      match getitem chunk "choices" with
      | Raise e => Raise e
      | Ok choices =>
          match getindex0 ls choices with
          | Raise e => Raise e
          | Ok choice =>
              match getitem choice "delta" with
              | Raise e => Raise e
              | Ok delta =>
                  match dict_get delta "content" (PStr "") with
                  | Raise e => Raise e
                  | Ok token =>
                      match getitem choice "finish_reason" with
                      | Raise e => Raise e
                      | Ok finish_reason => Ok (model, token, finish_reason)
                      end
                  end
              end
          end
      end
  end.

(** The finish reason of a chunk, when it can be read. *)
Definition chunk_finish_reason (ls : store) (chunk : pyval) : Exc pyval :=
  match getitem chunk "choices" with
  | Raise e => Raise e
  | Ok choices =>
      match getindex0 ls choices with
      | Raise e => Raise e
      | Ok choice => getitem choice "finish_reason"
      end
  end.

(** The part of [handle_stream_chunk] that follows the parsing. *)
Definition accumulate (kwargs : pykwargs) (init_timestamp : timestamp)
    (model token finish_reason : pyval) : M unit :=
  es <- get_event_stream;
  match es with
  | None =>
      prompt <- lift (dict_getitem kwargs "messages");
      ev <- Event_init (PStr "openai stream") kwargs "Success"
              [("finish_reason", PNone); ("content", token)]
              "llm" model prompt init_timestamp;
      set_event_stream (Some ev)
  | Some ev =>
      content <- lift (dict_getitem (returns ev) "content");
      content' <- iadd_in_place content token;
      set_event_stream (Some (set_returns ev (dict_setitem (returns ev) "content" content')))
  end ;;
  passes <- is_true finish_reason;
  if passes then
    update_event_stream
      (fun ev => set_returns ev (dict_setitem (returns ev) "finish_reason" finish_reason)) ;;
    now <- get_ISO_time;
    update_event_stream (fun ev => set_end_timestamp ev now) ;;
    es' <- get_event_stream;
    match es' with
    | Some ev => client_record ev
    | None => raise AttributeError
    end ;;
    set_event_stream None
  else ret tt.

(** The state in which [handle_stream_chunk] leaves the interpreter, and the
    state after a run of chunks was handled in order. *)
Definition handled (kwargs : pykwargs) (init_timestamp : timestamp)
    (st : world) (chunk : pyval) : world :=
  snd (handle_stream_chunk kwargs init_timestamp chunk st).

Definition handled_all (kwargs : pykwargs) (init_timestamp : timestamp)
    (chunks : list pyval) (st : world) : world :=
  fold_left (handled kwargs init_timestamp) chunks st.

(** A chunk that parses and whose token is a string, and the text it adds. *)
Definition text_chunk (ls : store) (chunk : pyval) : bool :=
  match parse_chunk ls chunk with
  | Ok (_, PStr _, _) => true
  | _ => false
  end.

Definition chunk_token (ls : store) (chunk : pyval) : string :=
  match parse_chunk ls chunk with
  | Ok (_, PStr token, _) => token
  | _ => EmptyString
  end.

(** A chunk with a finish reason other than [None]. *)
Definition has_finish_reason (ls : store) (chunk : pyval) : bool :=
  match chunk_finish_reason ls chunk with
  | Ok PNone => false
  | Ok _ => true
  | Raise _ => false
  end.

(** A run of chunks none of which arrives with a finish reason: when its
    turn comes, the chunks before it having been handled, the finish reason
    of a chunk is [None] or cannot be read. *)
Fixpoint arrive_unfinished (kwargs : pykwargs) (init_timestamp : timestamp)
    (chunks : list pyval) (st : world) : bool :=
  match chunks with
  | [] => true
  | chunk :: chunks' =>
      negb (has_finish_reason (lists st) chunk) &&
      arrive_unfinished kwargs init_timestamp chunks'
                        (handled kwargs init_timestamp st chunk)
  end.

(** A chunk whose finish reason passes the test [if finish_reason:]. *)
Definition terminal (ls : store) (chunk : pyval) : bool :=
  match chunk_finish_reason ls chunk with
  | Ok finish_reason => truthy ls finish_reason
  | Raise _ => false
  end.

(** A chunk that does not end a stream: it fails to parse, and is skipped; or
    it parses, its token is a string and its finish reason does not pass the
    test. *)
Definition continuing (ls : store) (chunk : pyval) : Prop :=
  raised (parse_chunk ls chunk) = true \/
  (text_chunk ls chunk = true /\ terminal ls chunk = false).

(** A chunk whose token is a list, and a state in which the content of the
    open event is a list: where [+=] extends a list in place. *)
Definition list_token (ls : store) (chunk : pyval) : bool :=
  match parse_chunk ls chunk with
  | Ok (_, PList _, _) => true
  | _ => false
  end.

Definition list_content (st : world) : bool :=
  match event_stream st with
  | Some ev =>
      match dict_getitem (returns ev) "content" with
      | Ok (PList _) => true
      | _ => false
      end
  | None => false
  end.

(** The payload of an open stream event whose content so far is [acc]. *)
Definition open_returns (acc : string) : list (string * pyval) :=
  [("finish_reason", PNone); ("content", PStr acc)].

(** What the slot holds in terms of the stream: nothing, or an open event
    with the content accumulated so far. *)
Definition slot_holds (st : world) (content : option string) : Prop :=
  match content with
  | None => event_stream st = None
  | Some acc => exists ev, event_stream st = Some ev /\ returns ev = open_returns acc
  end.

(** The tokens of a run of chunks, joined in order. *)
Definition concat_tokens (ls : store) (chunks : list pyval) : string :=
  foldr String.append EmptyString (map (chunk_token ls) chunks).

(** *** Iterating a generator *)

(** [next(g)]: [None] is [StopIteration]; otherwise the chunk yielded and the
    generator as it is left. The decorated generator runs
    [for chunk in response: handle_stream_chunk(chunk); yield chunk]. *)
Fixpoint next (g : gen) : M (option (pyval * gen)) :=
  match g with
  | Upstream [] => ret None
  | Upstream (chunk :: rest) => ret (Some (chunk, Upstream rest))
  | Decorated kwargs init_timestamp response =>
      r <- next response;
      match r with
      | None => ret None
      | Some (chunk, response') =>
          handle_stream_chunk kwargs init_timestamp chunk ;;
          ret (Some (chunk, Decorated kwargs init_timestamp response'))
      end
  end.

(** The caller pulls at most [n] elements and then abandons the generator. *)
Fixpoint iterate (n : nat) (g : gen) : M (list pyval * gen) :=
  match n with
  | 0 => ret ([], g)
  | S n' =>
      r <- next g;
      match r with
      | None => ret ([], g)
      | Some (chunk, g') =>
          rest <- iterate n' g';
          ret (chunk :: fst rest, snd rest)
      end
  end.

(** The number of chunks the underlying sequence has yet to yield. *)
Fixpoint remaining (g : gen) : nat :=
  match g with
  | Upstream chunks => length chunks
  | Decorated _ _ response => remaining response
  end.

(** [list(g)]: the caller iterates until [StopIteration]. *)
Definition exhaust (g : gen) : M (list pyval) :=
  r <- iterate (S (remaining g)) g;
  ret (fst r).

(** The chunks a generator has yet to yield: those of the provider's
    sequence under its decorations. *)
Fixpoint upstream (g : gen) : list pyval :=
  match g with
  | Upstream chunks => chunks
  | Decorated _ _ response => upstream response
  end.

(** What a caller that pulls at most [n] elements of [g] gets. *)
Definition yields (g : gen) (n : nat) (st : world) : Exc (list pyval) :=
  match iterate n g st with
  | (Ok (chunks, _), _) => Ok chunks
  | (Raise e, _) => Raise e
  end.

(** [g'] is a pass-through of [g]: whatever the number of elements pulled and
    the state, the caller gets from [g'] the chunks it would get from [g], the
    very objects; both end after the same number of chunks; and the lists in
    those chunks, like every other list, are as they were when no list is
    there to be extended: the content in the slot is not one, nor is the
    token of any chunk. *)
Definition pass_through (g g' : gen) : Prop :=
  (forall n st, yields g' n st = yields g n st) /\
  (forall st, fst (exhaust g' st) = fst (exhaust g st)) /\
  remaining g' = remaining g /\
  (forall n st,
      list_content st = false ->
      Forall (fun chunk => list_token (lists st) chunk = false) (upstream g') ->
      lists (snd (iterate n g' st)) = lists st).

(** The caller cannot tell [r'] from [r]: the same value, or a generator of
    the same kind that is a pass-through. *)
Definition same_result (r r' : returned) : Prop :=
  match r with
  | RGen g => exists g', r' = RGen g' /\ pass_through g g'
  | RAsyncGen g => exists g', r' = RAsyncGen g' /\ pass_through g g'
  | _ => r' = r
  end.

(** *** The response normalizers *)

(** The [try:] of the atomic branch of [_handle_response_openai]: the
    object-attribute dialect. A coroutine or generator object has none of the
    attributes read. *)
Definition record_response_openai (response : returned) (kwargs : pykwargs)
    (init_timestamp : timestamp) : M unit :=
  match response with
  | RVal r =>
      object <- lift (getattr r "object");
      choices <- lift (getattr r "choices");
      choice <- index0 choices;
      message <- lift (getattr choice "message");
      model <- lift (getattr r "model");
      prompt <- lift (dict_getitem kwargs "messages");
      ev <- Event_init object kwargs "Success" [("content", message)]
              "llm" model prompt init_timestamp;
      client_record ev
  | _ => raise AttributeError
  end.

Definition _handle_response_openai (response : returned) (kwargs : pykwargs)
    (init_timestamp : timestamp)   : M returned :=
  match response with
  | RAsyncGen g => ret (RAsyncGen (Decorated kwargs init_timestamp g))
  | RGen g => ret (RGen (Decorated kwargs init_timestamp g))
  | _ =>
      try_except (record_response_openai response kwargs init_timestamp)
                 (print (UnableToParseResponse kwargs)) ;;
      ret response
  end.

(** The [try:] of the atomic branch of [_handle_async_response_openai]: the
    mapping dialect. A coroutine or generator object is not subscriptable. *)
Definition record_async_response_openai (response : returned) (kwargs : pykwargs)
    (init_timestamp : timestamp) : M unit :=
  match response with
  | RVal r =>
      object <- lift (getitem r "object");
      choices <- lift (getitem r "choices");
      choice <- index0 choices;
      message <- lift (getitem choice "message");
      content <- lift (getitem message "content");
      model <- lift (getitem r "model");
      prompt <- lift (dict_getitem kwargs "messages");
      ev <- Event_init object kwargs "Success" [("content", content)]
              "llm" model prompt init_timestamp;
      client_record ev
  | _ => raise TypeError
  end.

(** Its [handle_stream_chunk] is, word for word, that of
    [_handle_response_openai]. *)
Definition _handle_async_response_openai (response : returned) (kwargs : pykwargs)
    (init_timestamp : timestamp)   : M returned :=
  match response with
  | RAsyncGen g => ret (RAsyncGen (Decorated kwargs init_timestamp g))
  | RGen g => ret (RGen (Decorated kwargs init_timestamp g))
  | _ =>
      try_except (record_async_response_openai response kwargs init_timestamp)
                 (print (UnableToParseResponse kwargs)) ;;
      ret response
  end.

(** *** Calling the wrappers *)

(** The functions of the provider: what a call of [name] with [args] and [kwargs] returns or
    raises. A coroutine function returns a coroutine object. *)
Variable native : string -> list pyval -> pykwargs -> Exc returned.

(** [handle_response] of [_override_method]. *)
Definition handle_response (api : string) (result : returned) (kwargs : pykwargs)
    (init_timestamp : timestamp)   : M returned :=
  if String.eqb api "openai" then _handle_response_openai result kwargs init_timestamp
  else ret result.

(** [await r]. *)
Definition await (r : returned)   : M returned :=
  match r with
  | RCoro body => body
  | _ => raise TypeError
  end.

(** A call of [f] with [args] and [kwargs]. Modules, objects and data are not callable. *)
Fixpoint call (f : val) (args : list pyval) (kwargs : pykwargs)   : M returned :=
  match f with
  | VNative name _ => lift (native name args kwargs)
  | VSync api original_method =>
      init_timestamp <- get_ISO_time;
      response <- call original_method args kwargs;
      handle_response api response kwargs init_timestamp
  | VAsync api original_method =>
      ret (RCoro (init_timestamp <- get_ISO_time;
                  coroutine <- call original_method args kwargs;
                  response <- await coroutine;
                  handle_response api response kwargs init_timestamp))
  | VPatched original_create =>
      print (PrintStr "patched function") ;;
      print (PrintArgs args) ;;
      print (PrintKwargs kwargs) ;;
      result <- call original_create args kwargs;
      now <- get_ISO_time;
      _handle_response_openai result kwargs now ;;
      ret result
  | VPatchedAsync original_create =>
      print (PrintStr "patched async function") ;;
      result <- call original_create args kwargs;
      now <- get_ISO_time;
      _handle_response_openai result kwargs now ;;
      ret result
  | VRef _ | VData _ => raise TypeError
  end.

(** The body of the coroutine that [async_method] returns. *)
Definition async_method_body (api : string) (original_method : val)
    (args : list pyval) (kwargs : pykwargs) : M returned :=
  init_timestamp <- get_ISO_time;
  coroutine <- call original_method args kwargs;
  response <- await coroutine;
  handle_response api response kwargs init_timestamp.

End Tracker.

(** ** Installing the wrappers *)

(** The registry: provider name, then version, then the method paths to
    intercept; dictionaries in their literal order. *)
Abbreviation registry := (list (string * list (string * list string))) (only parsing).

(** [LlmTracker.SUPPORTED_APIS]. *)
Definition SUPPORTED_APIS : registry :=
  [("openai",
    [("1.0.0", ["chat.completions.create"]);
     ("0.0.0", ["ChatCompletion.create"; "ChatCompletion.acreate"])])].

Definition set_heap (h : gmap nat (gmap string val)) : M unit :=
  fun st => (Ok tt, mkWorld (event_stream st) (client st) (ticks st) (stdout st)
                            (sys_modules st) h (lists st)).

(** [getattr(o, name)] in the module graph: only modules and objects, which
    live in the heap, have the attributes looked up here. *)
Definition obj_getattr (o : val) (name : string) : M val :=
  fun st =>
    match o with
    | VRef l =>
        match heap st !! l with
        | Some attrs =>
            match attrs !! name with
            | Some v => (Ok v, st)
            | None => (Raise AttributeError, st)
            end
        | None => (Raise AttributeError, st)
        end
    | _ => (Raise AttributeError, st)
    end.

(** [setattr(o, name, v)]: the object is updated in place. *)
Definition obj_setattr (o : val) (name : string) (v : val) : M unit :=
  fun st =>
    match o with
    | VRef l =>
        match heap st !! l with
        | Some attrs => set_heap (<[l := <[name := v]> attrs]> (heap st)) st
        | None => (Raise AttributeError, st)
        end
    | _ => (Raise AttributeError, st)
    end.

(** [functools.reduce(getattr, parts, o)]. *)
Fixpoint reduce_getattr (parts : list string) (o : val) : M val :=
  match parts with
  | [] => ret o
  | part :: parts' =>
      o' <- obj_getattr o part;
      reduce_getattr parts' o'
  end.

(** [inspect.iscoroutinefunction]: of the closures the tracker builds, only
    [async_method] is declared with [async def]. *)
Definition iscoroutinefunction (f : val) : bool :=
  match f with
  | VNative _ coroutine => coroutine
  | VAsync _ _ => true
  | _ => false
  end.

(** [wrap_method] of [_override_method]. *)
Definition wrap_method (api : string) (original_method : val) : val :=
  if iscoroutinefunction original_method then VAsync api original_method
  else VSync api original_method.

Definition _override_method (api method_path : string) (module : val) : M unit :=
  let method_parts := split_dot method_path in
  original_method <- reduce_getattr method_parts module;
  let new_method := wrap_method api original_method in
  if Nat.eqb (length method_parts) 1 then
    obj_setattr module (List.hd EmptyString method_parts) new_method
  else
    parent <- reduce_getattr (removelast method_parts) module;
    obj_setattr parent (List.last method_parts EmptyString) new_method.

(** [for method_path in paths: self._override_method(api, method_path, module)]. *)
Fixpoint override_methods (api : string) (paths : list string) (module : val) : M unit :=
  match paths with
  | [] => ret tt
  | method_path :: paths' =>
      _override_method api method_path module ;;
      override_methods api paths' module
  end.

Section Resolver.

(** [packaging.version] is a library, not part of the sources: the versions,
    the parser and the order are parameters. [parse s] is what
    [packaging.version.parse] returns on the string [s], or the exception it
    raises. [version_le a b] is [a <= b], so that the [a >= b] of the source
    is [version_le b a]. Where a property depends on the order it assumes it
    total and transitive, as the order of versions is. *)
Variable Version : Type.
Variable parse : string -> Exc Version.
Variable version_le : Version -> Version -> bool.

(** One step of a stable sort into descending order: [x], which came before
    every element of [l], goes before the first element that is not greater. *)
Fixpoint insert_desc (x : string * Version) (l : list (string * Version))
  : list (string * Version) :=
  match l with
  | [] => [x]
  | y :: l' => if version_le (snd y) (snd x) then x :: y :: l' else y :: insert_desc x l'
  end.

Definition sort_desc (l : list (string * Version)) : list (string * Version) :=
  foldr insert_desc [] l.

(** The keys [parse] computes for the elements to sort, in their order. *)
Fixpoint keyed (keys : list string) : Exc (list (string * Version)) :=
  match keys with
  | [] => Ok []
  | k :: keys' =>
      match parse k with
      | Raise e => Raise e
      | Ok v =>
          match keyed keys' with
          | Raise e => Raise e
          | Ok l => Ok ((k, v) :: l)
          end
      end
  end.

(** A list of versions in descending order. *)
Definition descending (l : list (string * Version)) : Prop :=
  StronglySorted (fun x y => version_le (snd y) (snd x) = true) l.

(** [sorted(keys, key=parse, reverse=True)]: stable, descending. *)
Definition sorted_reverse (keys : list string) : Exc (list string) :=
  match keyed keys with
  | Raise e => Raise e
  | Ok l => Ok (map fst (sort_desc l))
  end.

(** The loop of [override_api] over the sorted versions, with its [break]. *)
Fixpoint override_first_version (api : string) (versions : list (string * list string))
    (module_version : Version) (module : val) (sorted : list string) : M unit :=
  match sorted with
  | [] => ret tt
  | version :: sorted' =>
      v <- lift (parse version);
      if version_le v module_version then
        paths <- lift (dict_getitem versions version);
        override_methods api paths module
      else override_first_version api versions module_version module sorted'
  end.

(** [parse(module.__version__)]: the argument has to be a string. *)
Definition parse_version_attribute (v : val) : Exc Version :=
  match v with
  | VData (PStr s) => parse s
  | _ => Raise TypeError
  end.

(** [override_api], for a tracker whose [SUPPORTED_APIS] is [apis].
    [import_module(api)] of a loaded module is [sys.modules[api]]. *)
Definition override_api (apis : registry) (api : string) : M unit :=
  fun st =>
    match sys_modules st !! api with
    | Some l =>
        match assoc api apis with
        | None => (Raise ValueError, st)
        | Some versions =>
            let module := VRef l in
            match obj_getattr module "__version__" st with
            | (Ok version_attribute, _) =>
                (module_version <- lift (parse_version_attribute version_attribute);
                 sorted <- lift (sorted_reverse (map fst versions));
                 override_first_version api versions module_version module sorted) st
            | (Raise _, _) =>
                (paths <- lift (dict_getitem versions "0.0.0");
                 override_methods api paths module) st
            end
        end
    | None => (Ok tt, st)
    end.

End Resolver.

Arguments insert_desc {Version} version_le x l.
Arguments sort_desc {Version} version_le l.
Arguments keyed {Version} parse keys.
Arguments descending {Version} version_le l.
Arguments sorted_reverse {Version} parse version_le keys.
Arguments override_first_version {Version} parse version_le api versions module_version
  module sorted _.
Arguments parse_version_attribute {Version} parse v.
Arguments override_api {Version} parse version_le apis api _.

(** [from package import name], for a loaded package: the attribute of the
    package, else the loaded submodule. A module that is not loaded cannot be
    imported here. *)
Definition import_from (package name : string) : M val :=
  fun st =>
    match sys_modules st !! package with
    | Some l =>
        match obj_getattr (VRef l) name st with
        | (Ok v, _) => (Ok v, st)
        | (Raise _, _) =>
            match sys_modules st !! (String.append package (String.append "." name)) with
            | Some l' => (Ok (VRef l'), st)
            | None => (Raise ImportError, st)
            end
        end
    | None => (Raise ImportError, st)
    end.

Definition override_openai_completion : M unit :=
  completions <- import_from "openai.resources.chat" "completions";
  Completions <- obj_getattr completions "Completions";
  original_create <- obj_getattr Completions "create";
  Completions' <- obj_getattr completions "Completions";
  obj_setattr Completions' "create" (VPatched original_create).

Definition override_openai_async_completion : M unit :=
  completions <- import_from "openai.resources.chat" "completions";
  AsyncCompletions <- obj_getattr completions "AsyncCompletions";
  original_create <- obj_getattr AsyncCompletions "create";
  AsyncCompletions' <- obj_getattr completions "AsyncCompletions";
  obj_setattr AsyncCompletions' "create" (VPatchedAsync original_create) ;;
  print (PrintStr "patched async").

(** [LlmTracker.__init__]. The sink of the new tracker is [client]. *)
Definition LlmTracker_init : M unit :=
  set_event_stream None ;;
  override_openai_completion ;;
  override_openai_async_completion.

(** ** Sample data *)

(** *** Release versions

    A parser and an order for the examples: the versions written [N(.N)*],
    ordered as tuples of numbers once trailing zeros are dropped, which is
    how [packaging.version] orders such versions. Every other string is
    refused here; the library accepts more (pre-, post- and development
    releases, epochs, local versions), and the properties of the resolver,
    which take the parser and the order as parameters, hold of those too. *)
Module Versions.

Record Version : Type := mkVersion { release : list nat }.

Definition digit (c : ascii) : option nat :=
  let n := nat_of_ascii c in
  if Nat.leb 48 n && Nat.leb n 57 then Some (n - 48) else None.

Fixpoint number_from (acc : nat) (s : string) : option nat :=
  match s with
  | EmptyString => Some acc
  | String c s' =>
      match digit c with
      | Some d => number_from (10 * acc + d) s'
      | None => None
      end
  end.

(** [int(s)] for a non-empty string of decimal digits. *)
Definition number (s : string) : option nat :=
  match s with
  | EmptyString => None
  | _ => number_from 0 s
  end.

Fixpoint numbers (parts : list string) : option (list nat) :=
  match parts with
  | [] => Some []
  | part :: parts' =>
      match number part, numbers parts' with
      | Some n, Some ns => Some (n :: ns)
      | _, _ => None
      end
  end.

Definition parse (s : string) : Exc Version :=
  match numbers (split_dot s) with
  | Some r => Ok (mkVersion r)
  | None => Raise InvalidVersion
  end.

(** The comparison key of a version: its release without trailing zeros. *)
Fixpoint drop_trailing_zeros (r : list nat) : list nat :=
  match r with
  | [] => []
  | n :: r' =>
      match drop_trailing_zeros r' with
      | [] => if Nat.eqb n 0 then [] else [n]
      | k => n :: k
      end
  end.

Definition cmpkey (v : Version) : list nat := drop_trailing_zeros (release v).

(** Order of tuples of integers. *)
Fixpoint tuple_le (a b : list nat) : bool :=
  match a, b with
  | [], _ => true
  | _ :: _, [] => false
  | x :: a', y :: b' =>
      if Nat.ltb x y then true else if Nat.eqb x y then tuple_le a' b' else false
  end.

(** [a <= b] on versions. *)
Definition le (a b : Version) : bool := tuple_le (cmpkey a) (cmpkey b).

End Versions.

(** *** Chunks, responses and calls *)

(** A choice of a streamed chunk, [{delta: {content: c}, finish_reason: f}],
    the delta being empty when there is no content; and the chunk
    [{model: m, choices: [...]}] whose list of choices is at [choices]. *)
Definition stream_choice (c : option string) (f : pyval) : pyval :=
  PDict [("delta", PDict match c with
                         | Some s => [("content", PStr s)]
                         | None => []
                         end);
         ("finish_reason", f)].

Definition stream_chunk (m : string) (choices : nat) : pyval :=
  PDict [("model", PStr m); ("choices", PList choices)].

(** A complete response in the object-attribute dialect, and the same in the
    mapping dialect; their lists of choices are at 8 and 9. *)
Definition object_message : pyval :=
  PObj [("role", PStr "assistant"); ("content", PStr "Hello")].

Definition object_response : pyval :=
  PObj [("object", PStr "chat.completion");
        ("model", PStr "m");
        ("choices", PList 8)].

Definition mapping_response : pyval :=
  PDict [("object", PStr "chat.completion");
         ("model", PStr "m");
         ("choices", PList 9)].

(** The lists of the sample data, by address: the messages of two calls, the
    choices of the two responses, and the choices of the chunks. *)
Definition sample_lists : store :=
  list_to_map
    [(1, [PStr "Say hello"]);
     (2, [PStr "Say goodbye"]);
     (8, [PObj [("message", object_message); ("finish_reason", PStr "stop")]]);
     (9, [PDict [("message", PDict [("role", PStr "assistant");
                                     ("content", PStr "Hello")]);
                  ("finish_reason", PStr "stop")]]);
     (10, []);
     (11, [stream_choice (Some "He") PNone]);
     (12, [stream_choice (Some "llo") (PStr "stop")]);
     (13, [stream_choice (Some "Bye") (PStr "stop")]);
     (14, [stream_choice (Some "llo") (PStr EmptyString)]);
     (15, [stream_choice None (PStr "stop")]);
     (16, [stream_choice (Some "Hi") PNone]);
     (17, [stream_choice (Some "By") PNone]);
     (18, [PDict [("delta", PDict [("role", PStr "assistant"); ("content", PNone)]);
                   ("finish_reason", PNone)]]);
     (19, [stream_choice (Some "Bye") (PStr "length")]);
     (21, [PDict [("delta", PDict [("content", PList 31)]); ("finish_reason", PNone)]]);
     (22, [PDict [("delta", PDict [("content", PList 32)]);
                   ("finish_reason", PStr "stop")]]);
     (31, [PStr "a"]);
     (32, [PStr "b"])].

(** The chunks of the sample data, named after their content and their finish
    reason. *)
Definition chunk_He : pyval := stream_chunk "m" 11.
Definition chunk_llo_stop : pyval := stream_chunk "m" 12.
Definition chunk_Bye_stop : pyval := stream_chunk "m" 13.
Definition chunk_llo_empty : pyval := stream_chunk "m" 14.
Definition chunk_absent_stop : pyval := stream_chunk "m" 15.
Definition chunk_Hi : pyval := stream_chunk "m" 16.
Definition chunk_By : pyval := stream_chunk "m" 17.
Definition chunk_null : pyval := stream_chunk "m" 18.
Definition chunk_Bye_length : pyval := stream_chunk "another" 19.
Definition chunk_no_choice : pyval := stream_chunk "m" 10.
Definition chunk_a : pyval := stream_chunk "m" 21.
Definition chunk_b_stop : pyval := stream_chunk "m" 22.

(** The chunks of the scenario of the specification. *)
Definition hello_chunks : list pyval := [chunk_He; chunk_llo_stop].

(** The state of an interpreter in which nothing has happened and no module is
    loaded, without any list and with the lists of the sample data. *)
Definition empty_world : world := mkWorld None [] 0 [] ∅ ∅ ∅.

Definition sample_world : world := mkWorld None [] 0 [] ∅ ∅ sample_lists.

(** A clock that advances by one at every reading. *)
Definition counting_clock (i : nat) : nat := i.

(** The keyword arguments of a chat completion call that streams, of one
    that does not, of another call, and of a call without [messages]. *)
Definition chat_kwargs : pykwargs :=
  [("model", PStr "m"); ("messages", PList 1); ("stream", PInt 1)].

Definition plain_kwargs : pykwargs :=
  [("model", PStr "m"); ("messages", PList 1)].

Definition goodbye_kwargs : pykwargs :=
  [("model", PStr "m"); ("messages", PList 2); ("stream", PInt 1)].

Definition bare_kwargs : pykwargs :=
  [("model", PStr "m"); ("stream", PInt 1)].

(** A provider whose functions stream [hello_chunks] when asked to stream and
    return [object_response] otherwise; one that answers in the mapping
    dialect, its [ChatCompletion.acreate] being a coroutine function; and one
    that streams chunks whose contents are lists. *)
Definition sample_provider (name : string) (args : list pyval) (kwargs : pykwargs)
  : Exc returned :=
  match assoc "stream" kwargs with
  | Some _ => Ok (RGen (Upstream hello_chunks))
  | None => Ok (RVal object_response)
  end.


Definition list_provider (name : string) (args : list pyval) (kwargs : pykwargs)
  : Exc returned :=
  Ok (RGen (Upstream [chunk_a; chunk_b_stop])).

(** A loaded [openai] package in its 1.x layout: the module, with its version
    and the path [chat.completions.create], and the module
    [openai.resources.chat] with the classes the constructor patches. *)
Definition openai_heap (version : option string) : gmap nat (gmap string val) :=
  {[ 1 := match version with
          | Some s => {[ "__version__" := VData (PStr s); "chat" := VRef 2 ]}
          | None => {[ "chat" := VRef 2 ]}
          end;
     2 := {[ "completions" := VRef 3 ]};
     3 := {[ "create" := VNative "chat.completions.create" false ]};
     4 := {[ "completions" := VRef 5 ]};
     5 := {[ "Completions" := VRef 6; "AsyncCompletions" := VRef 7 ]};
     6 := {[ "create" := VNative "Completions.create" false ]};
     7 := {[ "create" := VNative "AsyncCompletions.create" true ]} ]}.

Definition openai_world (version : option string) : world :=
  mkWorld None [] 0 []
          {[ "openai" := 1; "openai.resources.chat" := 4 ]}
          (openai_heap version) ∅.

(** ** Vocabulary for the properties of the installation *)

(** What [getattr] finds for [name] on the object at [l]. *)
Definition attr (st : world) (l : nat) (name : string) : option val :=
  match heap st !! l with
  | Some attrs => attrs !! name
  | None => None
  end.

(** Outside the module graph, [st'] is [st]. *)
Definition same_tracker (st st' : world) : Prop :=
  event_stream st' = event_stream st /\
  client st' = client st /\
  ticks st' = ticks st /\
  stdout st' = stdout st /\
  sys_modules st' = sys_modules st /\
  lists st' = lists st.

(** The module graph of [st'] has the objects of [st], each with the same
    attribute names. *)
Definition same_shape (st st' : world) : Prop :=
  forall l name, is_Some (attr st' l name) <-> is_Some (attr st l name).

(** The last segment of a dotted path, and the segments before it. *)
Definition last_part (method_path : string) : string :=
  List.last (split_dot method_path) EmptyString.

Definition owner_parts (method_path : string) : list string :=
  removelast (split_dot method_path).

(** A loaded [openai] package in its legacy layout, which has
    [ChatCompletion.create] and no [ChatCompletion.acreate]. *)
Definition legacy_world : world :=
  mkWorld None [] 0 []
          {[ "openai" := 1 ]}
          {[ 1 := {[ "ChatCompletion" := VRef 2 ]};
             2 := {[ "create" := VNative "ChatCompletion.create" false ]} ]} ∅.

(** ** Vocabulary for the properties of the tracker at call time *)

(** The outcome of a normalizer on a response that is not a generator is
    [out]: the response comes back, and either nothing happened but a printed
    line, or the clock was read once and one event went to the sink. *)
Definition recorded_or_printed (clk : nat -> nat) (r : returned) (kwargs : pykwargs)
    (started : nat) (st : world) (out : Exc returned * world) : Prop :=
  out = (Ok r, printed (UnableToParseResponse kwargs) st) \/
  exists ev,
    out = (Ok r, mkWorld (event_stream st) (client st ++ [ev]) (S (ticks st)) (stdout st)
                         (sys_modules st) (heap st) (lists st)) /\
    params ev = kwargs /\
    result ev = "Success" /\
    action_type ev = "llm" /\
    init_timestamp ev = started /\
    end_timestamp ev = clk (ticks st).

(** A provider whose functions are coroutine functions: a call returns a
    coroutine object that gives [object_response] when awaited. *)
Definition coroutine_provider (name : string) (args : list pyval) (kwargs : pykwargs)
  : Exc returned :=
  Ok (RCoro (ret (RVal object_response))).

(** From [st] to [st'] the module graph and [sys.modules] are the same, the
    sink, standard output and every list have only been appended to, and the
    clock has not gone back. *)
Definition grows (st st' : world) : Prop :=
  sys_modules st' = sys_modules st /\
  heap st' = heap st /\
  client st `prefix_of` client st' /\
  stdout st `prefix_of` stdout st' /\
  ticks st <= ticks st' /\
  forall l, items (lists st) l `prefix_of` items (lists st') l.

(** A computation that, from any state, only makes it grow. *)
Definition growing {A} (m : M A) : Prop := forall st, grows st (snd (m st)).

(** A chunk that parses. *)
Definition parsed (ls : store) (chunk : pyval) : bool :=
  negb (raised (parse_chunk ls chunk)).

(** The model of the first chunk that parses. *)
Fixpoint first_model (ls : store) (chunks : list pyval) : pyval :=
  match chunks with
  | [] => PNone
  | chunk :: chunks' =>
      match parse_chunk ls chunk with
      | Ok (model, _, _) => model
      | Raise _ => first_model ls chunks'
      end
  end.

(** The lines printed for the chunks that do not parse. *)
Definition skipped_lines (ls : store) (kwargs : pykwargs) (chunks : list pyval)
  : list line :=
  flat_map (fun chunk => if parsed ls chunk then [] else [UnableToParseChunk kwargs]) chunks.

(** The event that the first parsed chunk of a stream opens, with the content
    accumulated so far. *)
Definition open_event (kwargs : pykwargs) (started : nat) (prompt model : pyval)
    (acc : string) (built : nat) : Event :=
  mkEvent (PStr "openai stream") kwargs "Success" (open_returns acc) "llm"
          model prompt started built.

(** The state after chunks that do not end the stream were handled, starting
    from [st] with no stream open. *)
Definition stream_state (clk : nat -> nat) (kwargs : pykwargs) (started : nat)
    (prompt : pyval) (st : world) (chunks : list pyval) : world :=
  if existsb (parsed (lists st)) chunks then
    mkWorld (Some (open_event kwargs started prompt (first_model (lists st) chunks)
                              (concat_tokens (lists st) chunks) (clk (ticks st))))
            (client st) (S (ticks st))
            (stdout st ++ skipped_lines (lists st) kwargs chunks)
            (sys_modules st) (heap st) (lists st)
  else
    mkWorld None (client st) (ticks st)
            (stdout st ++ skipped_lines (lists st) kwargs chunks)
            (sys_modules st) (heap st) (lists st).

(** Every token twice, in order: what two layers of decoration accumulate. *)
Definition double_tokens (ls : store) (chunks : list pyval) : string :=
  foldr String.append EmptyString
        (map (fun chunk => String.append (chunk_token ls chunk) (chunk_token ls chunk))
             chunks).

(** The state after both layers of a doubly decorated generator handled a
    chunk: the inner one, built first, then the outer one. *)
Definition handled_twice (clk : nat -> nat) (kwargs : pykwargs) (inner outer : nat)
    (st : world) (chunk : pyval) : world :=
  handled clk kwargs outer (handled clk kwargs inner st chunk) chunk.

(** * Properties *)

(** ** Reading the monad *)

Lemma bind_Ok {S A B} (m : SE S A) (k : A -> SE S B) st a st' :
  m st = (Ok a, st') -> bind m k st = k a st'.
Proof. intros H. unfold bind. now rewrite H. Qed.

Lemma bind_Raise {S A B} (m : SE S A) (k : A -> SE S B) st e st' :
  m st = (Raise e, st') -> bind m k st = (Raise e, st').
Proof. intros H. unfold bind. now rewrite H. Qed.

Lemma bind_lift {S A B} (r : Exc A) (k : A -> SE S B) st :
  bind (lift r) k st = match r with Ok a => k a st | Raise e => (Raise e, st) end.
Proof. unfold bind, lift. now destruct r. Qed.

Lemma bind_index0 {B} (v : pyval) (k : pyval -> M B) st :
  bind (index0 v) k st =
  match getindex0 (lists st) v with Ok a => k a st | Raise e => (Raise e, st) end.
Proof. unfold bind, index0. now destruct (getindex0 (lists st) v). Qed.

Lemma bind_is_true {B} (v : pyval) (k : bool -> M B) st :
  bind (is_true v) k st = k (truthy (lists st) v) st.
Proof. reflexivity. Qed.

(** ** Values *)

(** [+=] on a value that is not a list changes no list, and does not give
    one. *)
Lemma iadd_not_list ls a b a' ls' :
  (forall l, a <> PList l) ->
  iadd ls a b = Ok (a', ls') ->
  ls' = ls /\ forall l, a' <> PList l.
Proof.
  intros Ha. destruct a as [|x|x|l|d|attrs]; cbn; try discriminate.
  - destruct b; try discriminate. intros [= <- <-]. split; [reflexivity|discriminate].
  - destruct b; try discriminate. intros [= <- <-]. split; [reflexivity|discriminate].
  - now destruct (Ha l).
Qed.

Lemma dict_getitem_setitem {A} (d : list (string * A)) k v :
  dict_getitem (dict_setitem d k v) k = Ok v.
Proof.
  unfold dict_getitem. induction d as [|[k' v'] d IH]; cbn.
  - now rewrite String.eqb_refl.
  - destruct (String.eqb k k') eqn:Hk; cbn; rewrite Hk; [reflexivity|exact IH].
Qed.

(** ** The stream accumulator *)

Lemma parse_chunk_finish_reason ls chunk model token finish_reason :
  parse_chunk ls chunk = Ok (model, token, finish_reason) ->
  chunk_finish_reason ls chunk = Ok finish_reason.
Proof.
  unfold parse_chunk, chunk_finish_reason.
  destruct (getitem chunk "model"); [|discriminate].
  destruct (getitem chunk "choices") as [choices|]; [|discriminate].
  destruct (getindex0 ls choices) as [choice|]; [|discriminate].
  destruct (getitem choice "delta") as [delta|]; [|discriminate].
  destruct (dict_get delta "content" (PStr "")); [|discriminate].
  destruct (getitem choice "finish_reason"); [|discriminate].
  congruence.
Qed.

Section StreamFacts.

Variable clk : nat -> nat.

Lemma handle_stream_chunk_body_eq kwargs init_timestamp chunk st :
  handle_stream_chunk_body clk kwargs init_timestamp chunk st =
  match parse_chunk (lists st) chunk with
  | Ok (model, token, finish_reason) =>
      accumulate clk kwargs init_timestamp model token finish_reason st
  | Raise e => (Raise e, st)
  end.
Proof.
  unfold handle_stream_chunk_body, parse_chunk.
  rewrite bind_lift. destruct (getitem chunk "model") as [model|]; [|reflexivity].
  rewrite bind_lift. destruct (getitem chunk "choices") as [choices|]; [|reflexivity].
  rewrite bind_index0.
  destruct (getindex0 (lists st) choices) as [choice|] eqn:Hchoice; [|reflexivity].
  rewrite bind_lift. destruct (getitem choice "delta") as [delta|]; [|reflexivity].
  rewrite bind_lift. destruct (dict_get delta "content" (PStr "")) as [token|]; [|reflexivity].
  rewrite bind_index0, Hchoice.
  rewrite bind_lift. destruct (getitem choice "finish_reason"); reflexivity.
Qed.

(** The accumulation when a stream is open: the token is added to the content,
    in the store [ls'] that the addition leaves. *)
Lemma accumulate_Some kwargs init_timestamp model token finish_reason st ev content
    content' ls' :
  event_stream st = Some ev ->
  dict_getitem (returns ev) "content" = Ok content ->
  iadd (lists st) content token = Ok (content', ls') ->
  let ev' := set_returns ev (dict_setitem (returns ev) "content" content') in
  accumulate clk kwargs init_timestamp model token finish_reason st =
  if truthy ls' finish_reason then
    (Ok tt,
     mkWorld None
       (client st ++
        [set_end_timestamp
           (set_returns ev' (dict_setitem (returns ev') "finish_reason" finish_reason))
           (clk (ticks st))])
       (S (ticks st)) (stdout st) (sys_modules st) (heap st) ls')
  else
    (Ok tt,
     mkWorld (Some ev') (client st) (ticks st) (stdout st) (sys_modules st) (heap st) ls').
Proof.
  intros Hes Hcontent Hadd ev'.
  unfold accumulate, bind, get_event_stream. rewrite Hes.
  unfold lift. rewrite Hcontent. unfold iadd_in_place. rewrite Hadd.
  cbn [set_event_stream is_true lists].
  destruct (truthy ls' finish_reason); reflexivity.
Qed.

(** The accumulation when no stream is open: the event is built, with the
    token as its content. *)
Lemma accumulate_None kwargs init_timestamp model token finish_reason st prompt :
  event_stream st = None ->
  dict_getitem kwargs "messages" = Ok prompt ->
  let ev' := mkEvent (PStr "openai stream") kwargs "Success"
               [("finish_reason", PNone); ("content", token)]
               "llm" model prompt init_timestamp (clk (ticks st)) in
  accumulate clk kwargs init_timestamp model token finish_reason st =
  if truthy (lists st) finish_reason then
    (Ok tt,
     mkWorld None
       (client st ++
        [set_end_timestamp
           (set_returns ev' (dict_setitem (returns ev') "finish_reason" finish_reason))
           (clk (S (ticks st)))])
       (S (S (ticks st))) (stdout st) (sys_modules st) (heap st) (lists st))
  else
    (Ok tt,
     mkWorld (Some ev') (client st) (S (ticks st)) (stdout st) (sys_modules st) (heap st)
             (lists st)).
Proof.
  intros Hes Hprompt ev'.
  unfold accumulate, bind, get_event_stream. rewrite Hes.
  unfold lift. rewrite Hprompt.
  cbn [Event_init get_ISO_time bind ret set_event_stream is_true lists].
  destruct (truthy (lists st) finish_reason); reflexivity.
Qed.

(** An exception in the accumulation is raised before anything is changed. *)
Lemma accumulate_Raise kwargs init_timestamp model token finish_reason st e st' :
  accumulate clk kwargs init_timestamp model token finish_reason st = (Raise e, st') ->
  st' = st.
Proof.
  destruct (event_stream st) as [ev|] eqn:Hes.
  - destruct (dict_getitem (returns ev) "content") as [content|e0] eqn:Hcontent.
    + destruct (iadd (lists st) content token) as [[content' ls']|e1] eqn:Hadd.
      * rewrite (accumulate_Some kwargs init_timestamp model token finish_reason st ev
                   content content' ls' Hes Hcontent Hadd).
        destruct (truthy ls' finish_reason); discriminate.
      * unfold accumulate, bind, get_event_stream. rewrite Hes.
        unfold lift. rewrite Hcontent. unfold iadd_in_place. rewrite Hadd. congruence.
    + unfold accumulate, bind, get_event_stream. rewrite Hes.
      unfold lift. rewrite Hcontent. congruence.
  - destruct (dict_getitem kwargs "messages") as [prompt|e0] eqn:Hprompt.
    + rewrite (accumulate_None kwargs init_timestamp model token finish_reason st prompt
                 Hes Hprompt).
      destruct (truthy (lists st) finish_reason); discriminate.
    + unfold accumulate, bind, get_event_stream. rewrite Hes.
      unfold lift. rewrite Hprompt. congruence.
Qed.

Lemma handle_stream_chunk_body_Raise kwargs init_timestamp chunk st e st' :
  handle_stream_chunk_body clk kwargs init_timestamp chunk st = (Raise e, st') ->
  st' = st.
Proof.
  rewrite handle_stream_chunk_body_eq.
  destruct (parse_chunk (lists st) chunk) as [[[model token] finish_reason]|].
  - apply accumulate_Raise.
  - congruence.
Qed.

(** [handle_stream_chunk] itself never raises. *)
Lemma handle_stream_chunk_Ok kwargs init_timestamp chunk st :
  exists st', handle_stream_chunk clk kwargs init_timestamp chunk st = (Ok tt, st').
Proof.
  unfold handle_stream_chunk, try_except.
  destruct (handle_stream_chunk_body clk kwargs init_timestamp chunk st) as [[[]|e] st1].
  - eauto.
  - unfold print. eauto.
Qed.

Lemma handle_stream_chunk_handled kwargs init_timestamp chunk st :
  handle_stream_chunk clk kwargs init_timestamp chunk st =
  (Ok tt, handled clk kwargs init_timestamp st chunk).
Proof.
  unfold handled.
  destruct (handle_stream_chunk_Ok kwargs init_timestamp chunk st) as [st' H].
  now rewrite H.
Qed.

(** A chunk whose body raises leaves one line on standard output, and nothing
    else. *)
Lemma handled_Raise kwargs init_timestamp chunk st :
  raised (fst (handle_stream_chunk_body clk kwargs init_timestamp chunk st)) = true ->
  handled clk kwargs init_timestamp st chunk = printed (UnableToParseChunk kwargs) st.
Proof.
  intros H. unfold handled, handle_stream_chunk, try_except.
  destruct (handle_stream_chunk_body clk kwargs init_timestamp chunk st)
    as [[[]|e] st1] eqn:Hbody; [discriminate|].
  apply handle_stream_chunk_body_Raise in Hbody. now subst st1.
Qed.

Lemma parse_failure_raises kwargs init_timestamp chunk st e :
  parse_chunk (lists st) chunk = Raise e ->
  raised (fst (handle_stream_chunk_body clk kwargs init_timestamp chunk st)) = true.
Proof. intros H. rewrite handle_stream_chunk_body_eq, H. reflexivity. Qed.

Lemma handled_parsed kwargs init_timestamp chunk st model token finish_reason :
  parse_chunk (lists st) chunk = Ok (model, token, finish_reason) ->
  forall st',
  accumulate clk kwargs init_timestamp model token finish_reason st = (Ok tt, st') ->
  handled clk kwargs init_timestamp st chunk = st'.
Proof.
  intros Hparse st' Hacc. unfold handled, handle_stream_chunk, try_except.
  now rewrite handle_stream_chunk_body_eq, Hparse, Hacc.
Qed.

(** What a chunk can do to the state, case by case. *)
Lemma handled_cases kwargs init_timestamp st chunk :
  handled clk kwargs init_timestamp st chunk = printed (UnableToParseChunk kwargs) st \/
  (exists model token finish_reason prompt,
      parse_chunk (lists st) chunk = Ok (model, token, finish_reason) /\
      event_stream st = None /\
      dict_getitem kwargs "messages" = Ok prompt /\
      accumulate clk kwargs init_timestamp model token finish_reason st =
        (Ok tt, handled clk kwargs init_timestamp st chunk)) \/
  (exists model token finish_reason ev content content' ls',
      parse_chunk (lists st) chunk = Ok (model, token, finish_reason) /\
      event_stream st = Some ev /\
      dict_getitem (returns ev) "content" = Ok content /\
      iadd (lists st) content token = Ok (content', ls') /\
      accumulate clk kwargs init_timestamp model token finish_reason st =
        (Ok tt, handled clk kwargs init_timestamp st chunk)).
Proof.
  destruct (handle_stream_chunk_body clk kwargs init_timestamp chunk st)
    as [[[]|e] st1] eqn:Hbody.
  2:{ left. apply handled_Raise. now rewrite Hbody. }
  right. rewrite handle_stream_chunk_body_eq in Hbody.
  destruct (parse_chunk (lists st) chunk) as [[[model token] finish_reason]|] eqn:Hparse;
    [|discriminate].
  rewrite (handled_parsed kwargs init_timestamp chunk st model token finish_reason Hparse
             st1 Hbody).
  destruct (event_stream st) as [ev|] eqn:Hes.
  - right. exists model, token, finish_reason, ev.
    destruct (dict_getitem (returns ev) "content") as [content|e0] eqn:Hcontent.
    + destruct (iadd (lists st) content token) as [[content' ls']|e1] eqn:Hadd.
      * exists content, content', ls'. repeat split; assumption.
      * exfalso. revert Hbody. unfold accumulate, bind, get_event_stream. rewrite Hes.
        unfold lift. rewrite Hcontent. unfold iadd_in_place. rewrite Hadd. discriminate.
    + exfalso. revert Hbody. unfold accumulate, bind, get_event_stream. rewrite Hes.
      unfold lift. rewrite Hcontent. discriminate.
  - left. exists model, token, finish_reason.
    destruct (dict_getitem kwargs "messages") as [prompt|e0] eqn:Hprompt.
    + exists prompt. repeat split; assumption.
    + exfalso. revert Hbody. unfold accumulate, bind, get_event_stream. rewrite Hes.
      unfold lift. rewrite Hprompt. discriminate.
Qed.

(** While the content in the slot is not a list, a chunk changes no list. *)
Lemma handled_lists kwargs init_timestamp st chunk :
  list_content st = false ->
  lists (handled clk kwargs init_timestamp st chunk) = lists st.
Proof.
  intros Hplain.
  destruct (handled_cases kwargs init_timestamp st chunk)
    as [H|[(model & token & finish_reason & prompt & Hparse & Hes & Hprompt & Hacc)
          |(model & token & finish_reason & ev & content & content' & ls' &
            Hparse & Hes & Hcontent & Hadd & Hacc)]].
  - now rewrite H.
  - rewrite (accumulate_None kwargs init_timestamp model token finish_reason st prompt
               Hes Hprompt) in Hacc.
    destruct (truthy (lists st) finish_reason); injection Hacc as <-; reflexivity.
  - assert (Hls : ls' = lists st).
    { eapply iadd_not_list; [|exact Hadd].
      intros l ->. unfold list_content in Hplain. now rewrite Hes, Hcontent in Hplain. }
    rewrite (accumulate_Some kwargs init_timestamp model token finish_reason st ev
               content content' ls' Hes Hcontent Hadd) in Hacc.
    destruct (truthy ls' finish_reason); injection Hacc as <-; exact Hls.
Qed.

(** And the content stays other than a list when the token is not one. *)
Lemma handled_list_content kwargs init_timestamp st chunk :
  list_content st = false ->
  list_token (lists st) chunk = false ->
  list_content (handled clk kwargs init_timestamp st chunk) = false.
Proof.
  intros Hplain Htoken.
  destruct (handled_cases kwargs init_timestamp st chunk)
    as [H|[(model & token & finish_reason & prompt & Hparse & Hes & Hprompt & Hacc)
          |(model & token & finish_reason & ev & content & content' & ls' &
            Hparse & Hes & Hcontent & Hadd & Hacc)]].
  - now rewrite H.
  - rewrite (accumulate_None kwargs init_timestamp model token finish_reason st prompt
               Hes Hprompt) in Hacc.
    unfold list_token in Htoken. rewrite Hparse in Htoken.
    destruct (truthy (lists st) finish_reason); injection Hacc as <-; [reflexivity|].
    unfold list_content. cbn. now destruct token.
  - assert (Hc : forall l, content' <> PList l).
    { eapply iadd_not_list; [|exact Hadd].
      intros l ->. unfold list_content in Hplain. now rewrite Hes, Hcontent in Hplain. }
    rewrite (accumulate_Some kwargs init_timestamp model token finish_reason st ev
               content content' ls' Hes Hcontent Hadd) in Hacc.
    destruct (truthy ls' finish_reason); injection Hacc as <-; [reflexivity|].
    unfold list_content. cbn [event_stream returns set_returns].
    rewrite dict_getitem_setitem. destruct content'; try reflexivity. now destruct (Hc l).
Qed.

(** A chunk that arrives without a finish reason hands nothing to the sink,
    whatever is accumulated. *)
Lemma handled_unfinished kwargs init_timestamp chunk st :
  has_finish_reason (lists st) chunk = false ->
  client (handled clk kwargs init_timestamp st chunk) = client st.
Proof.
  intros Hnone.
  assert (Hfr : forall model token finish_reason,
             parse_chunk (lists st) chunk = Ok (model, token, finish_reason) ->
             finish_reason = PNone).
  { intros model token finish_reason Hparse. unfold has_finish_reason in Hnone.
    rewrite (parse_chunk_finish_reason _ _ _ _ _ Hparse) in Hnone.
    now destruct finish_reason. }
  destruct (handled_cases kwargs init_timestamp st chunk)
    as [H|[(model & token & finish_reason & prompt & Hparse & Hes & Hprompt & Hacc)
          |(model & token & finish_reason & ev & content & content' & ls' &
            Hparse & Hes & Hcontent & Hadd & Hacc)]].
  - now rewrite H.
  - rewrite (Hfr _ _ _ Hparse) in Hacc.
    rewrite (accumulate_None kwargs init_timestamp model token PNone st prompt
               Hes Hprompt) in Hacc.
    cbn [truthy] in Hacc. injection Hacc as <-. reflexivity.
  - rewrite (Hfr _ _ _ Hparse) in Hacc.
    rewrite (accumulate_Some kwargs init_timestamp model token PNone st ev
               content content' ls' Hes Hcontent Hadd) in Hacc.
    cbn [truthy] in Hacc. injection Hacc as <-. reflexivity.
Qed.

(** A chunk without a true finish reason hands nothing to the sink. *)
Lemma handled_quiet kwargs init_timestamp chunk st :
  list_content st = false ->
  terminal (lists st) chunk = false ->
  client (handled clk kwargs init_timestamp st chunk) = client st.
Proof.
  intros Hplain Hterm.
  destruct (handled_cases kwargs init_timestamp st chunk)
    as [H|[(model & token & finish_reason & prompt & Hparse & Hes & Hprompt & Hacc)
          |(model & token & finish_reason & ev & content & content' & ls' &
            Hparse & Hes & Hcontent & Hadd & Hacc)]].
  - now rewrite H.
  - unfold terminal in Hterm.
    rewrite (parse_chunk_finish_reason _ _ _ _ _ Hparse) in Hterm.
    rewrite (accumulate_None kwargs init_timestamp model token finish_reason st prompt
               Hes Hprompt), Hterm in Hacc.
    injection Hacc as <-. reflexivity.
  - assert (Hls : ls' = lists st).
    { eapply iadd_not_list; [|exact Hadd].
      intros l ->. unfold list_content in Hplain. now rewrite Hes, Hcontent in Hplain. }
    unfold terminal in Hterm.
    rewrite (parse_chunk_finish_reason _ _ _ _ _ Hparse) in Hterm.
    rewrite (accumulate_Some kwargs init_timestamp model token finish_reason st ev
               content content' ls' Hes Hcontent Hadd), Hls, Hterm in Hacc.
    injection Hacc as <-. reflexivity.
Qed.

Lemma next_Decorated_cons kwargs init_timestamp chunk chunks st :
  next clk (Decorated kwargs init_timestamp (Upstream (chunk :: chunks))) st =
  (Ok (Some (chunk, Decorated kwargs init_timestamp (Upstream chunks))),
   handled clk kwargs init_timestamp st chunk).
Proof.
  cbn [next]. cbv beta iota delta [bind ret].
  rewrite handle_stream_chunk_handled. reflexivity.
Qed.

(** Pulling [n] elements of a decorated provider sequence yields its first
    [n] chunks and handles exactly those. *)
Lemma iterate_Decorated kwargs init_timestamp n : forall chunks st,
  iterate clk n (Decorated kwargs init_timestamp (Upstream chunks)) st =
  (Ok (take n chunks, Decorated kwargs init_timestamp (Upstream (drop n chunks))),
   handled_all clk kwargs init_timestamp (take n chunks) st).
Proof.
  induction n as [|n IH]; intros chunks st.
  - reflexivity.
  - destruct chunks as [|chunk chunks]; [reflexivity|].
    cbn [iterate take drop handled_all fold_left].
    unfold bind at 1. rewrite next_Decorated_cons.
    unfold bind. rewrite IH. reflexivity.
Qed.

Lemma exhaust_Decorated kwargs init_timestamp chunks st :
  exhaust clk (Decorated kwargs init_timestamp (Upstream chunks)) st =
  (Ok chunks, handled_all clk kwargs init_timestamp chunks st).
Proof.
  unfold exhaust, bind. rewrite iterate_Decorated. cbn [remaining fst ret].
  rewrite take_ge by lia. reflexivity.
Qed.

Lemma handled_all_cons kwargs init_timestamp chunk chunks st :
  handled_all clk kwargs init_timestamp (chunk :: chunks) st =
  handled_all clk kwargs init_timestamp chunks (handled clk kwargs init_timestamp st chunk).
Proof. reflexivity. Qed.

Lemma handled_all_snoc kwargs init_timestamp chunks chunk st :
  handled_all clk kwargs init_timestamp (chunks ++ [chunk]) st =
  handled clk kwargs init_timestamp (handled_all clk kwargs init_timestamp chunks st) chunk.
Proof. unfold handled_all. now rewrite fold_left_app. Qed.

(** A run of chunks none of which arrives with a finish reason hands nothing
    to the sink. *)
Lemma handled_all_unfinished kwargs init_timestamp chunks : forall st,
  arrive_unfinished clk kwargs init_timestamp chunks st = true ->
  client (handled_all clk kwargs init_timestamp chunks st) = client st.
Proof.
  induction chunks as [|chunk chunks IH]; intros st H; [reflexivity|].
  cbn [arrive_unfinished] in H. apply andb_prop in H as [Hchunk Hchunks].
  apply negb_true_iff in Hchunk.
  rewrite handled_all_cons, (IH _ Hchunks). now apply handled_unfinished.
Qed.

(** A run of chunks with no list among their tokens, when the content in the
    slot is not a list either: no list changes, and none comes into the
    slot. *)
Lemma handled_all_lists kwargs init_timestamp chunks : forall st,
  list_content st = false ->
  Forall (fun chunk => list_token (lists st) chunk = false) chunks ->
  lists (handled_all clk kwargs init_timestamp chunks st) = lists st /\
  list_content (handled_all clk kwargs init_timestamp chunks st) = false.
Proof.
  induction chunks as [|chunk chunks IH]; intros st Hplain Hall; [now split|].
  inversion Hall as [|? ? Hchunk Hchunks]; subst.
  rewrite handled_all_cons.
  pose proof (handled_lists kwargs init_timestamp st chunk Hplain) as Hls.
  pose proof (handled_list_content kwargs init_timestamp st chunk Hplain Hchunk) as Hplain'.
  destruct (IH (handled clk kwargs init_timestamp st chunk) Hplain') as [Hls' Hplain''].
  { now rewrite Hls. }
  split; [congruence|assumption].
Qed.

(** Such a run hands nothing to the sink when none of its chunks has a true
    finish reason. *)
Lemma handled_all_quiet kwargs init_timestamp chunks : forall st,
  list_content st = false ->
  Forall (fun chunk => list_token (lists st) chunk = false) chunks ->
  Forall (fun chunk => terminal (lists st) chunk = false) chunks ->
  client (handled_all clk kwargs init_timestamp chunks st) = client st.
Proof.
  induction chunks as [|chunk chunks IH]; intros st Hplain Htokens Hall; [reflexivity|].
  inversion Htokens as [|? ? Htoken Htokens']; subst.
  inversion Hall as [|? ? Hchunk Hchunks]; subst.
  rewrite handled_all_cons.
  pose proof (handled_lists kwargs init_timestamp st chunk Hplain) as Hls.
  pose proof (handled_list_content kwargs init_timestamp st chunk Hplain Htoken) as Hplain'.
  rewrite IH; [now apply handled_quiet|assumption|now rewrite Hls|now rewrite Hls].
Qed.

(** The accumulation on a string token, when a stream is open. *)
Lemma accumulate_open kwargs init_timestamp model token finish_reason st ev acc :
  event_stream st = Some ev ->
  dict_getitem (returns ev) "content" = Ok (PStr acc) ->
  let ev' := set_returns ev (dict_setitem (returns ev) "content"
                                          (PStr (String.append acc token))) in
  accumulate clk kwargs init_timestamp model (PStr token) finish_reason st =
  if truthy (lists st) finish_reason then
    (Ok tt,
     mkWorld None
       (client st ++
        [set_end_timestamp
           (set_returns ev' (dict_setitem (returns ev') "finish_reason" finish_reason))
           (clk (ticks st))])
       (S (ticks st)) (stdout st) (sys_modules st) (heap st) (lists st))
  else
    (Ok tt,
     mkWorld (Some ev') (client st) (ticks st) (stdout st) (sys_modules st) (heap st)
             (lists st)).
Proof.
  intros Hes Hcontent ev'.
  exact (accumulate_Some kwargs init_timestamp model (PStr token) finish_reason st ev
           (PStr acc) (PStr (String.append acc token)) (lists st) Hes Hcontent eq_refl).
Qed.

(** The accumulation on any token, when no stream is open. *)
Lemma accumulate_closed kwargs init_timestamp model token finish_reason st prompt :
  event_stream st = None ->
  dict_getitem kwargs "messages" = Ok prompt ->
  let ev' := mkEvent (PStr "openai stream") kwargs "Success"
               [("finish_reason", PNone); ("content", token)]
               "llm" model prompt init_timestamp (clk (ticks st)) in
  accumulate clk kwargs init_timestamp model token finish_reason st =
  if truthy (lists st) finish_reason then
    (Ok tt,
     mkWorld None
       (client st ++
        [set_end_timestamp
           (set_returns ev' (dict_setitem (returns ev') "finish_reason" finish_reason))
           (clk (S (ticks st)))])
       (S (S (ticks st))) (stdout st) (sys_modules st) (heap st) (lists st))
  else
    (Ok tt,
     mkWorld (Some ev') (client st) (S (ticks st)) (stdout st) (sys_modules st) (heap st)
             (lists st)).
Proof. apply accumulate_None. Qed.

End StreamFacts.

Lemma text_chunk_parse ls chunk :
  text_chunk ls chunk = true ->
  exists model finish_reason,
    parse_chunk ls chunk = Ok (model, PStr (chunk_token ls chunk), finish_reason) /\
    chunk_finish_reason ls chunk = Ok finish_reason.
Proof.
  unfold text_chunk, chunk_token. intros H.
  destruct (parse_chunk ls chunk) as [[[model token] finish_reason]|] eqn:Hparse;
    [|discriminate].
  destruct token; try discriminate.
  exists model, finish_reason. split; [reflexivity|].
  eapply parse_chunk_finish_reason, Hparse.
Qed.

(** A chunk that does not end a stream has no list as its token. *)
Lemma continuing_list_token ls chunk : continuing ls chunk -> list_token ls chunk = false.
Proof.
  unfold list_token. intros [Hfail|[Htext _]].
  - now destruct (parse_chunk ls chunk).
  - destruct (text_chunk_parse ls chunk Htext) as (model & finish_reason & Hparse & _).
    now rewrite Hparse.
Qed.

Lemma text_chunk_list_token ls chunk : text_chunk ls chunk = true -> list_token ls chunk = false.
Proof.
  intros Htext. unfold list_token.
  destruct (text_chunk_parse ls chunk Htext) as (model & finish_reason & Hparse & _).
  now rewrite Hparse.
Qed.

Lemma append_String x (a b : string) :
  String.append (String x a) b = String x (String.append a b).
Proof. reflexivity. Qed.

Lemma append_assoc (a b c : string) :
  String.append (String.append a b) c = String.append a (String.append b c).
Proof. induction a as [|x a IH]; [reflexivity|]. rewrite !append_String. now f_equal. Qed.

Lemma append_empty_r (a : string) : String.append a EmptyString = a.
Proof. induction a as [|x a IH]; [reflexivity|]. rewrite !append_String. now f_equal. Qed.

Lemma concat_tokens_cons ls chunk chunks :
  concat_tokens ls (chunk :: chunks) =
  String.append (chunk_token ls chunk) (concat_tokens ls chunks).
Proof. reflexivity. Qed.

Lemma concat_tokens_snoc ls chunks chunk :
  concat_tokens ls (chunks ++ [chunk]) =
  String.append (concat_tokens ls chunks) (chunk_token ls chunk).
Proof.
  induction chunks as [|c chunks IH].
  - cbn. now rewrite append_empty_r.
  - change ((c :: chunks) ++ [chunk])%list with (c :: (chunks ++ [chunk]))%list.
    rewrite !concat_tokens_cons, IH. now rewrite append_assoc.
Qed.

Lemma concat_tokens_app ls chunks1 chunks2 :
  concat_tokens ls (chunks1 ++ chunks2) =
  String.append (concat_tokens ls chunks1) (concat_tokens ls chunks2).
Proof.
  induction chunks1 as [|c chunks1 IH]; [reflexivity|].
  change ((c :: chunks1) ++ chunks2)%list with (c :: (chunks1 ++ chunks2))%list.
  rewrite !concat_tokens_cons, IH. now rewrite append_assoc.
Qed.

(** A state whose slot holds a string, or nothing, has no list as content. *)
Lemma slot_holds_list_content st content : slot_holds st content -> list_content st = false.
Proof.
  unfold list_content. destruct content as [acc|]; cbn.
  - intros (ev & -> & ->). reflexivity.
  - intros ->. reflexivity.
Qed.

Section OneStream.

Variable clk : nat -> nat.
Variable kwargs : pykwargs.
Variable init_timestamp : nat.
Variable prompt : pyval.
Hypothesis kwargs_messages : dict_getitem kwargs "messages" = Ok prompt.

(** The content after one more token. *)
Let extended (content : option string) (token : string) : string :=
  String.append (default EmptyString content) token.

(** A chunk that is skipped leaves the slot, the sink and the lists alone. *)
Lemma handled_skipped st chunk content :
  raised (parse_chunk (lists st) chunk) = true ->
  slot_holds st content ->
  slot_holds (handled clk kwargs init_timestamp st chunk) content /\
  client (handled clk kwargs init_timestamp st chunk) = client st /\
  lists (handled clk kwargs init_timestamp st chunk) = lists st /\
  chunk_token (lists st) chunk = EmptyString.
Proof.
  intros Hfail Hslot.
  destruct (parse_chunk (lists st) chunk) as [p|e] eqn:Hparse; [discriminate|].
  rewrite handled_Raise by (eapply parse_failure_raises, Hparse).
  unfold chunk_token. rewrite Hparse.
  repeat split. destruct content; exact Hslot.
Qed.

(** A chunk with a string token and no true finish reason opens the event, or
    appends to it. *)
Lemma handled_appended st chunk content :
  text_chunk (lists st) chunk = true ->
  terminal (lists st) chunk = false ->
  slot_holds st content ->
  slot_holds (handled clk kwargs init_timestamp st chunk)
             (Some (extended content (chunk_token (lists st) chunk))) /\
  client (handled clk kwargs init_timestamp st chunk) = client st /\
  lists (handled clk kwargs init_timestamp st chunk) = lists st.
Proof.
  intros Htext Hterm Hslot.
  destruct (text_chunk_parse _ chunk Htext) as (model & finish_reason & Hparse & Hfr).
  unfold terminal in Hterm. rewrite Hfr in Hterm.
  destruct content as [acc|]; cbn [slot_holds] in Hslot.
  - destruct Hslot as (ev & Hes & Hreturns).
    erewrite handled_parsed; [|exact Hparse|].
    2:{ rewrite (accumulate_open clk kwargs init_timestamp model _ finish_reason st ev acc Hes)
          by (rewrite Hreturns; reflexivity).
        rewrite Hterm. reflexivity. }
    split; [|split; reflexivity]. eexists. split; [reflexivity|].
    cbn [returns set_returns]. rewrite Hreturns. reflexivity.
  - erewrite handled_parsed; [|exact Hparse|].
    2:{ rewrite (accumulate_closed clk kwargs init_timestamp model _ finish_reason st prompt
                   Hslot kwargs_messages).
        rewrite Hterm. reflexivity. }
    split; [|split; reflexivity]. eexists. split; reflexivity.
Qed.

(** A run of chunks none of which ends the stream: the slot holds their
    tokens, joined in order after what it held, and the sink has received
    nothing. *)
Lemma handled_all_continuing chunks : forall st content,
  Forall (continuing (lists st)) chunks ->
  slot_holds st content ->
  exists content',
    slot_holds (handled_all clk kwargs init_timestamp chunks st) content' /\
    default EmptyString content' =
      String.append (default EmptyString content) (concat_tokens (lists st) chunks) /\
    client (handled_all clk kwargs init_timestamp chunks st) = client st /\
    lists (handled_all clk kwargs init_timestamp chunks st) = lists st.
Proof.
  induction chunks as [|chunk chunks IH]; intros st content Hall Hslot.
  - exists content. cbn [handled_all fold_left]. repeat split; [assumption|].
    cbn. now rewrite append_empty_r.
  - inversion Hall as [|? ? Hchunk Hchunks]; subst.
    rewrite handled_all_cons, concat_tokens_cons.
    destruct Hchunk as [Hfail|[Htext Hterm]].
    + destruct (handled_skipped st chunk content Hfail Hslot)
        as (Hslot' & Hclient & Hls & Htoken).
      rewrite <- Hls in Hchunks.
      destruct (IH _ content Hchunks Hslot')
        as (content' & Hslot'' & Hcontent & Hclient' & Hls').
      exists content'. rewrite Htoken. rewrite Hls in Hcontent.
      repeat split; [assumption|assumption|congruence|congruence].
    + destruct (handled_appended st chunk content Htext Hterm Hslot)
        as (Hslot' & Hclient & Hls).
      rewrite <- Hls in Hchunks.
      destruct (IH _ _ Hchunks Hslot') as (content' & Hslot'' & Hcontent & Hclient' & Hls').
      exists content'. rewrite Hls in Hcontent.
      repeat split; [assumption| |congruence|congruence].
      rewrite Hcontent. cbn [default]. unfold extended. apply append_assoc.
Qed.

(** A chunk with a string token and a true finish reason completes the event,
    which it may have opened itself, and hands it to the sink. *)
Lemma handled_terminal st chunk content finish_reason :
  text_chunk (lists st) chunk = true ->
  chunk_finish_reason (lists st) chunk = Ok finish_reason ->
  truthy (lists st) finish_reason = true ->
  slot_holds st content ->
  exists ev,
    event_stream (handled clk kwargs init_timestamp st chunk) = None /\
    client (handled clk kwargs init_timestamp st chunk) = client st ++ [ev] /\
    lists (handled clk kwargs init_timestamp st chunk) = lists st /\
    returns ev = [("finish_reason", finish_reason);
                  ("content", PStr (extended content (chunk_token (lists st) chunk)))].
Proof.
  intros Htext Hfr Htrue Hslot.
  destruct (text_chunk_parse _ chunk Htext) as (model & finish_reason' & Hparse & Hfr').
  assert (finish_reason' = finish_reason) by congruence. subst finish_reason'.
  destruct content as [acc|]; cbn [slot_holds] in Hslot.
  - destruct Hslot as (ev & Hes & Hreturns).
    erewrite handled_parsed; [|exact Hparse|].
    2:{ rewrite (accumulate_open clk kwargs init_timestamp model _ finish_reason st ev acc Hes)
          by (rewrite Hreturns; reflexivity).
        rewrite Htrue. reflexivity. }
    eexists. repeat split. cbn [returns set_returns set_end_timestamp].
    rewrite Hreturns. reflexivity.
  - erewrite handled_parsed; [|exact Hparse|].
    2:{ rewrite (accumulate_closed clk kwargs init_timestamp model _ finish_reason st prompt
                   Hslot kwargs_messages).
        rewrite Htrue. reflexivity. }
    eexists. repeat split.
Qed.

(** The whole stream: chunks that do not end it, then one that does. *)
Lemma handled_all_stream st chunks last finish_reason :
  event_stream st = None ->
  Forall (continuing (lists st)) chunks ->
  text_chunk (lists st) last = true ->
  chunk_finish_reason (lists st) last = Ok finish_reason ->
  truthy (lists st) finish_reason = true ->
  exists ev,
    event_stream (handled_all clk kwargs init_timestamp (chunks ++ [last]) st) = None /\
    client (handled_all clk kwargs init_timestamp (chunks ++ [last]) st) = client st ++ [ev] /\
    lists (handled_all clk kwargs init_timestamp (chunks ++ [last]) st) = lists st /\
    returns ev = [("finish_reason", finish_reason);
                  ("content", PStr (concat_tokens (lists st) (chunks ++ [last])))].
Proof.
  intros Hes Hall Htext Hfr Htrue.
  rewrite handled_all_snoc.
  destruct (handled_all_continuing chunks st None Hall Hes)
    as (content & Hslot & Hcontent & Hclient & Hls).
  rewrite <- Hls in Htext, Hfr, Htrue.
  destruct (handled_terminal _ last content finish_reason Htext Hfr Htrue Hslot)
    as (ev & Hslot' & Hclient' & Hls' & Hreturns).
  exists ev. repeat split; [assumption|congruence|congruence|].
  rewrite Hreturns, concat_tokens_snoc, Hls. unfold extended. rewrite Hcontent. reflexivity.
Qed.

End OneStream.

(** ** The state of a stream, chunk after chunk *)

Lemma parsed_false ls chunk :
  parsed ls chunk = false -> raised (parse_chunk ls chunk) = true.
Proof. unfold parsed. now destruct (raised (parse_chunk ls chunk)). Qed.

Lemma continuing_parsed ls chunk :
  continuing ls chunk ->
  (parsed ls chunk = false /\ chunk_token ls chunk = EmptyString) \/
  (parsed ls chunk = true /\ exists model finish_reason,
      parse_chunk ls chunk = Ok (model, PStr (chunk_token ls chunk), finish_reason) /\
      truthy ls finish_reason = false).
Proof.
  intros [Hfail|[Htext Hterm]].
  - left. unfold parsed, chunk_token. rewrite Hfail.
    destruct (parse_chunk ls chunk); [discriminate|]. split; reflexivity.
  - right. destruct (text_chunk_parse ls chunk Htext) as (model & finish_reason & Hparse & Hfr).
    unfold parsed. rewrite Hparse. split; [reflexivity|].
    exists model, finish_reason. split; [reflexivity|].
    unfold terminal in Hterm. now rewrite Hfr in Hterm.
Qed.

Lemma concat_tokens_unparsed ls chunks :
  existsb (parsed ls) chunks = false -> concat_tokens ls chunks = EmptyString.
Proof.
  induction chunks as [|chunk chunks IH]; [reflexivity|].
  cbn [existsb]. intros H. apply orb_false_elim in H as [Hchunk Hchunks].
  rewrite concat_tokens_cons, (IH Hchunks), append_empty_r.
  unfold chunk_token. apply parsed_false in Hchunk.
  destruct (parse_chunk ls chunk); [discriminate|reflexivity].
Qed.

Lemma first_model_snoc ls chunks chunk :
  first_model ls (chunks ++ [chunk]) =
  if existsb (parsed ls) chunks then first_model ls chunks else first_model ls [chunk].
Proof.
  induction chunks as [|c chunks IH]; [reflexivity|].
  cbn [app first_model existsb]. unfold parsed at 1.
  destruct (parse_chunk ls c) as [[[model token] finish_reason]|]; [reflexivity|].
  cbn. exact IH.
Qed.

Lemma skipped_lines_snoc ls kwargs chunks chunk :
  skipped_lines ls kwargs (chunks ++ [chunk]) =
  skipped_lines ls kwargs chunks ++
  (if parsed ls chunk then [] else [UnableToParseChunk kwargs]).
Proof. unfold skipped_lines. rewrite flat_map_app. cbn. now rewrite app_nil_r. Qed.

Lemma lists_stream_state clk kwargs started prompt st chunks :
  lists (stream_state clk kwargs started prompt st chunks) = lists st.
Proof. unfold stream_state. now destruct (existsb (parsed (lists st)) chunks). Qed.

Section StreamState.

Variable clk : nat -> nat.

(** The state while a stream that started with the slot empty goes on. *)
Lemma handled_all_stream_state kwargs started prompt st chunks :
  dict_getitem kwargs "messages" = Ok prompt ->
  event_stream st = None ->
  Forall (continuing (lists st)) chunks ->
  handled_all clk kwargs started chunks st = stream_state clk kwargs started prompt st chunks.
Proof.
  intros kwargs_messages Hes.
  induction chunks as [|chunk chunks IH] using rev_ind; intros Hall.
  - unfold stream_state. cbn. rewrite app_nil_r. destruct st; cbn in *; now subst.
  - apply Forall_app in Hall as [Hchunks Hchunk].
    apply Forall_inv in Hchunk.
    rewrite handled_all_snoc, (IH Hchunks).
    unfold stream_state. rewrite existsb_app, skipped_lines_snoc, first_model_snoc.
    cbn [existsb]. rewrite orb_false_r, concat_tokens_snoc.
    destruct (continuing_parsed _ chunk Hchunk)
      as [[Hparsed Htoken]|(Hparsed & model & finish_reason & Hparse & Hfalse)];
      rewrite Hparsed.
    + rewrite Htoken, append_empty_r, orb_false_r.
      apply parsed_false in Hparsed.
      destruct (parse_chunk (lists st) chunk) as [|e] eqn:Hp; [discriminate|].
      destruct (existsb (parsed (lists st)) chunks);
        (rewrite handled_Raise by (eapply parse_failure_raises; exact Hp));
        unfold printed; cbn; now rewrite app_assoc.
    + rewrite orb_true_r, app_nil_r.
      destruct (existsb (parsed (lists st)) chunks) eqn:Hopened.
      * erewrite handled_parsed; [|exact Hparse|].
        2:{ erewrite accumulate_open; [|reflexivity|reflexivity].
            cbn [lists]. rewrite Hfalse. reflexivity. }
        reflexivity.
      * erewrite handled_parsed; [|exact Hparse|].
        2:{ erewrite accumulate_closed; [|reflexivity|exact kwargs_messages].
            cbn [lists]. rewrite Hfalse. reflexivity. }
        cbn [first_model]. rewrite Hparse, (concat_tokens_unparsed _ chunks Hopened).
        reflexivity.
Qed.

(** The state while chunks that do not end a stream are handled with the slot
    holding an open event, whatever call they come from: the event takes
    their tokens and is otherwise as it was. *)
Lemma handled_all_open kwargs started st ev acc chunks :
  event_stream st = Some ev ->
  returns ev = open_returns acc ->
  Forall (continuing (lists st)) chunks ->
  handled_all clk kwargs started chunks st =
  mkWorld (Some (set_returns ev
                   (open_returns (String.append acc (concat_tokens (lists st) chunks)))))
          (client st) (ticks st) (stdout st ++ skipped_lines (lists st) kwargs chunks)
          (sys_modules st) (heap st) (lists st).
Proof.
  intros Hes Hreturns.
  induction chunks as [|chunk chunks IH] using rev_ind; intros Hall.
  - cbn. rewrite app_nil_r, append_empty_r.
    destruct st as [es c t o m h ls]; cbn in *. subst es.
    destruct ev; cbn in *. now subst.
  - apply Forall_app in Hall as [Hchunks Hchunk].
    apply Forall_inv in Hchunk.
    rewrite handled_all_snoc, (IH Hchunks).
    rewrite skipped_lines_snoc, concat_tokens_snoc.
    destruct (continuing_parsed _ chunk Hchunk)
      as [[Hparsed Htoken]|(Hparsed & model & finish_reason & Hparse & Hfalse)];
      rewrite Hparsed.
    + rewrite Htoken, append_empty_r.
      apply parsed_false in Hparsed.
      destruct (parse_chunk (lists st) chunk) as [|e] eqn:Hp; [discriminate|].
      rewrite handled_Raise by (eapply parse_failure_raises; exact Hp).
      unfold printed; cbn; now rewrite app_assoc.
    + rewrite app_nil_r.
      erewrite handled_parsed; [|exact Hparse|].
      2:{ erewrite accumulate_open; [|reflexivity|reflexivity].
          cbn [lists]. rewrite Hfalse. reflexivity. }
      cbn. now rewrite append_assoc.
Qed.

End StreamState.

(** ** What the tracker never does at call time *)

Lemma grows_refl st : grows st st.
Proof. repeat split; reflexivity. Qed.

Lemma grows_trans st1 st2 st3 : grows st1 st2 -> grows st2 st3 -> grows st1 st3.
Proof.
  intros (Hm & Hh & Hc & Ho & Ht & Hl) (Hm' & Hh' & Hc' & Ho' & Ht' & Hl').
  repeat split; try congruence; try (etransitivity; eassumption).
  intros l. etransitivity; [apply Hl|apply Hl'].
Qed.

Lemma growing_ret {A} (a : A) : growing (ret a).
Proof. intros st. apply grows_refl. Qed.

Lemma growing_lift {A} (r : Exc A) : growing (lift r).
Proof. intros st. apply grows_refl. Qed.

Lemma growing_raise {A} (e : exn) : growing (@raise world A e).
Proof. intros st. apply grows_refl. Qed.

Lemma growing_bind {A B} (m : M A) (k : A -> M B) :
  growing m -> (forall a, growing (k a)) -> growing (bind m k).
Proof.
  intros Hm Hk st. unfold bind. specialize (Hm st).
  destruct (m st) as [[a|e] st1]; cbn [snd] in *; [|assumption].
  eapply grows_trans; [exact Hm|apply Hk].
Qed.

Lemma growing_try_except (body handler : M unit) :
  growing body -> growing handler -> growing (try_except body handler).
Proof.
  intros Hb Hh st. unfold try_except. specialize (Hb st).
  destruct (body st) as [[[]|e] st1]; cbn [snd] in *; [assumption|].
  eapply grows_trans; [exact Hb|apply Hh].
Qed.

Lemma growing_print l : growing (print l).
Proof. intros st. repeat split; cbn; try reflexivity. now apply prefix_app_r. Qed.

Lemma growing_get_event_stream : growing get_event_stream.
Proof. intros st. apply grows_refl. Qed.

Lemma growing_set_event_stream es : growing (set_event_stream es).
Proof. intros st. repeat split; reflexivity. Qed.

Lemma growing_client_record ev : growing (client_record ev).
Proof. intros st. repeat split; cbn; try reflexivity. now apply prefix_app_r. Qed.

Lemma growing_get_ISO_time clk : growing (get_ISO_time clk).
Proof. intros st. repeat split; cbn; try reflexivity. lia. Qed.

Lemma growing_index0 v : growing (index0 v).
Proof. intros st. apply grows_refl. Qed.

Lemma growing_is_true v : growing (is_true v).
Proof. intros st. apply grows_refl. Qed.

(** [+=] only appends to the list it extends. *)
Lemma growing_iadd_in_place a b : growing (iadd_in_place a b).
Proof.
  intros st. unfold iadd_in_place.
  destruct (iadd (lists st) a b) as [[a' ls]|e] eqn:Hadd; cbn [snd]; [|apply grows_refl].
  repeat split; cbn; try reflexivity. intros l.
  destruct a as [|x|x|l0|d|attrs]; cbn in Hadd; try discriminate.
  - destruct b; try discriminate. injection Hadd as <- <-. reflexivity.
  - destruct b; try discriminate. injection Hadd as <- <-. reflexivity.
  - destruct (iterable (lists st) b) as [more|]; [|discriminate].
    injection Hadd as <- <-. unfold items.
    destruct (decide (l0 = l)) as [->|Hne].
    + rewrite lookup_insert_eq. cbn. now apply prefix_app_r.
    + rewrite lookup_insert_ne by assumption. reflexivity.
Qed.

Lemma growing_update_event_stream f : growing (update_event_stream f).
Proof.
  apply growing_bind; [apply growing_get_event_stream|].
  intros [ev|]; [apply growing_set_event_stream|apply growing_raise].
Qed.

Lemma growing_Event_init clk event_type params result returns action_type model prompt
    started :
  growing (Event_init clk event_type params result returns action_type model prompt started).
Proof.
  apply growing_bind; [apply growing_get_ISO_time|]. intros t. apply growing_ret.
Qed.

Create HintDb growing.
#[local] Hint Resolve growing_ret growing_lift growing_raise growing_print
  growing_get_event_stream growing_set_event_stream growing_client_record
  growing_get_ISO_time growing_update_event_stream growing_Event_init
  growing_index0 growing_is_true growing_iadd_in_place : growing.

Ltac growing_step :=
  first [ apply growing_bind; [|intros ?]
        | apply growing_try_except
        | solve [auto with growing]
        | match goal with
          | |- growing (match ?x with _ => _ end) => destruct x
          | |- growing (if ?b then _ else _) => destruct b
          end ].

Section Growing.

Variable clk : nat -> nat.
Variable native : string -> list pyval -> pykwargs -> Exc returned.

Lemma growing_handle_stream_chunk kwargs started chunk :
  growing (handle_stream_chunk clk kwargs started chunk).
Proof. unfold handle_stream_chunk, handle_stream_chunk_body. repeat growing_step. Qed.

Lemma growing_next g : growing (next clk g).
Proof.
  induction g as [[|chunk chunks]|kwargs started g IH]; cbn [next].
  - apply growing_ret.
  - apply growing_ret.
  - apply growing_bind; [exact IH|]. intros [[chunk g']|]; [|apply growing_ret].
    apply growing_bind; [apply growing_handle_stream_chunk|]. intros _. apply growing_ret.
Qed.

Lemma growing_iterate n : forall g, growing (iterate clk n g).
Proof.
  induction n as [|n IH]; intros g; cbn [iterate].
  - apply growing_ret.
  - apply growing_bind; [apply growing_next|]. intros [[chunk g']|]; [|apply growing_ret].
    apply growing_bind; [apply IH|]. intros r. apply growing_ret.
Qed.

Lemma growing__handle_response_openai response kwargs started :
  growing (_handle_response_openai clk response kwargs started).
Proof.
  unfold _handle_response_openai, record_response_openai.
  destruct response; repeat growing_step.
Qed.

Lemma growing__handle_async_response_openai response kwargs started :
  growing (_handle_async_response_openai clk response kwargs started).
Proof.
  unfold _handle_async_response_openai, record_async_response_openai.
  destruct response; repeat growing_step.
Qed.

Lemma growing_handle_response api response kwargs started :
  growing (handle_response clk api response kwargs started).
Proof.
  unfold handle_response. destruct (String.eqb api "openai");
    [apply growing__handle_response_openai|apply growing_ret].
Qed.

Lemma growing_call f : forall args kwargs, growing (call clk native f args kwargs).
Proof.
  induction f as [l|v|name coroutine|api f IH|api f IH|f IH|f IH]; intros args kwargs;
    cbn [call].
  - apply growing_raise.
  - apply growing_raise.
  - apply growing_lift.
  - apply growing_bind; [apply growing_get_ISO_time|]. intros t.
    apply growing_bind; [apply IH|]. intros r. apply growing_handle_response.
  - apply growing_ret.
  - repeat (apply growing_bind; [apply growing_print|]; intros _).
    apply growing_bind; [apply IH|]. intros r.
    apply growing_bind; [apply growing_get_ISO_time|]. intros t.
    apply growing_bind; [apply growing__handle_response_openai|]. intros _.
    apply growing_ret.
  - apply growing_bind; [apply growing_print|]. intros _.
    apply growing_bind; [apply IH|]. intros r.
    apply growing_bind; [apply growing_get_ISO_time|]. intros t.
    apply growing_bind; [apply growing__handle_response_openai|]. intros _.
    apply growing_ret.
Qed.

End Growing.

(** ** Generators with any number of layers of decoration *)

Section Layers.

Variable clk : nat -> nat.

(** [next] never raises, and yields the chunks of the underlying sequence. *)
Lemma next_upstream g : forall st,
  match upstream g with
  | [] => exists st', next clk g st = (Ok None, st')
  | chunk :: chunks =>
      exists g' st', next clk g st = (Ok (Some (chunk, g')), st') /\
                     upstream g' = chunks /\ remaining g' = length chunks
  end.
Proof.
  induction g as [chunks|kwargs init_timestamp g IH]; intros st.
  - destruct chunks as [|chunk chunks]; cbn; eauto.
  - cbn [upstream next]. specialize (IH st).
    destruct (upstream g) as [|chunk chunks].
    + destruct IH as [st' H]. exists st'. unfold bind. now rewrite H.
    + destruct IH as (g' & st' & H & Hup & Hrem).
      unfold bind at 1. rewrite H.
      unfold bind. rewrite handle_stream_chunk_handled.
      do 2 eexists. split; [reflexivity|]. split; assumption.
Qed.

Lemma remaining_upstream g : remaining g = length (upstream g).
Proof. induction g; cbn; auto. Qed.

Lemma iterate_upstream n : forall g st,
  exists g' st', iterate clk n g st = (Ok (take n (upstream g), g'), st').
Proof.
  induction n as [|n IH]; intros g st.
  - cbn. eauto.
  - cbn [iterate]. pose proof (next_upstream g st) as Hnext.
    destruct (upstream g) as [|chunk chunks].
    + destruct Hnext as [st' H]. unfold bind. rewrite H. cbn. eauto.
    + destruct Hnext as (g' & st' & H & Hup & _).
      unfold bind at 1. rewrite H.
      destruct (IH g' st') as (g'' & st'' & H').
      unfold bind. rewrite H', Hup. cbn. eauto.
Qed.

Lemma yields_upstream g n st : yields clk g n st = Ok (take n (upstream g)).
Proof.
  unfold yields. destruct (iterate_upstream n g st) as (g' & st' & H). now rewrite H.
Qed.

Lemma exhaust_upstream g st : fst (exhaust clk g st) = Ok (upstream g).
Proof.
  unfold exhaust, bind.
  destruct (iterate_upstream (S (remaining g)) g st) as (g' & st' & H). rewrite H.
  cbn [ret fst]. rewrite remaining_upstream, take_ge by lia. reflexivity.
Qed.

(** While no list is there to be extended, neither in the slot nor among the
    tokens to come, pulling an element changes no list and lets none into the
    slot, however many layers of decoration the generator has. *)
Lemma next_lists g : forall st,
  list_content st = false ->
  Forall (fun chunk => list_token (lists st) chunk = false) (upstream g) ->
  lists (snd (next clk g st)) = lists st /\
  list_content (snd (next clk g st)) = false.
Proof.
  induction g as [chunks|kwargs init_timestamp g IH]; intros st Hplain Hall.
  - destruct chunks as [|chunk chunks]; cbn; split; auto.
  - cbn [upstream] in Hall. destruct (IH st Hplain Hall) as [Hls Hplain'].
    pose proof (next_upstream g st) as Hnext.
    destruct (upstream g) as [|chunk chunks].
    + destruct Hnext as [st' H].
      assert (Hn : next clk (Decorated kwargs init_timestamp g) st = (Ok None, st'))
        by (cbn [next]; unfold bind; now rewrite H).
      rewrite H in Hls, Hplain'. rewrite Hn. now split.
    + destruct Hnext as (g' & st' & H & _).
      assert (Hn : next clk (Decorated kwargs init_timestamp g) st =
                   (Ok (Some (chunk, Decorated kwargs init_timestamp g')),
                    handled clk kwargs init_timestamp st' chunk)).
      { cbn [next]. unfold bind at 1. rewrite H.
        unfold bind. now rewrite handle_stream_chunk_handled. }
      rewrite H in Hls, Hplain'. cbn [snd] in Hls, Hplain'. rewrite Hn. cbn [snd].
      apply Forall_inv in Hall. rewrite <- Hls in Hall.
      split.
      * now rewrite handled_lists.
      * now apply handled_list_content.
Qed.

Lemma iterate_lists n : forall g st,
  list_content st = false ->
  Forall (fun chunk => list_token (lists st) chunk = false) (upstream g) ->
  lists (snd (iterate clk n g st)) = lists st.
Proof.
  induction n as [|n IH]; intros g st Hplain Hall; [reflexivity|].
  cbn [iterate]. destruct (next_lists g st Hplain Hall) as [Hls Hplain'].
  pose proof (next_upstream g st) as Hnext.
  destruct (upstream g) as [|chunk chunks].
  - destruct Hnext as [st' H]. unfold bind. rewrite H in *. exact Hls.
  - destruct Hnext as (g' & st' & H & Hup & _).
    unfold bind at 1. rewrite H in *. cbn [snd] in Hls, Hplain'.
    apply Forall_inv_tail in Hall. rewrite <- Hls, <- Hup in Hall.
    specialize (IH g' st' Hplain' Hall).
    unfold bind. destruct (iterate clk n g' st') as [[rest|e] st'']; cbn [snd ret] in *;
      congruence.
Qed.

(** A chunk whose finish reason does not pass the test, pulled while no list
    is there to be extended, hands nothing to the sink, however many layers
    of decoration handle it. *)
Lemma next_quiet g : forall st,
  list_content st = false ->
  match upstream g with
  | [] => True
  | chunk :: _ => list_token (lists st) chunk = false /\ terminal (lists st) chunk = false
  end ->
  client (snd (next clk g st)) = client st /\
  lists (snd (next clk g st)) = lists st /\
  list_content (snd (next clk g st)) = false.
Proof.
  induction g as [chunks|kwargs init_timestamp g IH]; intros st Hplain Hhead.
  - destruct chunks as [|chunk chunks]; cbn; repeat split; auto.
  - cbn [upstream] in Hhead. destruct (IH st Hplain Hhead) as (Hclient & Hls & Hplain').
    pose proof (next_upstream g st) as Hnext.
    destruct (upstream g) as [|chunk chunks].
    + destruct Hnext as [st' H].
      assert (Hn : next clk (Decorated kwargs init_timestamp g) st = (Ok None, st'))
        by (cbn [next]; unfold bind; now rewrite H).
      rewrite H in Hclient, Hls, Hplain'. rewrite Hn. now repeat split.
    + destruct Hnext as (g' & st' & H & _).
      assert (Hn : next clk (Decorated kwargs init_timestamp g) st =
                   (Ok (Some (chunk, Decorated kwargs init_timestamp g')),
                    handled clk kwargs init_timestamp st' chunk)).
      { cbn [next]. unfold bind at 1. rewrite H.
        unfold bind. now rewrite handle_stream_chunk_handled. }
      rewrite H in Hclient, Hls, Hplain'. cbn [snd] in Hclient, Hls, Hplain'.
      rewrite Hn. cbn [snd].
      destruct Hhead as [Htoken Hterm]. rewrite <- Hls in Htoken, Hterm.
      split; [|split].
      * now rewrite handled_quiet.
      * now rewrite handled_lists.
      * now apply handled_list_content.
Qed.

Lemma iterate_quiet n : forall g st,
  list_content st = false ->
  Forall (fun chunk => list_token (lists st) chunk = false) (take n (upstream g)) ->
  Forall (fun chunk => terminal (lists st) chunk = false) (take n (upstream g)) ->
  client (snd (iterate clk n g st)) = client st.
Proof.
  induction n as [|n IH]; intros g st Hplain Htokens Hquiet; [reflexivity|].
  cbn [iterate]. pose proof (next_quiet g st Hplain) as Hq.
  pose proof (next_upstream g st) as Hnext.
  destruct (upstream g) as [|chunk chunks].
  - destruct Hnext as [st' H]. destruct (Hq I) as (Hclient & _).
    unfold bind. rewrite H in *. exact Hclient.
  - destruct Hnext as (g' & st' & H & Hup & _).
    cbn [take] in Htokens, Hquiet.
    destruct Hq as (Hclient & Hls & Hplain');
      [split; [exact (Forall_inv Htokens)|exact (Forall_inv Hquiet)]|].
    unfold bind at 1. rewrite H in *. cbn [snd] in Hclient, Hls, Hplain'.
    apply Forall_inv_tail in Htokens. apply Forall_inv_tail in Hquiet.
    rewrite <- Hls, <- Hup in Htokens, Hquiet.
    specialize (IH g' st' Hplain' Htokens Hquiet).
    unfold bind. destruct (iterate clk n g' st') as [[rest|e] st'']; cbn [snd ret] in *;
      congruence.
Qed.

End Layers.

(** ** Streams: abandoned, failing and complete *)

(** C8, as amended. The caller stops after [n] elements: the decorated
    generator has yielded the first [n] chunks.
    - When none of them arrives with a finish reason (it is [None], or cannot
      be read, when the chunk is handled), the sink has received nothing.
    - The same holds of the sequence under any number of layers of
      decoration, also when the finish reasons are there but none passes the
      test [if finish_reason:], as long as no list is accumulated: the
      content in the slot is not a list, nor is the token of a chunk pulled.
    - The open event is not lost. When the slot was empty at the start, the
      keyword arguments include [messages], every chunk pulled fails to parse
      or has a string token, and one of them parsed: the event stays in the
      slot, with the tokens pulled so far; and the next stream of the tracker
      that is iterated to a chunk with a true finish reason, whatever call it
      belongs to, makes the sink receive that very event, with the
      parameters, the prompt, the model and the start of the abandoned call,
      and the tokens of the later stream after those of the abandoned one. *)
Theorem abandoned_stream_records_nothing (clk : nat -> nat) (kwargs : pykwargs)
    (init_timestamp : nat) (prompt : pyval) (chunks : list pyval) (n : nat) (st : world) :
  let pulled := take n chunks in
  let abandoned := iterate clk n (Decorated kwargs init_timestamp (Upstream chunks)) st in
  fst abandoned = Ok (pulled, Decorated kwargs init_timestamp (Upstream (drop n chunks))) /\
  (arrive_unfinished clk kwargs init_timestamp pulled st = true ->
   client (snd abandoned) = client st) /\
  (forall g,
      upstream g = chunks ->
      list_content st = false ->
      Forall (fun chunk => list_token (lists st) chunk = false) pulled ->
      Forall (fun chunk => terminal (lists st) chunk = false) pulled ->
      yields clk g n st = Ok pulled /\
      client (snd (iterate clk n g st)) = client st) /\
  (event_stream st = None ->
   dict_getitem kwargs "messages" = Ok prompt ->
   Forall (continuing (lists st)) pulled ->
   existsb (parsed (lists st)) pulled = true ->
   event_stream (snd abandoned) =
     Some (open_event kwargs init_timestamp prompt (first_model (lists st) pulled)
                      (concat_tokens (lists st) pulled) (clk (ticks st))) /\
   forall kwargs' init_timestamp' later last model finish_reason token,
     Forall (continuing (lists st)) later ->
     parse_chunk (lists st) last = Ok (model, PStr token, finish_reason) ->
     truthy (lists st) finish_reason = true ->
     exhaust clk (Decorated kwargs' init_timestamp' (Upstream (later ++ [last])))
       (snd abandoned) =
     (Ok (later ++ [last]),
      mkWorld None
        (client st ++
         [mkEvent (PStr "openai stream") kwargs "Success"
                  [("finish_reason", finish_reason);
                   ("content",
                    PStr (String.append (concat_tokens (lists st) pulled)
                                        (concat_tokens (lists st) (later ++ [last]))))]
                  "llm" (first_model (lists st) pulled) prompt init_timestamp
                  (clk (S (ticks st)))])
        (S (S (ticks st)))
        ((stdout st ++ skipped_lines (lists st) kwargs pulled) ++
         skipped_lines (lists st) kwargs' later)
        (sys_modules st) (heap st) (lists st))).
Proof.
  intros pulled abandoned.
  unfold abandoned. rewrite iterate_Decorated. cbn [fst snd]. fold pulled.
  split; [reflexivity|].
  split; [apply handled_all_unfinished|].
  split.
  { intros g Hg Hplain Htokens Hquiet. unfold pulled in *. subst chunks.
    split; [apply yields_upstream|now apply iterate_quiet]. }
  intros Hes Hprompt Hall Hopened.
  rewrite (handled_all_stream_state clk kwargs init_timestamp prompt st pulled
             Hprompt Hes Hall).
  unfold stream_state. rewrite Hopened. split; [reflexivity|].
  intros kwargs' init_timestamp' later last model finish_reason token Hlater Hparse Htrue.
  rewrite exhaust_Decorated, handled_all_snoc.
  erewrite handled_all_open; [|reflexivity|reflexivity|exact Hlater].
  erewrite handled_parsed; [|exact Hparse|].
  2:{ erewrite accumulate_open; [|reflexivity|reflexivity].
      cbn [lists]. rewrite Htrue. reflexivity. }
  rewrite concat_tokens_snoc.
  assert (Htoken : chunk_token (lists st) last = token)
    by (unfold chunk_token; now rewrite Hparse).
  rewrite Htoken. cbn. now rewrite append_assoc.
Qed.

Lemma abandoned_stream_records_nothing_witness :
  let chunks := [chunk_He; chunk_llo_stop] in
  let st := sample_world in
  let abandoned := iterate counting_clock 1 (Decorated chat_kwargs 0 (Upstream chunks)) st in
  (arrive_unfinished counting_clock chat_kwargs 0 (take 1 chunks) st = true /\
   list_content st = false /\
   Forall (fun chunk => list_token (lists st) chunk = false) (take 1 chunks) /\
   Forall (fun chunk => terminal (lists st) chunk = false) (take 1 chunks) /\
   event_stream st = None /\
   dict_getitem chat_kwargs "messages" = Ok (PList 1) /\
   Forall (continuing (lists st)) (take 1 chunks) /\
   existsb (parsed (lists st)) (take 1 chunks) = true /\
   Forall (continuing (lists st)) [] /\
   parse_chunk (lists st) chunk_Bye_stop = Ok (PStr "m", PStr "Bye", PStr "stop") /\
   truthy (lists st) (PStr "stop") = true) /\
  fst abandoned = Ok ([chunk_He], Decorated chat_kwargs 0 (Upstream [chunk_llo_stop])) /\
  client (snd abandoned) = [] /\
  (let twice := Decorated chat_kwargs 1 (Decorated chat_kwargs 0 (Upstream chunks)) in
   yields counting_clock twice 1 st = Ok [chunk_He] /\
   client (snd (iterate counting_clock 1 twice st)) = []) /\
  event_stream (snd abandoned) =
    Some (open_event chat_kwargs 0 (PList 1) (PStr "m") "He" 0) /\
  exhaust counting_clock (Decorated goodbye_kwargs 7 (Upstream ([] ++ [chunk_Bye_stop])))
    (snd abandoned) =
  (Ok [chunk_Bye_stop],
   mkWorld None
     [mkEvent (PStr "openai stream") chat_kwargs "Success"
              [("finish_reason", PStr "stop"); ("content", PStr "HeBye")]
              "llm" (PStr "m") (PList 1) 0 1]
     2 [] ∅ ∅ sample_lists).
Proof.
  intros chunks st abandoned.
  assert (H0 : arrive_unfinished counting_clock chat_kwargs 0 (take 1 chunks) st = true)
    by reflexivity.
  assert (H1 : list_content st = false) by reflexivity.
  assert (H2 : Forall (fun chunk => list_token (lists st) chunk = false) (take 1 chunks))
    by (repeat constructor).
  assert (H3 : Forall (fun chunk => terminal (lists st) chunk = false) (take 1 chunks))
    by (repeat constructor).
  assert (H4 : event_stream st = None) by reflexivity.
  assert (H5 : dict_getitem chat_kwargs "messages" = Ok (PList 1)) by reflexivity.
  assert (H6 : Forall (continuing (lists st)) (take 1 chunks))
    by (repeat constructor; right; split; reflexivity).
  assert (H7 : existsb (parsed (lists st)) (take 1 chunks) = true) by reflexivity.
  assert (H8 : Forall (continuing (lists st)) []) by constructor.
  assert (H9 : parse_chunk (lists st) chunk_Bye_stop = Ok (PStr "m", PStr "Bye", PStr "stop"))
    by reflexivity.
  assert (H10 : truthy (lists st) (PStr "stop") = true) by reflexivity.
  split; [repeat split; assumption|].
  destruct (abandoned_stream_records_nothing counting_clock chat_kwargs 0 (PList 1) chunks 1
              st) as (Hyield & Hnone & Hquiet & Hlater).
  destruct (Hlater H4 H5 H6 H7) as (Hslot & Hemit).
  split; [exact Hyield|]. split; [exact (Hnone H0)|].
  split.
  { exact (Hquiet (Decorated chat_kwargs 1 (Decorated chat_kwargs 0 (Upstream chunks)))
             eq_refl H1 H2 H3). }
  split; [exact Hslot|].
  exact (Hemit goodbye_kwargs 7 [] chunk_Bye_stop (PStr "m") (PStr "stop") "Bye" H8 H9 H10).
Defined.

(** C8, as it was stated, fails where it says that the open event is never
    emitted. The caller abandons the stream of one call after its first
    chunk, "He"; the sink has received nothing. A stream of another call,
    with other keyword arguments and a later start, is then iterated to its
    end: the event the sink receives is the one the abandoned stream left
    open, with the parameters, the prompt and the start of the abandoned call,
    and the content "HeBye". *)
Lemma abandoned_stream_counterexample :
  let abandoned :=
    iterate counting_clock 1 (Decorated chat_kwargs 0 (Upstream [chunk_He; chunk_llo_stop]))
      sample_world in
  let later :=
    exhaust counting_clock (Decorated goodbye_kwargs 7 (Upstream [chunk_Bye_stop]))
      (snd abandoned) in
  map (has_finish_reason sample_lists) [chunk_He] = [false] /\
  fst abandoned = Ok ([chunk_He], Decorated chat_kwargs 0 (Upstream [chunk_llo_stop])) /\
  client (snd abandoned) = [] /\
  fst later = Ok [chunk_Bye_stop] /\
  client (snd later) =
    [mkEvent (PStr "openai stream") chat_kwargs "Success"
             [("finish_reason", PStr "stop"); ("content", PStr "HeBye")]
             "llm" (PStr "m") (PList 1) 0 1] /\
  dict_getitem goodbye_kwargs "messages" = Ok (PList 2).
Proof. vm_compute. repeat split. Qed.

(** C5. A chunk that fails to parse, or on which the [try:] of
    [handle_stream_chunk] raises for any other reason, is still yielded,
    unchanged, by the decorated generator; no exception reaches the caller;
    the event stream slot, the sink and everything else are as before the
    chunk, except for the line printed on standard output. *)
Theorem failing_chunk_is_skipped (clk : nat -> nat) (kwargs : pykwargs)
    (init_timestamp : nat) (chunk : pyval) (rest : list pyval) (st : world) :
  raised (parse_chunk (lists st) chunk) = true \/
  raised (fst (handle_stream_chunk_body clk kwargs init_timestamp chunk st)) = true ->
  let st' := printed (UnableToParseChunk kwargs) st in
  next clk (Decorated kwargs init_timestamp (Upstream (chunk :: rest))) st =
    (Ok (Some (chunk, Decorated kwargs init_timestamp (Upstream rest))), st') /\
  event_stream st' = event_stream st /\
  client st' = client st /\
  stdout st' = (stdout st ++ [UnableToParseChunk kwargs])%list.
Proof.
  intros H st'.
  assert (Hbody : raised (fst (handle_stream_chunk_body clk kwargs init_timestamp chunk st))
                  = true).
  { destruct H as [H|H]; [|exact H].
    destruct (parse_chunk (lists st) chunk) as [p|e] eqn:Hparse; [discriminate|].
    eapply parse_failure_raises, Hparse. }
  repeat split.
  rewrite next_Decorated_cons, handled_Raise by assumption. reflexivity.
Qed.

Lemma failing_chunk_is_skipped_witness :
  let st := handled counting_clock chat_kwargs 0 sample_world chunk_He in
  let chunk := chunk_no_choice in
  let rest := [chunk_llo_stop] in
  (raised (parse_chunk (lists st) chunk) = true \/
   raised (fst (handle_stream_chunk_body counting_clock chat_kwargs 0 chunk st)) = true) /\
  let st' := printed (UnableToParseChunk chat_kwargs) st in
  next counting_clock (Decorated chat_kwargs 0 (Upstream (chunk :: rest))) st =
    (Ok (Some (chunk, Decorated chat_kwargs 0 (Upstream rest))), st') /\
  event_stream st' = event_stream st /\
  client st' = client st /\
  stdout st' = (stdout st ++ [UnableToParseChunk chat_kwargs])%list.
Proof.
  intros st chunk rest.
  assert (H : raised (parse_chunk (lists st) chunk) = true \/
              raised (fst (handle_stream_chunk_body counting_clock chat_kwargs 0 chunk st))
              = true) by (left; reflexivity).
  split; [exact H|].
  exact (failing_chunk_is_skipped counting_clock chat_kwargs 0 chunk rest st H).
Defined.

(** C1, as amended. A stream iterated to its end, without a chunk of another
    stream handled in between, through the one decorated generator that a
    method wrapped once returns, for a call whose keyword arguments include
    [messages], starting with no stream open. Every chunk before the last
    either fails to parse or has a string token (an absent content counting as
    the empty string) and a finish reason that does not pass the test
    [if finish_reason:]; the last has a string token and a finish reason that
    passes it. Then every chunk is yielded, the sink receives exactly one
    event, whose content is the concatenation of the tokens in order and whose
    finish reason is that of the last chunk, and the slot is empty again. *)
Theorem complete_stream_records_one_event (clk : nat -> nat) (kwargs : pykwargs)
    (init_timestamp : nat) (prompt : pyval) (chunks : list pyval) (last : pyval)
    (finish_reason : pyval) (st : world) :
  event_stream st = None ->
  dict_getitem kwargs "messages" = Ok prompt ->
  Forall (continuing (lists st)) chunks ->
  text_chunk (lists st) last = true ->
  chunk_finish_reason (lists st) last = Ok finish_reason ->
  truthy (lists st) finish_reason = true ->
  exists ev st',
    exhaust clk (Decorated kwargs init_timestamp (Upstream (chunks ++ [last]))) st =
      (Ok (chunks ++ [last]), st') /\
    client st' = (client st ++ [ev])%list /\
    dict_getitem (returns ev) "content" =
      Ok (PStr (concat_tokens (lists st) (chunks ++ [last]))) /\
    dict_getitem (returns ev) "finish_reason" = Ok finish_reason /\
    event_stream st' = None.
Proof.
  intros Hes Hprompt Hall Htext Hfr Htrue.
  destruct (handled_all_stream clk kwargs init_timestamp prompt Hprompt st chunks last
              finish_reason Hes Hall Htext Hfr Htrue)
    as (ev & Hslot & Hclient & Hls & Hreturns).
  exists ev. eexists. rewrite exhaust_Decorated, Hreturns.
  split; [reflexivity|]. repeat split; assumption.
Qed.

Lemma complete_stream_records_one_event_witness :
  let chunks := [chunk_He] in
  let last := chunk_llo_stop in
  let st := sample_world in
  (event_stream st = None /\
   dict_getitem chat_kwargs "messages" = Ok (PList 1) /\
   Forall (continuing (lists st)) chunks /\
   text_chunk (lists st) last = true /\
   chunk_finish_reason (lists st) last = Ok (PStr "stop") /\
   truthy (lists st) (PStr "stop") = true) /\
  exists ev st',
    exhaust counting_clock (Decorated chat_kwargs 0 (Upstream (chunks ++ [last]))) st =
      (Ok (chunks ++ [last]), st') /\
    client st' = (client st ++ [ev])%list /\
    dict_getitem (returns ev) "content" =
      Ok (PStr (concat_tokens (lists st) (chunks ++ [last]))) /\
    dict_getitem (returns ev) "finish_reason" = Ok (PStr "stop") /\
    event_stream st' = None.
Proof.
  intros chunks last st.
  assert (H1 : event_stream st = None) by reflexivity.
  assert (H2 : dict_getitem chat_kwargs "messages" = Ok (PList 1)) by reflexivity.
  assert (H3 : Forall (continuing (lists st)) chunks)
    by (repeat constructor; right; split; reflexivity).
  assert (H4 : text_chunk (lists st) last = true) by reflexivity.
  assert (H5 : chunk_finish_reason (lists st) last = Ok (PStr "stop")) by reflexivity.
  assert (H6 : truthy (lists st) (PStr "stop") = true) by reflexivity.
  split; [repeat split; assumption|].
  exact (complete_stream_records_one_event counting_clock chat_kwargs 0
           (PList 1) chunks last (PStr "stop") st H1 H2 H3 H4 H5 H6).
Defined.

(** The scenario of the specification: the chunks "He" and "llo", the second
    with finish reason "stop", give one event with content "Hello". *)
Example hello_stream :
  let run :=
    exhaust counting_clock (Decorated chat_kwargs 0 (Upstream hello_chunks)) sample_world in
  map (parse_chunk sample_lists) hello_chunks =
    [Ok (PStr "m", PStr "He", PNone); Ok (PStr "m", PStr "llo", PStr "stop")] /\
  fst run = Ok hello_chunks /\
  event_stream (snd run) = None /\
  map returns (client (snd run)) =
    [[("finish_reason", PStr "stop"); ("content", PStr "Hello")]].
Proof. vm_compute. repeat split. Qed.

(** C1, as it was stated, fails in six ways.
    - After a stream that was abandoned with its event still open, the next
      stream, complete and well formed, records an event whose content starts
      with the tokens of the abandoned one.
    - A last chunk whose finish reason is the empty string, which is not
      [None], does not pass the test [if finish_reason:]: nothing is recorded.
    - When the keyword arguments of the call have no [messages], the event
      cannot be built on any chunk: nothing is recorded.
    - When the first delta has a content that is present and [None], the
      event is opened with that content and no later token can be added to
      it: every later chunk raises, the last one included, and nothing is
      recorded.
    - When a chunk of another stream is handled between two chunks of the
      stream, its token goes into the one slot: the stream "He", "llo",
      started with the slot empty and iterated to its end, records "HeByllo".
    - Through two layers of decoration, as a method wrapped twice returns
      them, the same stream records two events, "HeHello" and "llo". *)
Lemma complete_stream_counterexample :
  (let abandoned := [chunk_He; chunk_llo_stop] in
   let st := snd (iterate counting_clock 1
                    (Decorated chat_kwargs 0 (Upstream abandoned)) sample_world) in
   let chunks := [chunk_Bye_stop] in
   let run := exhaust counting_clock (Decorated chat_kwargs 7 (Upstream chunks)) st in
   client st = [] /\
   map (has_finish_reason sample_lists) chunks = [true] /\
   fst run = Ok chunks /\
   map returns (client (snd run)) =
     [[("finish_reason", PStr "stop"); ("content", PStr "HeBye")]] /\
   concat_tokens sample_lists chunks = "Bye") /\
  (let chunks := [chunk_He; chunk_llo_empty] in
   let run := exhaust counting_clock (Decorated chat_kwargs 0 (Upstream chunks)) sample_world in
   map (has_finish_reason sample_lists) chunks = [false; true] /\
   fst run = Ok chunks /\
   client (snd run) = []) /\
  (let chunks := [chunk_He; chunk_llo_stop] in
   let run := exhaust counting_clock (Decorated bare_kwargs 0 (Upstream chunks)) sample_world in
   map (has_finish_reason sample_lists) chunks = [false; true] /\
   fst run = Ok chunks /\
   client (snd run) = []) /\
  (let chunks := [chunk_null; chunk_Hi; chunk_absent_stop] in
   let run := exhaust counting_clock (Decorated chat_kwargs 0 (Upstream chunks)) sample_world in
   map (has_finish_reason sample_lists) chunks = [false; false; true] /\
   fst run = Ok chunks /\
   client (snd run) = []) /\
  (let chunks := [chunk_He; chunk_llo_stop] in
   let first := iterate counting_clock 1 (Decorated chat_kwargs 0 (Upstream chunks))
                  sample_world in
   let other := iterate counting_clock 1
                  (Decorated goodbye_kwargs 3 (Upstream [chunk_By; chunk_Bye_stop]))
                  (snd first) in
   let rest := exhaust counting_clock (Decorated chat_kwargs 0 (Upstream [chunk_llo_stop]))
                 (snd other) in
   event_stream sample_world = None /\
   map (has_finish_reason sample_lists) chunks = [false; true] /\
   fst first = Ok ([chunk_He], Decorated chat_kwargs 0 (Upstream [chunk_llo_stop])) /\
   fst other = Ok ([chunk_By], Decorated goodbye_kwargs 3 (Upstream [chunk_Bye_stop])) /\
   fst rest = Ok [chunk_llo_stop] /\
   map returns (client (snd rest)) =
     [[("finish_reason", PStr "stop"); ("content", PStr "HeByllo")]] /\
   concat_tokens sample_lists chunks = "Hello") /\
  (let chunks := [chunk_He; chunk_llo_stop] in
   let run := exhaust counting_clock
                (Decorated chat_kwargs 0 (Decorated chat_kwargs 1 (Upstream chunks)))
                sample_world in
   fst run = Ok chunks /\
   map returns (client (snd run)) =
     [[("finish_reason", PStr "stop"); ("content", PStr "HeHello")];
      [("finish_reason", PStr "stop"); ("content", PStr "llo")]]).
Proof. vm_compute. repeat split. Qed.

(** ** Atomic responses *)

Section Atomic.

Variable clk : nat -> nat.
Variable native : string -> list pyval -> pykwargs -> Exc returned.

(** The object-attribute dialect, when every field is there. *)
Lemma record_response_openai_Ok r kwargs init_timestamp st
    object choices choice message model prompt :
  getattr r "object" = Ok object ->
  getattr r "choices" = Ok choices ->
  getindex0 (lists st) choices = Ok choice ->
  getattr choice "message" = Ok message ->
  getattr r "model" = Ok model ->
  dict_getitem kwargs "messages" = Ok prompt ->
  _handle_response_openai clk (RVal r) kwargs init_timestamp st =
  (Ok (RVal r),
   mkWorld (event_stream st)
     (client st ++ [mkEvent object kwargs "Success" [("content", message)] "llm"
                            model prompt init_timestamp (clk (ticks st))])
     (S (ticks st)) (stdout st) (sys_modules st) (heap st) (lists st)).
Proof.
  intros Hobject Hchoices Hchoice Hmessage Hmodel Hprompt.
  unfold _handle_response_openai, record_response_openai, try_except, bind, lift, index0.
  rewrite Hobject, Hchoices, Hchoice, Hmessage, Hmodel, Hprompt. reflexivity.
Qed.

(** The wrappers and the patches, as equations on the state. *)
Lemma call_VSync api original_method args kwargs st :
  call clk native (VSync api original_method) args kwargs st =
  match call clk native original_method args kwargs (tick st) with
  | (Ok response, st1) => handle_response clk api response kwargs (clk (ticks st)) st1
  | (Raise e, st1) => (Raise e, st1)
  end.
Proof. reflexivity. Qed.

Lemma call_VAsync api original_method args kwargs st :
  call clk native (VAsync api original_method) args kwargs st =
  (Ok (RCoro (async_method_body clk native api original_method args kwargs)), st).
Proof. reflexivity. Qed.

Lemma async_method_body_eq api original_method args kwargs st :
  async_method_body clk native api original_method args kwargs st =
  match (coroutine <- call clk native original_method args kwargs; await coroutine)
          (tick st) with
  | (Ok response, st1) => handle_response clk api response kwargs (clk (ticks st)) st1
  | (Raise e, st1) => (Raise e, st1)
  end.
Proof.
  unfold async_method_body, bind. cbn [get_ISO_time]. fold (tick st).
  destruct (call clk native original_method args kwargs (tick st)) as [[c|e] st1];
    [|reflexivity].
  destruct (await c st1) as [[r|e] st2]; reflexivity.
Qed.

Lemma call_VPatched original_create args kwargs st :
  call clk native (VPatched original_create) args kwargs st =
  match call clk native original_create args kwargs
          (printed (PrintKwargs kwargs)
             (printed (PrintArgs args) (printed (PrintStr "patched function") st))) with
  | (Ok result, st1) =>
      match _handle_response_openai clk result kwargs (clk (ticks st1)) (tick st1) with
      | (Ok _, st2) => (Ok result, st2)
      | (Raise e, st2) => (Raise e, st2)
      end
  | (Raise e, st1) => (Raise e, st1)
  end.
Proof.
  cbn [call]. unfold bind, print. fold (printed (PrintStr "patched function") st).
  fold (printed (PrintArgs args) (printed (PrintStr "patched function") st)).
  fold (printed (PrintKwargs kwargs)
          (printed (PrintArgs args) (printed (PrintStr "patched function") st))).
  destruct (call clk native original_create args kwargs _) as [[result|e] st1];
    reflexivity.
Qed.

Lemma call_VPatchedAsync original_create args kwargs st :
  call clk native (VPatchedAsync original_create) args kwargs st =
  match call clk native original_create args kwargs
          (printed (PrintStr "patched async function") st) with
  | (Ok result, st1) =>
      match _handle_response_openai clk result kwargs (clk (ticks st1)) (tick st1) with
      | (Ok _, st2) => (Ok result, st2)
      | (Raise e, st2) => (Raise e, st2)
      end
  | (Raise e, st1) => (Raise e, st1)
  end.
Proof.
  cbn [call]. unfold bind, print. fold (printed (PrintStr "patched async function") st).
  destruct (call clk native original_create args kwargs _) as [[result|e] st1];
    reflexivity.
Qed.


Hypothesis clk_monotone : forall i j, i <= j -> clk i <= clk j.


End Atomic.



(** ** Transparency *)

Section Transparency.

Variable clk : nat -> nat.
Variable native : string -> list pyval -> pykwargs -> Exc returned.

(** The generator that a normalizer layers over [g] is a pass-through. *)
Lemma pass_through_Decorated kwargs init_timestamp g :
  pass_through clk g (Decorated kwargs init_timestamp g).
Proof.
  repeat split.
  - intros n st. now rewrite !yields_upstream.
  - intros st. now rewrite !exhaust_upstream.
  - intros n st. apply iterate_lists.
Qed.

Lemma pass_through_refl g : pass_through clk g g.
Proof. repeat split. intros n st. apply iterate_lists. Qed.

Lemma same_result_refl r : same_result clk r r.
Proof. destruct r; cbn; eauto using pass_through_refl. Qed.

(** The normalizer returns its argument, or a pass-through of it, and changes
    no list. *)
Lemma _handle_response_openai_same r kwargs init_timestamp st :
  exists r' st',
    _handle_response_openai clk r kwargs init_timestamp st = (Ok r', st') /\
    same_result clk r r' /\
    lists st' = lists st.
Proof.
  destruct r as [v|g|g|body]; cbn [_handle_response_openai same_result].
  - unfold bind, try_except.
    destruct (record_response_openai clk (RVal v) kwargs init_timestamp st)
      as [[[]|e] st1] eqn:Hrecord; cbn.
    + do 2 eexists. split; [reflexivity|]. split; [reflexivity|].
      revert Hrecord. unfold record_response_openai, bind, lift, index0.
      destruct (getattr v "object"); [|discriminate].
      destruct (getattr v "choices") as [choices|]; [|discriminate].
      destruct (getindex0 (lists st) choices) as [choice|]; [|discriminate].
      destruct (getattr choice "message"); [|discriminate].
      destruct (getattr v "model"); [|discriminate].
      destruct (dict_getitem kwargs "messages"); [|discriminate].
      cbn. intros [= <-]. reflexivity.
    + do 2 eexists. split; [reflexivity|]. split; [reflexivity|].
      revert Hrecord. unfold record_response_openai, bind, lift, index0.
      destruct (getattr v "object"); [|now intros [= _ <-]].
      destruct (getattr v "choices") as [choices|]; [|now intros [= _ <-]].
      destruct (getindex0 (lists st) choices) as [choice|]; [|now intros [= _ <-]].
      destruct (getattr choice "message"); [|now intros [= _ <-]].
      destruct (getattr v "model"); [|now intros [= _ <-]].
      destruct (dict_getitem kwargs "messages"); [|now intros [= _ <-]].
      cbn. discriminate.
  - do 2 eexists. split; [reflexivity|]. split; [|reflexivity].
    eauto using pass_through_Decorated.
  - do 2 eexists. split; [reflexivity|]. split; [|reflexivity].
    eauto using pass_through_Decorated.
  - unfold bind, try_except. cbn. eauto.
Qed.

Lemma handle_response_same api r kwargs init_timestamp st :
  exists r' st',
    handle_response clk api r kwargs init_timestamp st = (Ok r', st') /\
    same_result clk r r' /\
    lists st' = lists st.
Proof.
  unfold handle_response. destruct (String.eqb api "openai").
  - apply _handle_response_openai_same.
  - exists r, st. split; [reflexivity|]. split; [apply same_result_refl|reflexivity].
Qed.

(** C3, as amended. A call through a wrapper built by [wrap_method] gives the
    caller what the original method gives: the same exception if it raises;
    otherwise the very value it returned, or, for a generator, a pass-through
    generator that yields the same chunks, the very objects, in the same
    order and ends at the same length. The wrapper itself changes no list,
    and iterating the pass-through changes none either, so that the chunks
    are also as the provider made them, as long as no content is a list:
    neither the content in the slot nor the token of a chunk to come. For
    the asynchronous wrapper this is stated of what awaiting the coroutine
    gives, in whatever state it is awaited. The original is called in the
    state reached after the wrapper read the clock. *)
Theorem wrapped_call_is_transparent (api : string) (original_method : val)
    (args : list pyval) (kwargs : pykwargs) (st : world) :
  match call clk native original_method args kwargs (tick st) with
  | (Ok r, st1) =>
      exists r' st',
        call clk native (VSync api original_method) args kwargs st = (Ok r', st') /\
        same_result clk r r' /\
        lists st' = lists st1
  | (Raise e, st1) =>
      call clk native (VSync api original_method) args kwargs st = (Raise e, st1)
  end /\
  exists body,
    call clk native (VAsync api original_method) args kwargs st = (Ok (RCoro body), st) /\
    forall s,
      match (coroutine <- call clk native original_method args kwargs; await coroutine)
              (tick s) with
      | (Ok r, s1) =>
          exists r' s', body s = (Ok r', s') /\ same_result clk r r' /\ lists s' = lists s1
      | (Raise e, s1) => body s = (Raise e, s1)
      end.
Proof.
  split.
  - rewrite call_VSync.
    destruct (call clk native original_method args kwargs (tick st)) as [[r|e] st1];
      [|reflexivity].
    apply handle_response_same.
  - exists (async_method_body clk native api original_method args kwargs).
    split; [apply call_VAsync|]. intros s.
    rewrite async_method_body_eq.
    destruct ((coroutine <- call clk native original_method args kwargs; await coroutine)
                (tick s)) as [[r|e] s1]; [|reflexivity].
    apply handle_response_same.
Qed.

(** ** The patches of the constructor *)

(** After the original returned [result] in state [st1], a patched function
    returns [result] itself; when it is a generator, all that happened since
    is one reading of the clock. *)
Lemma patched_tail result kwargs st1 :
  exists st2,
    match _handle_response_openai clk result kwargs (clk (ticks st1)) (tick st1) with
    | (Ok _, st2) => (Ok result, st2)
    | (Raise e, st2) => (Raise e, st2)
    end = (Ok result, st2) /\
    match result with
    | RGen _ | RAsyncGen _ => st2 = tick st1
    | _ => True
    end.
Proof.
  destruct (_handle_response_openai_same result kwargs (clk (ticks st1)) (tick st1))
    as (r' & st2 & H & _).
  exists st2. rewrite H. split; [reflexivity|].
  destruct result; try exact I; cbn in H; now inversion H.
Qed.

(** Iterating a sequence of the provider changes nothing. *)
Lemma iterate_Upstream n : forall chunks st,
  iterate clk n (Upstream chunks) st = (Ok (take n chunks, Upstream (drop n chunks)), st).
Proof.
  induction n as [|n IH]; intros chunks st; [reflexivity|].
  destruct chunks as [|chunk chunks]; [reflexivity|].
  cbn [iterate next]. unfold bind at 1. cbn [ret].
  unfold bind. rewrite IH. reflexivity.
Qed.

(** C9. A call through either patch of the constructor gives the caller the
    very value the original returned (or its exception): what the normalizer
    returns is dropped. When that value is a generator, nothing happened
    between the return of the original and the return of the patch but one
    reading of the clock, so the slot and the sink are as the original left
    them; and iterating a sequence of the provider, undecorated as the caller
    holds it, changes no state: no chunk reaches the accumulator and no event
    is recorded. *)
Theorem patched_call_returns_raw_result (original_create : val)
    (args : list pyval) (kwargs : pykwargs) (st : world) :
  match call clk native original_create args kwargs
          (printed (PrintKwargs kwargs)
             (printed (PrintArgs args) (printed (PrintStr "patched function") st))) with
  | (Ok result, st1) =>
      exists st2,
        call clk native (VPatched original_create) args kwargs st = (Ok result, st2) /\
        match result with
        | RGen _ | RAsyncGen _ => st2 = tick st1
        | _ => True
        end
  | (Raise e, st1) =>
      call clk native (VPatched original_create) args kwargs st = (Raise e, st1)
  end /\
  match call clk native original_create args kwargs
          (printed (PrintStr "patched async function") st) with
  | (Ok result, st1) =>
      exists st2,
        call clk native (VPatchedAsync original_create) args kwargs st = (Ok result, st2) /\
        match result with
        | RGen _ | RAsyncGen _ => st2 = tick st1
        | _ => True
        end
  | (Raise e, st1) =>
      call clk native (VPatchedAsync original_create) args kwargs st = (Raise e, st1)
  end /\
  forall chunks n s,
    iterate clk n (Upstream chunks) s = (Ok (take n chunks, Upstream (drop n chunks)), s).
Proof.
  split; [|split].
  - rewrite call_VPatched.
    destruct (call clk native original_create args kwargs _) as [[result|e] st1];
      [|reflexivity].
    apply patched_tail.
  - rewrite call_VPatchedAsync.
    destruct (call clk native original_create args kwargs _) as [[result|e] st1];
      [|reflexivity].
    apply patched_tail.
  - intros chunks n s. apply iterate_Upstream.
Qed.

End Transparency.

(** C3, as it was stated, fails for a stream whose contents are lists. The
    provider streams two chunks, with contents [["a"]] and [["b"]]. The caller
    gets the same two chunks with or without the wrapper; but the list that
    is the content of the first chunk has been taken as the content of the
    event and extended in place by the second token: after the wrapped stream
    the first chunk, which the caller holds, has the content [["a"; "b"]]. *)
Lemma wrapped_stream_counterexample :
  let create := VNative "chat.completions.create" false in
  let through f :=
    (r <- call counting_clock list_provider f [] chat_kwargs;
     match r with
     | RGen g => exhaust counting_clock g
     | _ => ret []
     end) sample_world in
  map (parse_chunk sample_lists) [chunk_a; chunk_b_stop] =
    [Ok (PStr "m", PList 31, PNone); Ok (PStr "m", PList 32, PStr "stop")] /\
  items sample_lists 31 = [PStr "a"] /\
  fst (through create) = Ok [chunk_a; chunk_b_stop] /\
  items (lists (snd (through create))) 31 = [PStr "a"] /\
  fst (through (VSync "openai" create)) = Ok [chunk_a; chunk_b_stop] /\
  items (lists (snd (through (VSync "openai" create)))) 31 = [PStr "a"; PStr "b"] /\
  map returns (client (snd (through (VSync "openai" create)))) =
    [[("finish_reason", PStr "stop"); ("content", PList 31)]].
Proof. vm_compute. repeat split. Qed.

(** ** Installation *)

(** Attribute lookups read the module graph and change nothing; the only
    exception they raise is [AttributeError]. *)
Lemma obj_getattr_pure o name st :
  snd (obj_getattr o name st) = st /\
  (forall e, fst (obj_getattr o name st) = Raise e -> e = AttributeError).
Proof.
  unfold obj_getattr. destruct o as [l| | | | | |]; cbn; try (split; congruence).
  destruct (heap st !! l) as [attrs|]; cbn; [|split; congruence].
  destruct (attrs !! name); cbn; split; congruence.
Qed.

Lemma reduce_getattr_pure parts : forall o st,
  snd (reduce_getattr parts o st) = st /\
  (forall e, fst (reduce_getattr parts o st) = Raise e -> e = AttributeError).
Proof.
  induction parts as [|part parts IH]; intros o st.
  - cbn. split; [reflexivity|discriminate].
  - cbn [reduce_getattr]. unfold bind.
    destruct (obj_getattr_pure o part st) as [Hst He].
    destruct (obj_getattr o part st) as [[o'|e] st1]; cbn in Hst, He; subst st1.
    + apply IH.
    + cbn. split; [reflexivity|]. intros e' H. apply He. congruence.
Qed.

Lemma reduce_getattr_Raise parts o st :
  raised (fst (reduce_getattr parts o st)) = true ->
  reduce_getattr parts o st = (Raise AttributeError, st).
Proof.
  intros H. destruct (reduce_getattr_pure parts o st) as [Hst He].
  destruct (reduce_getattr parts o st) as [[v|e] st1]; [discriminate|].
  cbn in Hst, He. subst st1. now rewrite (He e eq_refl).
Qed.

(** C7. When the dotted path does not resolve by attribute lookup from the
    module, [_override_method] raises [AttributeError] (the specification's
    AttributeResolutionError) and leaves the whole state, the module graph
    included, as it was: no wrapper is installed. *)
Theorem unresolved_path_installs_nothing (api method_path : string) (module : val)
    (st : world) :
  raised (fst (reduce_getattr (split_dot method_path) module st)) = true ->
  _override_method api method_path module st = (Raise AttributeError, st).
Proof.
  intros H. unfold _override_method, bind.
  now rewrite (reduce_getattr_Raise _ _ _ H).
Qed.

Lemma unresolved_path_installs_nothing_witness :
  let st := openai_world (Some "1.2.0") in
  raised (fst (reduce_getattr (split_dot "chat.completions.acreate") (VRef 1) st)) = true /\
  _override_method "openai" "chat.completions.acreate" (VRef 1) st =
    (Raise AttributeError, st).
Proof.
  intros st.
  assert (H : raised (fst (reduce_getattr (split_dot "chat.completions.acreate")
                             (VRef 1) st)) = true) by (vm_compute; reflexivity).
  split; [exact H|].
  exact (unresolved_path_installs_nothing "openai" "chat.completions.acreate" (VRef 1) st H).
Defined.

(** When the path resolves, the wrapper of the method it leads to replaces it
    in the object that owns it, in place. *)
Lemma _override_method_installs api method_path module st original_method l attrs :
  reduce_getattr (split_dot method_path) module st = (Ok original_method, st) ->
  reduce_getattr (removelast (split_dot method_path)) module st = (Ok (VRef l), st) ->
  heap st !! l = Some attrs ->
  _override_method api method_path module st =
  (Ok tt,
   mkWorld (event_stream st) (client st) (ticks st) (stdout st) (sys_modules st)
     (<[l := <[List.last (split_dot method_path) EmptyString :=
                 wrap_method api original_method]> attrs]> (heap st))
     (lists st)).
Proof.
  intros Hmethod Hparent Hattrs. unfold _override_method.
  rewrite (bind_Ok _ _ _ _ _ Hmethod).
  destruct (split_dot method_path) as [|part [|part' parts]] eqn:Hparts.
  - cbn in Hparent. injection Hparent as ->.
    cbn. unfold obj_setattr, set_heap. now rewrite Hattrs.
  - cbn in Hparent. injection Hparent as ->.
    cbn. unfold obj_setattr, set_heap. now rewrite Hattrs.
  - cbn [length Nat.eqb]. rewrite (bind_Ok _ _ _ _ _ Hparent).
    unfold obj_setattr, set_heap. now rewrite Hattrs.
Qed.

Lemma wrap_method_cases api original_method :
  wrap_method api original_method =
  if iscoroutinefunction original_method then VAsync api original_method
  else VSync api original_method.
Proof. reflexivity. Qed.

(** ** The order of the sample versions *)

Module VersionFacts.
Import Versions.

Lemma tuple_le_total a : forall b, tuple_le a b = true \/ tuple_le b a = true.
Proof.
  induction a as [|x a IH]; intros [|y b]; cbn [tuple_le]; auto.
  destruct (Nat.ltb_spec x y), (Nat.ltb_spec y x); auto; try lia.
  assert (x = y) by lia. subst y. rewrite Nat.eqb_refl. apply IH.
Qed.

Lemma tuple_le_trans a : forall b c,
  tuple_le a b = true -> tuple_le b c = true -> tuple_le a c = true.
Proof.
  induction a as [|x a IH]; intros [|y b] [|z c]; cbn [tuple_le]; auto; try discriminate.
  destruct (Nat.ltb_spec x y), (Nat.ltb_spec y z), (Nat.ltb_spec x z);
    auto; try lia.
  - destruct (Nat.eqb_spec y z); [lia|discriminate].
  - destruct (Nat.eqb_spec x y); [lia|discriminate].
  - destruct (Nat.eqb_spec x y); [|discriminate].
    destruct (Nat.eqb_spec y z); [|discriminate].
    subst. rewrite Nat.eqb_refl. apply IH.
Qed.

Lemma le_total a b : le a b = true \/ le b a = true.
Proof. apply tuple_le_total. Qed.

Lemma le_trans a b c : le a b = true -> le b c = true -> le a c = true.
Proof. apply tuple_le_trans. Qed.

End VersionFacts.

(** ** The registry and the version resolver *)

Section Registry.

Variable Version : Type.
Variable parse : string -> Exc Version.
Variable version_le : Version -> Version -> bool.

(** [override_api] on a module that is not loaded, and on a loaded module that
    is not in the registry. *)
Lemma override_api_not_loaded apis api st :
  sys_modules st !! api = None -> override_api parse version_le apis api st = (Ok tt, st).
Proof. intros H. unfold override_api. now rewrite H. Qed.

Lemma override_api_unsupported apis api st l :
  sys_modules st !! api = Some l ->
  assoc api apis = None ->
  override_api parse version_le apis api st = (Raise ValueError, st).
Proof. intros H1 H2. unfold override_api. now rewrite H1, H2. Qed.

(** C6, as amended. For a provider name that has no registry entry and whose
    module is loaded, [override_api] raises [ValueError] (the specification's
    UnsupportedProviderError) at once, and changes nothing. *)
Theorem unsupported_loaded_provider_raises (apis : list (string * list (string * list string)))
    (api : string) (st : world) (l : nat) :
  sys_modules st !! api = Some l ->
  assoc api apis = None ->
  override_api parse version_le apis api st = (Raise ValueError, st).
Proof. apply override_api_unsupported. Qed.

(** C10. For a provider name without a registry entry, [override_api] raises
    exactly when a module of that name is loaded. For a name that is not
    loaded, in the registry or not, it returns normally and the state, with
    the module graph, is unchanged. *)
Theorem override_api_raises_iff_loaded (apis : list (string * list (string * list string)))
    (st : world) :
  (forall api, assoc api apis = None ->
     (raised (fst (override_api parse version_le apis api st)) = true <->
      is_Some (sys_modules st !! api))) /\
  (forall api, sys_modules st !! api = None ->
     override_api parse version_le apis api st = (Ok tt, st)).
Proof.
  split.
  - intros api Hunsupported. destruct (sys_modules st !! api) as [l|] eqn:Hloaded.
    + rewrite (override_api_unsupported apis api st l Hloaded Hunsupported).
      cbn. split; eauto.
    + rewrite (override_api_not_loaded apis api st Hloaded).
      cbn. split; [discriminate|]. intros [x Hx]. discriminate.
  - intros api. apply override_api_not_loaded.
Qed.

(** *** Sorting the registered versions *)

Lemma insert_desc_perm x l : Permutation (insert_desc version_le x l) (x :: l).
Proof.
  induction l as [|y l IH]; cbn; [reflexivity|].
  destruct (version_le (snd y) (snd x)); [reflexivity|].
  rewrite IH. apply perm_swap.
Qed.

Lemma sort_desc_perm l : Permutation (sort_desc version_le l) l.
Proof.
  induction l as [|x l IH]; cbn; [reflexivity|].
  fold (sort_desc version_le l). rewrite insert_desc_perm. now constructor.
Qed.

(** [keyed] pairs every key, in order, with the version it parses to. *)
Lemma keyed_spec keys : forall l,
  keyed parse keys = Ok l ->
  map fst l = keys /\ Forall (fun kv => parse (fst kv) = Ok (snd kv)) l.
Proof.
  induction keys as [|k keys IH]; intros l; cbn.
  - intros [= <-]. split; constructor.
  - destruct (parse k) as [v|] eqn:Hk; [|discriminate].
    destruct (keyed parse keys) as [l'|]; [|discriminate].
    intros [= <-]. destruct (IH l' eq_refl) as [Hkeys Hall].
    cbn. split; [now f_equal|]. constructor; assumption.
Qed.

(** The first element of a list that passes a test, and what comes before. *)
Lemma find_first {A} (f : A -> bool) l x :
  List.find f l = Some x ->
  exists l1 l2, l = l1 ++ x :: l2 /\ f x = true /\ Forall (fun y => f y = false) l1.
Proof.
  induction l as [|y l IH]; cbn; [discriminate|].
  destruct (f y) eqn:Hy.
  - intros [= ->]. exists [], l. repeat split; [assumption|constructor].
  - intros H. destruct (IH H) as (l1 & l2 & -> & Hx & Hall).
    exists (y :: l1), l2. repeat split; [assumption|]. now constructor.
Qed.

Lemma descending_app_r l1 l2 :
  descending version_le (l1 ++ l2) -> descending version_le l2.
Proof.
  unfold descending. induction l1 as [|y l1 IH]; cbn; [auto|].
  intros H. apply StronglySorted_inv in H as [H _]. auto.
Qed.

Lemma assoc_In {A} k (d : list (string * A)) :
  In k (map fst d) -> exists v, assoc k d = Some v.
Proof.
  induction d as [|[k' v'] d IH]; cbn; [tauto|].
  intros [->|H].
  - rewrite String.eqb_refl. eauto.
  - destruct (String.eqb k k'); eauto.
Qed.

(** The loop stops at the first version of the list that is not above the
    version of the module. *)
Lemma override_first_version_find api versions module_version module ks : forall s,
  Forall (fun kv => parse (fst kv) = Ok (snd kv)) ks ->
  override_first_version parse version_le api versions module_version module (map fst ks) s =
  match List.find (fun kv => version_le (snd kv) module_version) ks with
  | Some kv =>
      (paths <- lift (dict_getitem versions (fst kv));
       override_methods api paths module) s
  | None => (Ok tt, s)
  end.
Proof.
  induction ks as [|[k v] ks IH]; intros s Hall; [reflexivity|].
  inversion Hall as [|? ? Hk Hks]; subst. cbn in Hk.
  cbn [map fst override_first_version List.find snd].
  rewrite bind_lift, Hk. destruct (version_le v module_version); [reflexivity|].
  now apply IH.
Qed.

Section Resolver.

Variable apis : list (string * list (string * list string)).
Variable api : string.
Variable versions : list (string * list string).
Variable l : nat.
Variable st : world.
Hypothesis loaded : sys_modules st !! api = Some l.
Hypothesis registered : assoc api apis = Some versions.

Lemma override_api_versioned s module_version ks :
  fst (obj_getattr (VRef l) "__version__" st) = Ok (VData (PStr s)) ->
  parse s = Ok module_version ->
  keyed parse (map fst versions) = Ok ks ->
  override_api parse version_le apis api st =
  override_first_version parse version_le api versions module_version (VRef l)
    (map fst (sort_desc version_le ks)) st.
Proof.
  intros Hattr Hparse Hkeyed. unfold override_api. rewrite loaded, registered.
  destruct (obj_getattr (VRef l) "__version__" st) as [[v|e] st1]; cbn in Hattr;
    [|discriminate].
  injection Hattr as ->.
  unfold sorted_reverse. rewrite !bind_lift. cbn [parse_version_attribute].
  rewrite Hparse, Hkeyed. reflexivity.
Qed.

Lemma override_api_unversioned paths :
  raised (fst (obj_getattr (VRef l) "__version__" st)) = true ->
  assoc "0.0.0" versions = Some paths ->
  override_api parse version_le apis api st = override_methods api paths (VRef l) st.
Proof.
  intros Hattr Hpaths. unfold override_api. rewrite loaded, registered.
  destruct (obj_getattr (VRef l) "__version__" st) as [[v|e] st1]; cbn in Hattr;
    [discriminate|].
  rewrite bind_lift. unfold dict_getitem. now rewrite Hpaths.
Qed.

(** A version string that the parser refuses, in the module or in the
    registry, makes [override_api] raise what the parser raises, before
    anything is installed. *)
Lemma override_api_unparsed s :
  fst (obj_getattr (VRef l) "__version__" st) = Ok (VData (PStr s)) ->
  (forall e, parse s = Raise e ->
             override_api parse version_le apis api st = (Raise e, st)) /\
  (forall module_version e,
      parse s = Ok module_version ->
      keyed parse (map fst versions) = Raise e ->
      override_api parse version_le apis api st = (Raise e, st)).
Proof.
  intros Hattr.
  assert (H : override_api parse version_le apis api st =
              (module_version <- lift (parse s);
               sorted <- lift (sorted_reverse parse version_le (map fst versions));
               override_first_version parse version_le api versions module_version
                 (VRef l) sorted) st).
  { unfold override_api. rewrite loaded, registered.
    destruct (obj_getattr (VRef l) "__version__" st) as [[v|e] st1]; cbn in Hattr;
      [|discriminate].
    injection Hattr as ->. reflexivity. }
  rewrite H. split.
  - intros e He. now rewrite bind_lift, He.
  - intros module_version e Hparse Hkeyed.
    rewrite bind_lift, Hparse, bind_lift. unfold sorted_reverse. now rewrite Hkeyed.
Qed.

Hypothesis version_le_total : forall a b, version_le a b = true \/ version_le b a = true.
Hypothesis version_le_trans :
  forall a b c, version_le a b = true -> version_le b c = true -> version_le a c = true.

Lemma insert_desc_descending x ks :
  descending version_le ks -> descending version_le (insert_desc version_le x ks).
Proof.
  unfold descending. induction ks as [|y ks IH]; intros Hl; cbn.
  - repeat constructor.
  - apply StronglySorted_inv in Hl as [Hl Hy].
    destruct (version_le (snd y) (snd x)) eqn:Hyx.
    + constructor; [constructor; assumption|].
      constructor; [assumption|].
      eapply Forall_impl; [exact Hy|]. cbn. intros z Hzy.
      eapply version_le_trans; eassumption.
    + constructor; [auto|].
      rewrite insert_desc_perm. constructor; [|assumption].
      destruct (version_le_total (snd x) (snd y)); congruence.
Qed.

Lemma sort_desc_descending ks : descending version_le (sort_desc version_le ks).
Proof.
  induction ks as [|x ks IH]; cbn; [constructor|].
  now apply insert_desc_descending.
Qed.

(** In a descending list, the first version not above [v] is the greatest of
    those not above [v]. *)
Lemma find_descending_greatest ks v x :
  descending version_le ks ->
  List.find (fun kv => version_le (snd kv) v) ks = Some x ->
  forall y, In y ks -> version_le (snd y) v = true -> version_le (snd y) (snd x) = true.
Proof.
  intros Hl Hfind y Hy Hyv.
  destruct (find_first _ _ _ Hfind) as (l1 & l2 & -> & Hx & Hall).
  apply in_app_or in Hy as [Hy|[->|Hy]].
  - rewrite List.Forall_forall in Hall. apply Hall in Hy. congruence.
  - destruct (version_le_total (snd y) (snd y)); assumption.
  - apply descending_app_r in Hl. unfold descending in Hl.
    apply StronglySorted_inv in Hl as [_ Hl].
    rewrite List.Forall_forall in Hl. now apply Hl.
Qed.

(** C4. For a loaded provider with a registry entry, the parser and the order
    of versions being those of the library, whatever they are, with the order
    total and transitive.
    - When the module has a version string, which parses, and every registered
      version parses: the registered versions are gone through in descending
      order (a sorted permutation of them), and the paths installed are those
      of the first one that is not above the version of the module, which is
      the greatest such registered version; when there is none, nothing is
      installed. This covers every version the parser accepts, a pre-release
      as well as a release.
    - When the version string of the module, or a registered version, does
      not parse, the exception of the parser is raised and nothing is
      installed.
    - When the module has no [__version__], the paths installed are those
      registered for "0.0.0".
    - With the registered versions "0.0.0" for [A] and "1.0.0" for [B], and
      these and the versions "0.5.0" and "1.2.0" ordered as versions are: a
      module of version "1.2.0" gets [B], one of version "0.5.0" gets [A],
      one without a version gets [A]. *)
Theorem version_resolution :
  (forall s module_version ks,
      fst (obj_getattr (VRef l) "__version__" st) = Ok (VData (PStr s)) ->
      parse s = Ok module_version ->
      keyed parse (map fst versions) = Ok ks ->
      let sorted := sort_desc version_le ks in
      Permutation sorted ks /\
      descending version_le sorted /\
      match List.find (fun kv => version_le (snd kv) module_version) sorted with
      | Some (version, v) =>
          (exists paths,
              assoc version versions = Some paths /\
              override_api parse version_le apis api st =
                override_methods api paths (VRef l) st) /\
          (forall kv, In kv ks -> version_le (snd kv) module_version = true ->
                      version_le (snd kv) v = true)
      | None =>
          override_api parse version_le apis api st = (Ok tt, st) /\
          (forall kv, In kv ks -> version_le (snd kv) module_version = false)
      end) /\
  (forall s,
      fst (obj_getattr (VRef l) "__version__" st) = Ok (VData (PStr s)) ->
      (forall e, parse s = Raise e ->
                 override_api parse version_le apis api st = (Raise e, st)) /\
      (forall module_version e,
          parse s = Ok module_version ->
          keyed parse (map fst versions) = Raise e ->
          override_api parse version_le apis api st = (Raise e, st))) /\
  (forall paths,
      raised (fst (obj_getattr (VRef l) "__version__" st)) = true ->
      assoc "0.0.0" versions = Some paths ->
      override_api parse version_le apis api st = override_methods api paths (VRef l) st) /\
  (forall A B v0 v1 v05 v12,
      versions = [("0.0.0", A); ("1.0.0", B)] ->
      parse "0.0.0" = Ok v0 ->
      parse "1.0.0" = Ok v1 ->
      parse "0.5.0" = Ok v05 ->
      parse "1.2.0" = Ok v12 ->
      version_le v0 v05 = true ->
      version_le v1 v05 = false ->
      version_le v1 v12 = true ->
      (fst (obj_getattr (VRef l) "__version__" st) = Ok (VData (PStr "1.2.0")) ->
       override_api parse version_le apis api st = override_methods api B (VRef l) st) /\
      (fst (obj_getattr (VRef l) "__version__" st) = Ok (VData (PStr "0.5.0")) ->
       override_api parse version_le apis api st = override_methods api A (VRef l) st) /\
      (raised (fst (obj_getattr (VRef l) "__version__" st)) = true ->
       override_api parse version_le apis api st = override_methods api A (VRef l) st)).
Proof.
  split; [|split; [|split]].
  - intros s module_version ks Hattr Hparse Hkeyed sorted.
    pose proof (sort_desc_perm ks) as Hperm.
    pose proof (sort_desc_descending ks) as Hdesc.
    destruct (keyed_spec _ _ Hkeyed) as [Hkeys Hall].
    assert (Hsorted : Forall (fun kv => parse (fst kv) = Ok (snd kv)) sorted)
      by (eapply Permutation_Forall; [symmetry; exact Hperm|exact Hall]).
    split; [exact Hperm|]. split; [exact Hdesc|].
    rewrite (override_api_versioned s module_version ks Hattr Hparse Hkeyed).
    fold sorted. rewrite (override_first_version_find _ _ _ _ _ _ Hsorted).
    destruct (List.find _ sorted) as [[version v]|] eqn:Hfind.
    + split.
      * assert (Hin : In version (map fst versions)).
        { rewrite <- Hkeys. apply find_some in Hfind as [Hin _].
          apply (Permutation_in _ Hperm) in Hin.
          now apply (in_map fst) in Hin. }
        destruct (assoc_In _ _ Hin) as [paths Hpaths].
        exists paths. split; [assumption|].
        rewrite bind_lift. unfold dict_getitem. cbn [fst]. now rewrite Hpaths.
      * intros kv Hkv Hle.
        apply (find_descending_greatest sorted module_version (version, v) Hdesc Hfind);
          [|assumption].
        eapply Permutation_in; [symmetry; exact Hperm|assumption].
    + split; [reflexivity|].
      intros kv Hkv.
      apply (find_none _ _ Hfind).
      eapply Permutation_in; [symmetry; exact Hperm|assumption].
  - apply override_api_unparsed.
  - apply override_api_unversioned.
  - intros A B v0 v1 v05 v12 Hversions H0 H1 H05 H12 Hle0 Hle1 Hle12.
    assert (Hkeyed : keyed parse (map fst versions) = Ok [("0.0.0", v0); ("1.0.0", v1)])
      by (rewrite Hversions; cbn; now rewrite H0, H1).
    assert (Hlt : version_le v1 v0 = false).
    { destruct (version_le v1 v0) eqn:H10; [|reflexivity].
      rewrite (version_le_trans _ _ _ H10 Hle0) in Hle1. discriminate. }
    assert (Hsorted : map fst (sort_desc version_le [("0.0.0", v0); ("1.0.0", v1)]) =
                      ["1.0.0"; "0.0.0"]).
    { cbn. now rewrite Hlt. }
    split; [|split].
    + intros Hattr.
      rewrite (override_api_versioned "1.2.0" v12 _ Hattr H12 Hkeyed), Hsorted.
      cbn [override_first_version]. rewrite bind_lift, H1, Hle12, bind_lift.
      rewrite Hversions. reflexivity.
    + intros Hattr.
      rewrite (override_api_versioned "0.5.0" v05 _ Hattr H05 Hkeyed), Hsorted.
      cbn [override_first_version]. rewrite bind_lift, H1, Hle1.
      rewrite bind_lift, H0, Hle0, bind_lift.
      rewrite Hversions. reflexivity.
    + intros Hattr. apply override_api_unversioned; [assumption|].
      rewrite Hversions. reflexivity.
Qed.

End Resolver.

End Registry.

Lemma unsupported_loaded_provider_raises_witness :
  let st := openai_world (Some "1.2.0") in
  (sys_modules st !! "openai.resources.chat" = Some 4 /\
   assoc "openai.resources.chat" SUPPORTED_APIS = None) /\
  override_api Versions.parse Versions.le SUPPORTED_APIS "openai.resources.chat" st =
    (Raise ValueError, st).
Proof.
  intros st.
  assert (H1 : sys_modules st !! "openai.resources.chat" = Some 4)
    by (vm_compute; reflexivity).
  assert (H2 : assoc "openai.resources.chat" SUPPORTED_APIS = None) by reflexivity.
  split; [split; assumption|].
  exact (unsupported_loaded_provider_raises Versions.Version Versions.parse Versions.le
           SUPPORTED_APIS "openai.resources.chat" st 4 H1 H2).
Defined.

(** C6, as it was stated, fails: a provider name that has no registry entry
    and whose module is not loaded makes [override_api] return normally. *)
Lemma unsupported_provider_counterexample :
  assoc "anthropic" SUPPORTED_APIS = None /\
  override_api Versions.parse Versions.le SUPPORTED_APIS "anthropic"
    (openai_world (Some "1.2.0")) =
    (Ok tt, openai_world (Some "1.2.0")).
Proof. split; [reflexivity|]. apply override_api_not_loaded. vm_compute. reflexivity. Qed.

Lemma override_api_raises_iff_loaded_witness :
  let st := openai_world (Some "1.2.0") in
  let override_api := override_api Versions.parse Versions.le in
  (assoc "openai.resources.chat" SUPPORTED_APIS = None /\
   is_Some (sys_modules st !! "openai.resources.chat") /\
   raised (fst (override_api SUPPORTED_APIS "openai.resources.chat" st)) = true) /\
  (sys_modules st !! "anthropic" = None /\
   override_api SUPPORTED_APIS "anthropic" st = (Ok tt, st)) /\
  (sys_modules empty_world !! "openai" = None /\
   override_api SUPPORTED_APIS "openai" empty_world = (Ok tt, empty_world)).
Proof.
  intros st override_api'.
  assert (H1 : assoc "openai.resources.chat" SUPPORTED_APIS = None) by reflexivity.
  assert (H2 : is_Some (sys_modules st !! "openai.resources.chat"))
    by (exists 4; vm_compute; reflexivity).
  assert (H3 : sys_modules st !! "anthropic" = None) by (vm_compute; reflexivity).
  assert (H4 : sys_modules empty_world !! "openai" = None) by (vm_compute; reflexivity).
  split; [|split].
  - split; [exact H1|]. split; [exact H2|].
    exact (proj2 (proj1 (override_api_raises_iff_loaded Versions.Version Versions.parse
                           Versions.le SUPPORTED_APIS st)
                    "openai.resources.chat" H1) H2).
  - split; [exact H3|].
    exact (proj2 (override_api_raises_iff_loaded Versions.Version Versions.parse
                    Versions.le SUPPORTED_APIS st) "anthropic" H3).
  - split; [exact H4|].
    exact (proj2 (override_api_raises_iff_loaded Versions.Version Versions.parse
                    Versions.le SUPPORTED_APIS empty_world) "openai" H4).
Defined.

Lemma version_resolution_witness :
  let versions := [("0.0.0", ["ChatCompletion.create"; "ChatCompletion.acreate"]);
                   ("1.0.0", ["chat.completions.create"])] in
  let apis := [("openai", versions)] in
  let override_api := override_api Versions.parse Versions.le in
  let v := Versions.mkVersion in
  ((forall a b, Versions.le a b = true \/ Versions.le b a = true) /\
   (forall a b c, Versions.le a b = true -> Versions.le b c = true ->
                  Versions.le a c = true) /\
   sys_modules (openai_world (Some "1.2.0")) !! "openai" = Some 1 /\
   sys_modules (openai_world (Some "0.5.0")) !! "openai" = Some 1 /\
   sys_modules (openai_world None) !! "openai" = Some 1 /\
   sys_modules (openai_world (Some "unknown")) !! "openai" = Some 1 /\
   assoc "openai" apis = Some versions /\
   Versions.parse "0.0.0" = Ok (v [0; 0; 0]) /\
   Versions.parse "1.0.0" = Ok (v [1; 0; 0]) /\
   Versions.parse "0.5.0" = Ok (v [0; 5; 0]) /\
   Versions.parse "1.2.0" = Ok (v [1; 2; 0]) /\
   Versions.le (v [0; 0; 0]) (v [0; 5; 0]) = true /\
   Versions.le (v [1; 0; 0]) (v [0; 5; 0]) = false /\
   Versions.le (v [1; 0; 0]) (v [1; 2; 0]) = true /\
   Versions.parse "unknown" = Raise InvalidVersion) /\
  override_api apis "openai" (openai_world (Some "1.2.0")) =
    override_methods "openai" ["chat.completions.create"] (VRef 1)
      (openai_world (Some "1.2.0")) /\
  override_api apis "openai" (openai_world (Some "0.5.0")) =
    override_methods "openai" ["ChatCompletion.create"; "ChatCompletion.acreate"] (VRef 1)
      (openai_world (Some "0.5.0")) /\
  override_api apis "openai" (openai_world None) =
    override_methods "openai" ["ChatCompletion.create"; "ChatCompletion.acreate"] (VRef 1)
      (openai_world None) /\
  override_api apis "openai" (openai_world (Some "unknown")) =
    (Raise InvalidVersion, openai_world (Some "unknown")).
Proof.
  intros versions apis override_api' v.
  pose proof VersionFacts.le_total as Htotal.
  pose proof VersionFacts.le_trans as Htrans.
  assert (Hl1 : sys_modules (openai_world (Some "1.2.0")) !! "openai" = Some 1)
    by (vm_compute; reflexivity).
  assert (Hl2 : sys_modules (openai_world (Some "0.5.0")) !! "openai" = Some 1)
    by (vm_compute; reflexivity).
  assert (Hl3 : sys_modules (openai_world None) !! "openai" = Some 1)
    by (vm_compute; reflexivity).
  assert (Hl4 : sys_modules (openai_world (Some "unknown")) !! "openai" = Some 1)
    by (vm_compute; reflexivity).
  assert (Hr : assoc "openai" apis = Some versions) by reflexivity.
  assert (H0 : Versions.parse "0.0.0" = Ok (v [0; 0; 0])) by reflexivity.
  assert (H1 : Versions.parse "1.0.0" = Ok (v [1; 0; 0])) by reflexivity.
  assert (H05 : Versions.parse "0.5.0" = Ok (v [0; 5; 0])) by reflexivity.
  assert (H12 : Versions.parse "1.2.0" = Ok (v [1; 2; 0])) by reflexivity.
  assert (Hle0 : Versions.le (v [0; 0; 0]) (v [0; 5; 0]) = true) by reflexivity.
  assert (Hle1 : Versions.le (v [1; 0; 0]) (v [0; 5; 0]) = false) by reflexivity.
  assert (Hle12 : Versions.le (v [1; 0; 0]) (v [1; 2; 0]) = true) by reflexivity.
  assert (Hrc : Versions.parse "unknown" = Raise InvalidVersion) by reflexivity.
  split; [repeat split; assumption|].
  split; [|split; [|split]].
  - destruct (version_resolution Versions.Version Versions.parse Versions.le apis "openai"
                versions 1 (openai_world (Some "1.2.0")) Hl1 Hr Htotal Htrans)
      as (_ & _ & _ & Hcases).
    apply (proj1 (Hcases _ _ _ _ _ _ eq_refl H0 H1 H05 H12 Hle0 Hle1 Hle12)).
    vm_compute. reflexivity.
  - destruct (version_resolution Versions.Version Versions.parse Versions.le apis "openai"
                versions 1 (openai_world (Some "0.5.0")) Hl2 Hr Htotal Htrans)
      as (_ & _ & _ & Hcases).
    apply (proj1 (proj2 (Hcases _ _ _ _ _ _ eq_refl H0 H1 H05 H12 Hle0 Hle1 Hle12))).
    vm_compute. reflexivity.
  - destruct (version_resolution Versions.Version Versions.parse Versions.le apis "openai"
                versions 1 (openai_world None) Hl3 Hr Htotal Htrans)
      as (_ & _ & _ & Hcases).
    apply (proj2 (proj2 (Hcases _ _ _ _ _ _ eq_refl H0 H1 H05 H12 Hle0 Hle1 Hle12))).
    vm_compute. reflexivity.
  - destruct (version_resolution Versions.Version Versions.parse Versions.le apis "openai"
                versions 1 (openai_world (Some "unknown")) Hl4 Hr Htotal Htrans)
      as (_ & Hraise & _).
    apply (Hraise "unknown"); [vm_compute; reflexivity|exact Hrc].
Defined.

(** ** The tracker at work *)

(** Installation on a loaded [openai] 1.2.0 wraps [chat.completions.create]
    and nothing else. *)
Example override_api_openai :
  override_api Versions.parse Versions.le SUPPORTED_APIS "openai"
    (openai_world (Some "1.2.0")) =
  (Ok tt,
   mkWorld None [] 0 [] (sys_modules (openai_world (Some "1.2.0")))
     (<[3 := {[ "create" := VSync "openai" (VNative "chat.completions.create" false) ]}]>
        (openai_heap (Some "1.2.0"))) ∅).
Proof. vm_compute. reflexivity. Qed.

(** Installation on a loaded [openai] without a version looks for the legacy
    paths, which this module does not have, and fails on the first. *)
Example override_api_openai_unversioned :
  override_api Versions.parse Versions.le SUPPORTED_APIS "openai" (openai_world None) =
  (Raise AttributeError, openai_world None).
Proof. vm_compute. reflexivity. Qed.

(** A pre-release of the version that changes the paths. With a parser that
    also reads "1.0.0rc1", and an order that puts it below "1.0.0" and above
    every version below "1.0.0", installation on a loaded [openai] 1.0.0rc1
    looks for the legacy paths; on a module that has the layout of 1.0.0 it
    fails on the first. *)
Example override_api_openai_prerelease :
  let rc_parse (s : string) : Exc (option Versions.Version) :=
    if String.eqb s "1.0.0rc1" then Ok None
    else match Versions.parse s with
         | Ok v => Ok (Some v)
         | Raise e => Raise e
         end in
  let rc_le (a b : option Versions.Version) : bool :=
    match a, b with
    | Some x, Some y => Versions.le x y
    | None, Some y => Versions.le (Versions.mkVersion [1]) y
    | Some x, None => negb (Versions.le (Versions.mkVersion [1]) x)
    | None, None => true
    end in
  let st := openai_world (Some "1.0.0rc1") in
  override_api rc_parse rc_le SUPPORTED_APIS "openai" st =
    override_methods "openai" ["ChatCompletion.create"; "ChatCompletion.acreate"]
      (VRef 1) st /\
  override_api rc_parse rc_le SUPPORTED_APIS "openai" st = (Raise AttributeError, st).
Proof. vm_compute. split; reflexivity. Qed.

(** A streamed call through the wrapper records the event; the same call
    through the patch of the constructor records nothing. *)
Example stream_through_wrapper_and_patch :
  let create := VNative "chat.completions.create" false in
  let through f :=
    (r <- call counting_clock sample_provider f [] chat_kwargs;
     match r with
     | RGen g => exhaust counting_clock g
     | _ => ret []
     end) sample_world in
  fst (through (VSync "openai" create)) = Ok hello_chunks /\
  map returns (client (snd (through (VSync "openai" create)))) =
    [[("finish_reason", PStr "stop"); ("content", PStr "Hello")]] /\
  fst (through (VPatched create)) = Ok hello_chunks /\
  client (snd (through (VPatched create))) = [].
Proof. vm_compute. repeat split. Qed.

(** The constructor patches the two [create] methods. *)
Example constructor_patches :
  let st := snd (LlmTracker_init (openai_world (Some "1.2.0"))) in
  fst (LlmTracker_init (openai_world (Some "1.2.0"))) = Ok tt /\
  fst (reduce_getattr ["Completions"; "create"] (VRef 5) st) =
    Ok (VPatched (VNative "Completions.create" false)) /\
  fst (reduce_getattr ["AsyncCompletions"; "create"] (VRef 5) st) =
    Ok (VPatchedAsync (VNative "AsyncCompletions.create" true)) /\
  stdout st = [PrintStr "patched async"].
Proof. vm_compute. repeat split. Qed.

(** * Further properties of the installation *)

Lemma obj_getattr_attr l name st :
  obj_getattr (VRef l) name st =
  (match attr st l name with Some v => Ok v | None => Raise AttributeError end, st).
Proof.
  unfold obj_getattr, attr. destruct (heap st !! l) as [attrs|]; [|reflexivity].
  destruct (attrs !! name); reflexivity.
Qed.

Lemma reduce_getattr_state parts o st : snd (reduce_getattr parts o st) = st.
Proof. apply reduce_getattr_pure. Qed.

(** Walking a path is walking to its owner and reading the last segment. *)
Lemma reduce_getattr_snoc parts : forall part o st,
  reduce_getattr (parts ++ [part]) o st =
  (o' <- reduce_getattr parts o; obj_getattr o' part) st.
Proof.
  induction parts as [|p parts IH]; intros part o st.
  - cbn. unfold bind. destruct (obj_getattr o part st) as [[v|e] st1]; reflexivity.
  - cbn [app reduce_getattr]. unfold bind.
    destruct (obj_getattr o p st) as [[o'|e] st1]; [|reflexivity].
    rewrite IH. reflexivity.
Qed.

Lemma split_dot_not_empty s : split_dot s <> [].
Proof.
  destruct s as [|c s]; cbn; [discriminate|].
  destruct (Ascii.eqb c "."); [discriminate|].
  destruct (split_dot s); discriminate.
Qed.

Lemma split_dot_owner_last method_path :
  split_dot method_path = owner_parts method_path ++ [last_part method_path].
Proof. apply app_removelast_last, split_dot_not_empty. Qed.

(** The state after [setattr] on the object at [l]. *)
Lemma obj_setattr_Ok l name v st attrs :
  heap st !! l = Some attrs ->
  obj_setattr (VRef l) name v st =
  (Ok tt, mkWorld (event_stream st) (client st) (ticks st) (stdout st) (sys_modules st)
                  (<[l := <[name := v]> attrs]> (heap st)) (lists st)).
Proof. intros H. unfold obj_setattr, set_heap. now rewrite H. Qed.

Lemma obj_setattr_Raise o name v st :
  raised (fst (obj_setattr o name v st)) = true ->
  obj_setattr o name v st = (Raise AttributeError, st).
Proof.
  unfold obj_setattr. destruct o as [l| | | | | |]; try reflexivity.
  destruct (heap st !! l); [discriminate|reflexivity].
Qed.

(** Reading the graph after one attribute was set. *)
Lemma attr_insert st l name v attrs l' name' :
  heap st !! l = Some attrs ->
  attr (mkWorld (event_stream st) (client st) (ticks st) (stdout st) (sys_modules st)
                (<[l := <[name := v]> attrs]> (heap st)) (lists st)) l' name' =
  if decide (l = l' /\ name = name') then Some v else attr st l' name'.
Proof.
  intros H. unfold attr. cbn [heap].
  destruct (decide (l = l')) as [<-|Hl].
  - rewrite lookup_insert_eq, H.
    destruct (decide (name = name')) as [<-|Hname].
    + rewrite lookup_insert_eq. rewrite decide_True by auto. reflexivity.
    + rewrite lookup_insert_ne by assumption.
      rewrite decide_False by tauto. reflexivity.
  - rewrite lookup_insert_ne by assumption.
    rewrite decide_False by tauto. reflexivity.
Qed.

(** What a successful [_override_method] has done. *)
Lemma _override_method_Ok api method_path module st st' :
  _override_method api method_path module st = (Ok tt, st') ->
  exists l attrs original_method,
    reduce_getattr (owner_parts method_path) module st = (Ok (VRef l), st) /\
    heap st !! l = Some attrs /\
    attrs !! last_part method_path = Some original_method /\
    st' = mkWorld (event_stream st) (client st) (ticks st) (stdout st) (sys_modules st)
            (<[l := <[last_part method_path := wrap_method api original_method]> attrs]>
               (heap st)) (lists st).
Proof.
  unfold _override_method. rewrite (split_dot_owner_last method_path).
  set (parts := owner_parts method_path). set (name := last_part method_path).
  intros H. unfold bind in H. rewrite reduce_getattr_snoc in H.
  rewrite removelast_last, last_last in H. unfold bind in H.
  pose proof (reduce_getattr_state parts module st) as Hst.
  destruct (reduce_getattr parts module st) as [[parent|e] st1] eqn:Hparent;
    cbn in Hst; subst st1; [|discriminate].
  assert (Hset : obj_setattr parent name
                   (wrap_method api
                      match obj_getattr parent name st with
                      | (Ok v, _) => v | (Raise _, _) => parent end) st = (Ok tt, st')
                 /\ exists v, fst (obj_getattr parent name st) = Ok v).
  { destruct (obj_getattr_pure parent name st) as [Hst' _].
    destruct (obj_getattr parent name st) as [[original|e] st1] eqn:Hget;
      cbn in Hst'; subst st1; [|discriminate].
    split; [|eauto].
    destruct (Nat.eqb (length (parts ++ [name])) 1) eqn:Hlen;
      [|rewrite Hparent in H; exact H].
    assert (parts = []) as Hnil.
    { apply Nat.eqb_eq in Hlen. rewrite length_app in Hlen. cbn in Hlen.
      destruct parts; [reflexivity|cbn in Hlen; lia]. }
    rewrite Hnil in H, Hparent. cbn in H, Hparent. injection Hparent as <-. exact H. }
  destruct Hset as [Hset [original Hget]].
  destruct parent as [l| | | | | |]; try discriminate.
  rewrite obj_getattr_attr in Hget, Hset. cbn in Hget.
  unfold attr in Hget, Hset.
  destruct (heap st !! l) as [attrs|] eqn:Hattrs; [|discriminate].
  destruct (attrs !! name) as [v|] eqn:Hname; [|discriminate].
  rewrite (obj_setattr_Ok l name _ st attrs Hattrs) in Hset.
  injection Hset as <-. exists l, attrs, v. repeat split; assumption.
Qed.

(** An installation that fails has changed nothing. *)
Lemma _override_method_Raise api method_path module st e st' :
  _override_method api method_path module st = (Raise e, st') -> st' = st.
Proof.
  unfold _override_method, bind.
  pose proof (reduce_getattr_state (split_dot method_path) module st) as Hst.
  destruct (reduce_getattr (split_dot method_path) module st) as [[original|e0] st1];
    cbn in Hst; subst st1; [|congruence].
  assert (Hset : forall o name v, obj_setattr o name v st = (Raise e, st') -> st' = st).
  { intros o name v H.
    assert (Hr : raised (fst (obj_setattr o name v st)) = true) by now rewrite H.
    rewrite (obj_setattr_Raise _ _ _ _ Hr) in H. congruence. }
  destruct (Nat.eqb _ 1); [apply Hset|].
  pose proof (reduce_getattr_state (removelast (split_dot method_path)) module st) as Hst.
  destruct (reduce_getattr (removelast (split_dot method_path)) module st)
    as [[parent|e0] st1]; cbn in Hst; subst st1; [apply Hset|congruence].
Qed.

Lemma same_tracker_refl st : same_tracker st st.
Proof. repeat split. Qed.

Lemma same_tracker_trans st1 st2 st3 :
  same_tracker st1 st2 -> same_tracker st2 st3 -> same_tracker st1 st3.
Proof. unfold same_tracker. intuition congruence. Qed.

Lemma same_shape_refl st : same_shape st st.
Proof. intros l name. reflexivity. Qed.

Lemma same_shape_trans st1 st2 st3 :
  same_shape st1 st2 -> same_shape st2 st3 -> same_shape st1 st3.
Proof. intros H12 H23 l name. etransitivity; [apply H23|apply H12]. Qed.

Lemma _override_method_keeps api method_path module st :
  same_tracker st (snd (_override_method api method_path module st)) /\
  same_shape st (snd (_override_method api method_path module st)).
Proof.
  destruct (_override_method api method_path module st) as [[[]|e] st'] eqn:H; cbn [snd].
  - destruct (_override_method_Ok _ _ _ _ _ H)
      as (l & attrs & original & _ & Hattrs & Hname & ->).
    split; [repeat split|].
    intros l' name'. rewrite (attr_insert st l _ _ attrs l' name' Hattrs).
    destruct (decide _) as [[<- <-]|]; [|reflexivity].
    unfold attr. rewrite Hattrs, Hname. split; eauto.
  - apply _override_method_Raise in H. subst st'.
    split; [apply same_tracker_refl|apply same_shape_refl].
Qed.

Lemma override_methods_keeps api module paths : forall st,
  same_tracker st (snd (override_methods api paths module st)) /\
  same_shape st (snd (override_methods api paths module st)).
Proof.
  induction paths as [|method_path paths IH]; intros st.
  - cbn. split; [apply same_tracker_refl|apply same_shape_refl].
  - cbn [override_methods]. unfold bind.
    destruct (_override_method_keeps api method_path module st) as [Ht Hs].
    destruct (_override_method api method_path module st) as [[[]|e] st1];
      cbn [snd] in *.
    + destruct (IH st1) as [Ht' Hs'].
      split; [eapply same_tracker_trans|eapply same_shape_trans]; eassumption.
    + split; assumption.
Qed.


(** X1. When [_override_method] succeeds it has changed one attribute of one
    object: the last segment of the path, on the object the segments before it
    lead to, now holds the wrapper of what it held, and that wrapper is a
    coroutine function exactly when the original is. Every other attribute of
    every object reads as before, and nothing outside the module graph has
    changed. *)
Theorem override_method_changes_one_attribute (api method_path : string)
    (module : val) (st st' : world) :
  _override_method api method_path module st = (Ok tt, st') ->
  exists l original_method,
    fst (reduce_getattr (owner_parts method_path) module st) = Ok (VRef l) /\
    attr st l (last_part method_path) = Some original_method /\
    attr st' l (last_part method_path) = Some (wrap_method api original_method) /\
    iscoroutinefunction (wrap_method api original_method) =
      iscoroutinefunction original_method /\
    (forall l' name, ~ (l' = l /\ name = last_part method_path) ->
                     attr st' l' name = attr st l' name) /\
    same_tracker st st'.
Proof.
  intros H.
  destruct (_override_method_Ok _ _ _ _ _ H)
    as (l & attrs & original & Hparent & Hattrs & Hname & ->).
  exists l, original. split; [now rewrite Hparent|].
  split; [unfold attr; now rewrite Hattrs|].
  split; [rewrite (attr_insert st l _ _ attrs _ _ Hattrs); now rewrite decide_True by auto|].
  split.
  { unfold wrap_method. destruct (iscoroutinefunction original) eqn:Hc; reflexivity. }
  split; [|repeat split].
  intros l' name Hne. rewrite (attr_insert st l _ _ attrs _ _ Hattrs).
  rewrite decide_False; [reflexivity|]. intros [<- <-]. now apply Hne.
Qed.

Lemma override_method_changes_one_attribute_witness :
  let st := openai_world (Some "1.2.0") in
  let st' := snd (_override_method "openai" "chat.completions.create" (VRef 1) st) in
  _override_method "openai" "chat.completions.create" (VRef 1) st = (Ok tt, st') /\
  exists l original_method,
    fst (reduce_getattr (owner_parts "chat.completions.create") (VRef 1) st) = Ok (VRef l) /\
    attr st l (last_part "chat.completions.create") = Some original_method /\
    attr st' l (last_part "chat.completions.create") =
      Some (wrap_method "openai" original_method) /\
    iscoroutinefunction (wrap_method "openai" original_method) =
      iscoroutinefunction original_method /\
    (forall l' name, ~ (l' = l /\ name = last_part "chat.completions.create") ->
                     attr st' l' name = attr st l' name) /\
    same_tracker st st'.
Proof.
  intros st st'.
  assert (H : _override_method "openai" "chat.completions.create" (VRef 1) st = (Ok tt, st'))
    by (vm_compute; reflexivity).
  split; [exact H|].
  exact (override_method_changes_one_attribute "openai" "chat.completions.create"
           (VRef 1) st st' H).
Defined.

Lemma reduce_getattr_owner_last method_path module st l v :
  fst (reduce_getattr (owner_parts method_path) module st) = Ok (VRef l) ->
  attr st l (last_part method_path) = Some v ->
  reduce_getattr (split_dot method_path) module st = (Ok v, st).
Proof.
  intros Howner Hattr. rewrite split_dot_owner_last, reduce_getattr_snoc. unfold bind.
  pose proof (reduce_getattr_state (owner_parts method_path) module st) as Hst.
  destruct (reduce_getattr (owner_parts method_path) module st) as [[o|e] st1];
    cbn in Howner, Hst; subst st1; [|discriminate].
  injection Howner as ->. now rewrite obj_getattr_attr, Hattr.
Qed.

(** X3. Nothing guards against installing twice: when the path still leads to
    the same owner after a first installation, a second one succeeds and the
    attribute then holds the wrapper of the wrapper of the original. *)
Theorem reinstalling_wraps_again (api1 api2 method_path : string) (module : val)
    (st st1 : world) :
  _override_method api1 method_path module st = (Ok tt, st1) ->
  fst (reduce_getattr (owner_parts method_path) module st1) =
    fst (reduce_getattr (owner_parts method_path) module st) ->
  exists l original_method st2,
    attr st l (last_part method_path) = Some original_method /\
    _override_method api2 method_path module st1 = (Ok tt, st2) /\
    attr st2 l (last_part method_path) =
      Some (wrap_method api2 (wrap_method api1 original_method)).
Proof.
  intros H Hsame.
  destruct (_override_method_Ok _ _ _ _ _ H)
    as (l & attrs & original & Hparent & Hattrs & Hname & Hst1).
  rewrite Hparent in Hsame. cbn [fst] in Hsame.
  assert (Hattr1 : attr st1 l (last_part method_path) = Some (wrap_method api1 original)).
  { rewrite Hst1, (attr_insert st l _ _ attrs _ _ Hattrs). now rewrite decide_True by auto. }
  assert (Hheap1 : heap st1 !! l =
                   Some (<[last_part method_path := wrap_method api1 original]> attrs)).
  { rewrite Hst1. cbn [heap]. apply lookup_insert_eq. }
  assert (Hparent1 : reduce_getattr (removelast (split_dot method_path)) module st1 =
                     (Ok (VRef l), st1)).
  { pose proof (reduce_getattr_state (owner_parts method_path) module st1) as Hs.
    unfold owner_parts in *.
    destruct (reduce_getattr (removelast (split_dot method_path)) module st1) as [r s].
    cbn in Hsame, Hs. now subst. }
  pose proof (_override_method_installs api2 method_path module st1 _ l _
                (reduce_getattr_owner_last _ _ _ _ _ Hsame Hattr1) Hparent1 Hheap1) as H2.
  exists l, original. eexists. split; [unfold attr; now rewrite Hattrs|].
  split; [exact H2|].
  unfold attr. cbn [heap]. rewrite lookup_insert_eq. apply lookup_insert_eq.
Qed.

Lemma reinstalling_wraps_again_witness :
  let st := openai_world (Some "1.2.0") in
  let st1 := snd (_override_method "openai" "chat.completions.create" (VRef 1) st) in
  (_override_method "openai" "chat.completions.create" (VRef 1) st = (Ok tt, st1) /\
   fst (reduce_getattr (owner_parts "chat.completions.create") (VRef 1) st1) =
     fst (reduce_getattr (owner_parts "chat.completions.create") (VRef 1) st)) /\
  exists l original_method st2,
    attr st l (last_part "chat.completions.create") = Some original_method /\
    _override_method "openai" "chat.completions.create" (VRef 1) st1 = (Ok tt, st2) /\
    attr st2 l (last_part "chat.completions.create") =
      Some (wrap_method "openai" (wrap_method "openai" original_method)).
Proof.
  intros st st1.
  assert (H1 : _override_method "openai" "chat.completions.create" (VRef 1) st = (Ok tt, st1))
    by (vm_compute; reflexivity).
  assert (H2 : fst (reduce_getattr (owner_parts "chat.completions.create") (VRef 1) st1) =
               fst (reduce_getattr (owner_parts "chat.completions.create") (VRef 1) st))
    by (vm_compute; reflexivity).
  split; [split; assumption|].
  exact (reinstalling_wraps_again "openai" "openai" "chat.completions.create" (VRef 1)
           st st1 H1 H2).
Defined.

Lemma override_methods_app api module paths1 : forall paths2 st,
  override_methods api (paths1 ++ paths2) module st =
  (override_methods api paths1 module ;; override_methods api paths2 module) st.
Proof.
  induction paths1 as [|method_path paths1 IH]; intros paths2 st.
  - reflexivity.
  - cbn [app override_methods]. unfold bind.
    destruct (_override_method api method_path module st) as [[[]|e] st1]; [|reflexivity].
    rewrite IH. reflexivity.
Qed.

Lemma _override_method_unresolved api method_path module st :
  raised (fst (reduce_getattr (split_dot method_path) module st)) = true ->
  _override_method api method_path module st = (Raise AttributeError, st).
Proof.
  intros H. unfold _override_method, bind. now rewrite (reduce_getattr_Raise _ _ _ H).
Qed.

(** X4. Installation of several paths is not undone on failure: when the
    first paths have been installed and the next one does not resolve,
    [AttributeError] is raised and the wrappers installed so far stay. *)
Theorem failed_installation_keeps_earlier_wrappers (api : string) (module : val)
    (paths rest : list string) (method_path : string) (st st1 : world) :
  override_methods api paths module st = (Ok tt, st1) ->
  raised (fst (reduce_getattr (split_dot method_path) module st1)) = true ->
  override_methods api (paths ++ method_path :: rest) module st =
    (Raise AttributeError, st1).
Proof.
  intros Hpaths Hfail. rewrite override_methods_app. unfold bind. rewrite Hpaths.
  cbn [override_methods]. unfold bind.
  now rewrite (_override_method_unresolved api method_path module st1 Hfail).
Qed.

Lemma failed_installation_keeps_earlier_wrappers_witness :
  let st1 := snd (override_methods "openai" ["ChatCompletion.create"] (VRef 1) legacy_world) in
  (override_methods "openai" ["ChatCompletion.create"] (VRef 1) legacy_world = (Ok tt, st1) /\
   raised (fst (reduce_getattr (split_dot "ChatCompletion.acreate") (VRef 1) st1)) = true) /\
  override_methods "openai" (["ChatCompletion.create"] ++ "ChatCompletion.acreate" :: [])
    (VRef 1) legacy_world = (Raise AttributeError, st1) /\
  attr st1 2 "create" = Some (VSync "openai" (VNative "ChatCompletion.create" false)).
Proof.
  intros st1.
  assert (H1 : override_methods "openai" ["ChatCompletion.create"] (VRef 1) legacy_world =
               (Ok tt, st1)) by (vm_compute; reflexivity).
  assert (H2 : raised (fst (reduce_getattr (split_dot "ChatCompletion.acreate") (VRef 1) st1))
               = true) by (vm_compute; reflexivity).
  split; [split; assumption|]. split.
  - exact (failed_installation_keeps_earlier_wrappers "openai" (VRef 1)
             ["ChatCompletion.create"] [] "ChatCompletion.acreate" legacy_world st1 H1 H2).
  - vm_compute. reflexivity.
Defined.

Section Keeps.

Variable Version : Type.
Variable parse : string -> Exc Version.
Variable version_le : Version -> Version -> bool.

Lemma override_first_version_keeps api versions module_version module sorted : forall st,
  same_tracker st
    (snd (override_first_version parse version_le api versions module_version module
            sorted st)) /\
  same_shape st
    (snd (override_first_version parse version_le api versions module_version module
            sorted st)).
Proof.
  induction sorted as [|version sorted IH]; intros st.
  - cbn. split; [apply same_tracker_refl|apply same_shape_refl].
  - cbn [override_first_version]. rewrite bind_lift.
    destruct (parse version) as [v|e];
      [|cbn; split; [apply same_tracker_refl|apply same_shape_refl]].
    destruct (version_le v module_version); [|apply IH].
    rewrite bind_lift.
    destruct (dict_getitem versions version) as [paths|e];
      [apply override_methods_keeps|].
    cbn; split; [apply same_tracker_refl|apply same_shape_refl].
Qed.

(** X2. Whatever [override_api] does, and whether it returns or raises, it
    leaves the event stream slot, the sink, the clock, standard output,
    [sys.modules] and the lists as they were, and the module graph has the
    same objects with the same attribute names: installation only replaces
    values of attributes that exist. *)
Theorem override_api_keeps_tracker_and_shape
    (apis : list (string * list (string * list string))) (api : string) (st : world) :
  same_tracker st (snd (override_api parse version_le apis api st)) /\
  same_shape st (snd (override_api parse version_le apis api st)).
Proof.
  assert (Hrefl : same_tracker st st /\ same_shape st st)
    by (split; [apply same_tracker_refl|apply same_shape_refl]).
  unfold override_api.
  destruct (sys_modules st !! api) as [l|]; [|exact Hrefl].
  destruct (assoc api apis) as [versions|]; [|exact Hrefl].
  destruct (obj_getattr (VRef l) "__version__" st) as [[version_attribute|e] st1].
  - rewrite bind_lift.
    destruct (parse_version_attribute parse version_attribute); [|exact Hrefl].
    rewrite bind_lift.
    destruct (sorted_reverse parse version_le (map fst versions)); [|exact Hrefl].
    apply override_first_version_keeps.
  - rewrite bind_lift.
    destruct (dict_getitem versions "0.0.0"); [|exact Hrefl].
    apply override_methods_keeps.
Qed.

(** X5. Two ways in which [override_api] fails before it installs anything,
    for a loaded provider with a registry entry: a [__version__] that is not a
    string makes [parse] raise [TypeError]; a module without [__version__]
    when no paths are registered for "0.0.0" gives [KeyError]. The state is
    unchanged in both. *)
Theorem override_api_fails_before_installing
    (apis : list (string * list (string * list string))) (api : string)
    (versions : list (string * list string)) (l : nat) (st : world) :
  sys_modules st !! api = Some l ->
  assoc api apis = Some versions ->
  (forall v, attr st l "__version__" = Some v ->
             (forall s, v <> VData (PStr s)) ->
             override_api parse version_le apis api st = (Raise TypeError, st)) /\
  (attr st l "__version__" = None ->
   assoc "0.0.0" versions = None ->
   override_api parse version_le apis api st = (Raise KeyError, st)).
Proof.
  intros Hloaded Hregistered. split.
  - intros v Hv Hnot. unfold override_api.
    rewrite Hloaded, Hregistered, obj_getattr_attr, Hv, bind_lift.
    destruct v as [|[]| | | | |]; try reflexivity. now destruct (Hnot s).
  - intros Hv Hlegacy. unfold override_api.
    rewrite Hloaded, Hregistered, obj_getattr_attr, Hv, bind_lift.
    unfold dict_getitem. now rewrite Hlegacy.
Qed.

(** X6. With the registry the class ships, whatever the parser and the order,
    as long as "0.0.0" is not above "1.0.0": a loaded [openai] whose version
    parses gets [chat.completions.create] when "1.0.0" is not above its
    version; otherwise the two [ChatCompletion] paths when "0.0.0" is not
    above it; otherwise nothing. So a version that the order puts below
    "1.0.0" gets the paths of the legacy layout. *)
Theorem shipped_registry_resolution (l : nat) (s : string)
    (v0 v1 module_version : Version) (st : world) :
  sys_modules st !! "openai" = Some l ->
  attr st l "__version__" = Some (VData (PStr s)) ->
  parse s = Ok module_version ->
  parse "0.0.0" = Ok v0 ->
  parse "1.0.0" = Ok v1 ->
  version_le v0 v1 = true ->
  override_api parse version_le SUPPORTED_APIS "openai" st =
  override_methods "openai"
    (if version_le v1 module_version then ["chat.completions.create"]
     else if version_le v0 module_version
          then ["ChatCompletion.create"; "ChatCompletion.acreate"]
          else [])
    (VRef l) st.
Proof.
  intros Hloaded Hversion Hparse H0 H1 Hle.
  assert (Hattr : fst (obj_getattr (VRef l) "__version__" st) = Ok (VData (PStr s)))
    by now rewrite obj_getattr_attr, Hversion.
  assert (Hkeyed : keyed parse (map fst [("1.0.0", ["chat.completions.create"]);
                                         ("0.0.0", ["ChatCompletion.create";
                                                    "ChatCompletion.acreate"])]) =
                   Ok [("1.0.0", v1); ("0.0.0", v0)])
    by (cbn; now rewrite H1, H0).
  rewrite (override_api_versioned Version parse version_le SUPPORTED_APIS "openai" _ l st
             Hloaded eq_refl s module_version _ Hattr Hparse Hkeyed).
  assert (Hsorted : map fst (sort_desc version_le [("1.0.0", v1); ("0.0.0", v0)]) =
                    ["1.0.0"; "0.0.0"]) by (cbn; now rewrite Hle).
  rewrite Hsorted. cbn [override_first_version]. rewrite bind_lift, H1.
  destruct (version_le v1 module_version); [reflexivity|].
  rewrite bind_lift, H0.
  destruct (version_le v0 module_version); reflexivity.
Qed.

End Keeps.

Lemma override_api_fails_before_installing_witness :
  let numbered := mkWorld None [] 0 [] {[ "openai" := 1 ]}
                    {[ 1 := {[ "__version__" := VData (PInt 1) ]} ]} ∅ in
  let apis := [("openai", [("1.0.0", ["chat.completions.create"])])] in
  let override_api := override_api Versions.parse Versions.le in
  (sys_modules numbered !! "openai" = Some 1 /\
   assoc "openai" SUPPORTED_APIS =
     Some [("1.0.0", ["chat.completions.create"]);
           ("0.0.0", ["ChatCompletion.create"; "ChatCompletion.acreate"])] /\
   attr numbered 1 "__version__" = Some (VData (PInt 1)) /\
   sys_modules legacy_world !! "openai" = Some 1 /\
   assoc "openai" apis = Some [("1.0.0", ["chat.completions.create"])] /\
   attr legacy_world 1 "__version__" = None) /\
  override_api SUPPORTED_APIS "openai" numbered = (Raise TypeError, numbered) /\
  override_api apis "openai" legacy_world = (Raise KeyError, legacy_world).
Proof.
  intros numbered apis override_api'.
  assert (H1 : sys_modules numbered !! "openai" = Some 1) by (vm_compute; reflexivity).
  assert (H2 : assoc "openai" SUPPORTED_APIS =
               Some [("1.0.0", ["chat.completions.create"]);
                     ("0.0.0", ["ChatCompletion.create"; "ChatCompletion.acreate"])])
    by reflexivity.
  assert (H3 : attr numbered 1 "__version__" = Some (VData (PInt 1)))
    by (vm_compute; reflexivity).
  assert (H4 : sys_modules legacy_world !! "openai" = Some 1) by (vm_compute; reflexivity).
  assert (H5 : assoc "openai" apis = Some [("1.0.0", ["chat.completions.create"])])
    by reflexivity.
  assert (H6 : attr legacy_world 1 "__version__" = None) by (vm_compute; reflexivity).
  split; [repeat split; assumption|]. split.
  - apply (proj1 (override_api_fails_before_installing Versions.Version Versions.parse
                    Versions.le SUPPORTED_APIS "openai" _ 1 numbered
                    H1 H2) (VData (PInt 1)) H3).
    intros s. discriminate.
  - apply (proj2 (override_api_fails_before_installing Versions.Version Versions.parse
                    Versions.le apis "openai" _ 1 legacy_world
                    H4 H5) H6).
    reflexivity.
Defined.

Lemma shipped_registry_resolution_witness :
  let st := openai_world (Some "0.28.1") in
  let v := Versions.mkVersion in
  (sys_modules st !! "openai" = Some 1 /\
   attr st 1 "__version__" = Some (VData (PStr "0.28.1")) /\
   Versions.parse "0.28.1" = Ok (v [0; 28; 1]) /\
   Versions.parse "0.0.0" = Ok (v [0; 0; 0]) /\
   Versions.parse "1.0.0" = Ok (v [1; 0; 0]) /\
   Versions.le (v [0; 0; 0]) (v [1; 0; 0]) = true) /\
  override_api Versions.parse Versions.le SUPPORTED_APIS "openai" st =
  override_methods "openai"
    (if Versions.le (v [1; 0; 0]) (v [0; 28; 1]) then ["chat.completions.create"]
     else if Versions.le (v [0; 0; 0]) (v [0; 28; 1])
          then ["ChatCompletion.create"; "ChatCompletion.acreate"]
          else [])
    (VRef 1) st /\
  Versions.le (v [1; 0; 0]) (v [0; 28; 1]) = false /\
  Versions.le (v [0; 0; 0]) (v [0; 28; 1]) = true.
Proof.
  intros st v.
  assert (H1 : sys_modules st !! "openai" = Some 1) by (vm_compute; reflexivity).
  assert (H2 : attr st 1 "__version__" = Some (VData (PStr "0.28.1")))
    by (vm_compute; reflexivity).
  assert (H3 : Versions.parse "0.28.1" = Ok (v [0; 28; 1])) by reflexivity.
  assert (H4 : Versions.parse "0.0.0" = Ok (v [0; 0; 0])) by reflexivity.
  assert (H5 : Versions.parse "1.0.0" = Ok (v [1; 0; 0])) by reflexivity.
  assert (H6 : Versions.le (v [0; 0; 0]) (v [1; 0; 0]) = true) by reflexivity.
  split; [repeat split; assumption|].
  split; [|split; reflexivity].
  exact (shipped_registry_resolution Versions.Version Versions.parse Versions.le 1 "0.28.1"
           (v [0; 0; 0]) (v [1; 0; 0]) (v [0; 28; 1]) st H1 H2 H3 H4 H5 H6).
Defined.

(** * Further properties of the constructor *)

Lemma import_from_attr package name st p v :
  sys_modules st !! package = Some p ->
  attr st p name = Some v ->
  import_from package name st = (Ok v, st).
Proof.
  intros Hp Hv. unfold import_from. now rewrite Hp, obj_getattr_attr, Hv.
Qed.

Lemma override_openai_completion_Ok st p c a attrs original_create :
  sys_modules st !! "openai.resources.chat" = Some p ->
  attr st p "completions" = Some (VRef c) ->
  attr st c "Completions" = Some (VRef a) ->
  heap st !! a = Some attrs ->
  attrs !! "create" = Some original_create ->
  override_openai_completion st =
  (Ok tt, mkWorld (event_stream st) (client st) (ticks st) (stdout st) (sys_modules st)
                  (<[a := <["create" := VPatched original_create]> attrs]> (heap st))
                  (lists st)).
Proof.
  intros Hp Hc Ha Hattrs Hcreate. unfold override_openai_completion.
  rewrite (bind_Ok _ _ _ _ _ (import_from_attr _ _ _ _ _ Hp Hc)).
  assert (Hcreate' : attr st a "create" = Some original_create)
    by (unfold attr; now rewrite Hattrs).
  unfold bind. rewrite obj_getattr_attr, Ha. cbv beta iota.
  rewrite obj_getattr_attr, Hcreate'. cbv beta iota.
  rewrite obj_getattr_attr, Ha. cbv beta iota.
  now apply obj_setattr_Ok.
Qed.

Lemma override_openai_async_completion_Ok st p c b attrs original_create :
  sys_modules st !! "openai.resources.chat" = Some p ->
  attr st p "completions" = Some (VRef c) ->
  attr st c "AsyncCompletions" = Some (VRef b) ->
  heap st !! b = Some attrs ->
  attrs !! "create" = Some original_create ->
  override_openai_async_completion st =
  (Ok tt, mkWorld (event_stream st) (client st) (ticks st)
                  (stdout st ++ [PrintStr "patched async"]) (sys_modules st)
                  (<[b := <["create" := VPatchedAsync original_create]> attrs]> (heap st))
                  (lists st)).
Proof.
  intros Hp Hc Hb Hattrs Hcreate. unfold override_openai_async_completion.
  rewrite (bind_Ok _ _ _ _ _ (import_from_attr _ _ _ _ _ Hp Hc)).
  assert (Hcreate' : attr st b "create" = Some original_create)
    by (unfold attr; now rewrite Hattrs).
  unfold bind. rewrite obj_getattr_attr, Hb. cbv beta iota.
  rewrite obj_getattr_attr, Hcreate'. cbv beta iota.
  rewrite obj_getattr_attr, Hb. cbv beta iota.
  rewrite (obj_setattr_Ok b "create" _ st attrs Hattrs). reflexivity.
Qed.

Lemma attr_Some st l name v :
  attr st l name = Some v -> exists attrs, heap st !! l = Some attrs /\ attrs !! name = Some v.
Proof. unfold attr. destruct (heap st !! l) as [attrs|]; [eauto|discriminate]. Qed.

(** X7. The constructor, when [openai.resources.chat] is loaded and its
    [completions] has the classes [Completions] and [AsyncCompletions], two
    objects, each with a [create]: it empties the event stream slot, replaces
    the two [create] attributes by the patched functions built on the
    originals, changes no other attribute, prints one line and leaves the
    sink, the clock and [sys.modules] alone. *)
Theorem constructor_patches_both_creates (st : world) (p c a b : nat) (f g : val) :
  sys_modules st !! "openai.resources.chat" = Some p ->
  attr st p "completions" = Some (VRef c) ->
  attr st c "Completions" = Some (VRef a) ->
  attr st a "create" = Some f ->
  attr st c "AsyncCompletions" = Some (VRef b) ->
  attr st b "create" = Some g ->
  a <> b ->
  exists st',
    LlmTracker_init st = (Ok tt, st') /\
    attr st' a "create" = Some (VPatched f) /\
    attr st' b "create" = Some (VPatchedAsync g) /\
    (forall l name, ~ (l = a /\ name = "create") -> ~ (l = b /\ name = "create") ->
                    attr st' l name = attr st l name) /\
    event_stream st' = None /\
    client st' = client st /\
    ticks st' = ticks st /\
    stdout st' = stdout st ++ [PrintStr "patched async"] /\
    sys_modules st' = sys_modules st /\
    lists st' = lists st.
Proof.
  intros Hp Hc Ha Hf Hb Hg Hab.
  destruct (attr_Some _ _ _ _ Hf) as (attrs_a & Hattrs_a & Hcreate_a).
  destruct (attr_Some _ _ _ _ Hg) as (attrs_b & Hattrs_b & Hcreate_b).
  set (st0 := mkWorld None (client st) (ticks st) (stdout st) (sys_modules st) (heap st)
                (lists st)).
  set (st1 := mkWorld None (client st) (ticks st) (stdout st) (sys_modules st)
                (<[a := <["create" := VPatched f]> attrs_a]> (heap st)) (lists st)).
  assert (H1 : override_openai_completion st0 = (Ok tt, st1))
    by (apply (override_openai_completion_Ok st0 p c a attrs_a f); assumption).
  assert (Hread : forall l name, attr st1 l name =
                    if decide (a = l /\ "create" = name) then Some (VPatched f)
                    else attr st l name).
  { intros l name. apply (attr_insert st0 a "create" _ attrs_a l name Hattrs_a). }
  assert (Hp1 : attr st1 p "completions" = Some (VRef c)).
  { rewrite Hread, decide_False; [assumption|]. intros [_ ?]. discriminate. }
  assert (Hb1 : attr st1 c "AsyncCompletions" = Some (VRef b)).
  { rewrite Hread, decide_False; [assumption|]. intros [_ ?]. discriminate. }
  assert (Hattrs_b1 : heap st1 !! b = Some attrs_b).
  { unfold st1. cbn [heap]. now rewrite lookup_insert_ne. }
  pose proof (override_openai_async_completion_Ok st1 p c b attrs_b g Hp Hp1 Hb1
                Hattrs_b1 Hcreate_b) as H2.
  eexists. split.
  { unfold LlmTracker_init, bind. cbn [set_event_stream]. fold st0. rewrite H1. exact H2. }
  assert (Hread2 : forall l name,
             attr (mkWorld (event_stream st1) (client st1) (ticks st1)
                     (stdout st1 ++ [PrintStr "patched async"]) (sys_modules st1)
                     (<[b := <["create" := VPatchedAsync g]> attrs_b]> (heap st1))
                     (lists st1)) l name =
             if decide (b = l /\ "create" = name) then Some (VPatchedAsync g)
             else attr st1 l name).
  { intros l name.
    apply (attr_insert (mkWorld (event_stream st1) (client st1) (ticks st1)
                          (stdout st1 ++ [PrintStr "patched async"]) (sys_modules st1)
                          (heap st1) (lists st1)) b "create" _ attrs_b l name Hattrs_b1). }
  split.
  { rewrite Hread2, decide_False by (intros [? _]; congruence).
    rewrite Hread, decide_True by auto. reflexivity. }
  split.
  { rewrite Hread2, decide_True by auto. reflexivity. }
  split; [|repeat split].
  intros l name Hna Hnb.
  rewrite Hread2, decide_False by (intros [<- <-]; now apply Hnb).
  rewrite Hread, decide_False by (intros [<- <-]; now apply Hna). reflexivity.
Qed.

Lemma constructor_patches_both_creates_witness :
  let st := openai_world (Some "1.2.0") in
  (sys_modules st !! "openai.resources.chat" = Some 4 /\
   attr st 4 "completions" = Some (VRef 5) /\
   attr st 5 "Completions" = Some (VRef 6) /\
   attr st 6 "create" = Some (VNative "Completions.create" false) /\
   attr st 5 "AsyncCompletions" = Some (VRef 7) /\
   attr st 7 "create" = Some (VNative "AsyncCompletions.create" true) /\
   6 <> 7) /\
  exists st',
    LlmTracker_init st = (Ok tt, st') /\
    attr st' 6 "create" = Some (VPatched (VNative "Completions.create" false)) /\
    attr st' 7 "create" = Some (VPatchedAsync (VNative "AsyncCompletions.create" true)) /\
    (forall l name, ~ (l = 6 /\ name = "create") -> ~ (l = 7 /\ name = "create") ->
                    attr st' l name = attr st l name) /\
    event_stream st' = None /\
    client st' = client st /\
    ticks st' = ticks st /\
    stdout st' = stdout st ++ [PrintStr "patched async"] /\
    sys_modules st' = sys_modules st /\
    lists st' = lists st.
Proof.
  intros st.
  assert (H1 : sys_modules st !! "openai.resources.chat" = Some 4)
    by (vm_compute; reflexivity).
  assert (H2 : attr st 4 "completions" = Some (VRef 5)) by (vm_compute; reflexivity).
  assert (H3 : attr st 5 "Completions" = Some (VRef 6)) by (vm_compute; reflexivity).
  assert (H4 : attr st 6 "create" = Some (VNative "Completions.create" false))
    by (vm_compute; reflexivity).
  assert (H5 : attr st 5 "AsyncCompletions" = Some (VRef 7)) by (vm_compute; reflexivity).
  assert (H6 : attr st 7 "create" = Some (VNative "AsyncCompletions.create" true))
    by (vm_compute; reflexivity).
  assert (H7 : 6 <> 7) by lia.
  split; [repeat split; assumption|].
  exact (constructor_patches_both_creates st 4 5 6 7 _ _ H1 H2 H3 H4 H5 H6 H7).
Defined.

(** * Further properties of the normalizers and of the patches *)

Section Normalizers.

Variable clk : nat -> nat.
Variable native : string -> list pyval -> pykwargs -> Exc returned.

Lemma record_response_openai_cases response kwargs started st :
  (exists e, record_response_openai clk response kwargs started st = (Raise e, st)) \/
  exists ev,
    record_response_openai clk response kwargs started st =
      (Ok tt, mkWorld (event_stream st) (client st ++ [ev]) (S (ticks st)) (stdout st)
                      (sys_modules st) (heap st) (lists st)) /\
    params ev = kwargs /\ result ev = "Success" /\ action_type ev = "llm" /\
    init_timestamp ev = started /\ end_timestamp ev = clk (ticks st).
Proof.
  unfold record_response_openai. destruct response as [r| | |]; [|left; eexists; reflexivity..].
  rewrite bind_lift. destruct (getattr r "object"); [|eauto].
  rewrite bind_lift. destruct (getattr r "choices") as [choices|]; [|eauto].
  rewrite bind_index0. destruct (getindex0 (lists st) choices) as [choice|]; [|eauto].
  rewrite bind_lift. destruct (getattr choice "message"); [|eauto].
  rewrite bind_lift. destruct (getattr r "model"); [|eauto].
  rewrite bind_lift. destruct (dict_getitem kwargs "messages"); [|eauto].
  right. eexists. split; [reflexivity|]. repeat split.
Qed.

Lemma record_async_response_openai_cases response kwargs started st :
  (exists e, record_async_response_openai clk response kwargs started st = (Raise e, st)) \/
  exists ev,
    record_async_response_openai clk response kwargs started st =
      (Ok tt, mkWorld (event_stream st) (client st ++ [ev]) (S (ticks st)) (stdout st)
                      (sys_modules st) (heap st) (lists st)) /\
    params ev = kwargs /\ result ev = "Success" /\ action_type ev = "llm" /\
    init_timestamp ev = started /\ end_timestamp ev = clk (ticks st).
Proof.
  unfold record_async_response_openai.
  destruct response as [r| | |]; [|left; eexists; reflexivity..].
  rewrite bind_lift. destruct (getitem r "object"); [|eauto].
  rewrite bind_lift. destruct (getitem r "choices") as [choices|]; [|eauto].
  rewrite bind_index0. destruct (getindex0 (lists st) choices) as [choice|]; [|eauto].
  rewrite bind_lift. destruct (getitem choice "message") as [message|]; [|eauto].
  rewrite bind_lift. destruct (getitem message "content"); [|eauto].
  rewrite bind_lift. destruct (getitem r "model"); [|eauto].
  rewrite bind_lift. destruct (dict_getitem kwargs "messages"); [|eauto].
  right. eexists. split; [reflexivity|]. repeat split.
Qed.

(** X8. On a response that is not a generator, each normalizer is all or
    nothing: it returns the response itself, and either it read the clock once
    and handed the sink one event (with the call's keyword arguments, result
    "Success", action type "llm", the start it was given and the instant of
    construction as end), or it did nothing but print that the response could
    not be parsed. *)
Theorem atomic_record_is_all_or_nothing (kwargs : pykwargs) (started : nat) (st : world) :
  (forall v,
      recorded_or_printed clk (RVal v) kwargs started st
        (_handle_response_openai clk (RVal v) kwargs started st) /\
      recorded_or_printed clk (RVal v) kwargs started st
        (_handle_async_response_openai clk (RVal v) kwargs started st)) /\
  (forall body,
      recorded_or_printed clk (RCoro body) kwargs started st
        (_handle_response_openai clk (RCoro body) kwargs started st) /\
      recorded_or_printed clk (RCoro body) kwargs started st
        (_handle_async_response_openai clk (RCoro body) kwargs started st)).
Proof.
  assert (H : forall r, recorded_or_printed clk r kwargs started st
                (bind (try_except (record_response_openai clk r kwargs started)
                                  (print (UnableToParseResponse kwargs)))
                      (fun _ => ret r) st)).
  { intros r. unfold bind, try_except.
    destruct (record_response_openai_cases r kwargs started st)
      as [[e He]|(ev & Hev & Hrest)].
    - rewrite He. left. reflexivity.
    - rewrite Hev. right. exists ev. split; [reflexivity|exact Hrest]. }
  assert (H' : forall r, recorded_or_printed clk r kwargs started st
                (bind (try_except (record_async_response_openai clk r kwargs started)
                                  (print (UnableToParseResponse kwargs)))
                      (fun _ => ret r) st)).
  { intros r. unfold bind, try_except.
    destruct (record_async_response_openai_cases r kwargs started st)
      as [[e He]|(ev & Hev & Hrest)].
    - rewrite He. left. reflexivity.
    - rewrite Hev. right. exists ev. split; [reflexivity|exact Hrest]. }
  split; intros x; split; first [apply H | apply H'].
Qed.

(** The object-attribute normalizer on a value that is not an object, and the
    mapping normalizer on a value that is not a dictionary. *)
Lemma _handle_response_openai_not_object v kwargs started st :
  (forall attrs, v <> PObj attrs) ->
  _handle_response_openai clk (RVal v) kwargs started st =
  (Ok (RVal v), printed (UnableToParseResponse kwargs) st).
Proof.
  intros H. unfold _handle_response_openai, record_response_openai, try_except, bind, lift.
  destruct v; try reflexivity. now destruct (H attrs).
Qed.

Lemma _handle_async_response_openai_not_dict v kwargs started st :
  (forall d, v <> PDict d) ->
  _handle_async_response_openai clk (RVal v) kwargs started st =
  (Ok (RVal v), printed (UnableToParseResponse kwargs) st).
Proof.
  intros H.
  unfold _handle_async_response_openai, record_async_response_openai, try_except, bind, lift.
  destruct v; try reflexivity. now destruct (H d).
Qed.

(** X9. Each normalizer records nothing on the other's dialect: the
    object-attribute normalizer, the only one the wrappers and the patches
    call, on a response that is not an object with attributes (a plain
    dictionary, say), and the mapping normalizer on one that is not a
    dictionary. The response is returned and one line is printed. *)
Theorem other_dialect_records_nothing (kwargs : pykwargs) (started : nat) (st : world) :
  (forall v, (forall attrs, v <> PObj attrs) ->
     _handle_response_openai clk (RVal v) kwargs started st =
     (Ok (RVal v), printed (UnableToParseResponse kwargs) st)) /\
  (forall v, (forall d, v <> PDict d) ->
     _handle_async_response_openai clk (RVal v) kwargs started st =
     (Ok (RVal v), printed (UnableToParseResponse kwargs) st)).
Proof.
  split; intros v H.
  - now apply _handle_response_openai_not_object.
  - now apply _handle_async_response_openai_not_dict.
Qed.

(** X10. The patch of [AsyncCompletions.create] is a plain function: when the
    original returns a coroutine object, the patch hands that object, not
    awaited, to the normalizer, which finds no attribute on it. The caller
    gets the coroutine object; nothing is recorded for the call, whatever the
    coroutine gives when awaited; the clock is read once and two lines are
    printed. *)
Theorem async_patch_records_nothing (original_create : val) (args : list pyval)
    (kwargs : pykwargs) (st st1 : world) (body : M returned) :
  call clk native original_create args kwargs
       (printed (PrintStr "patched async function") st) = (Ok (RCoro body), st1) ->
  call clk native (VPatchedAsync original_create) args kwargs st =
    (Ok (RCoro body), printed (UnableToParseResponse kwargs) (tick st1)) /\
  client (printed (UnableToParseResponse kwargs) (tick st1)) = client st1.
Proof.
  intros H. split; [|reflexivity].
  rewrite (call_VPatchedAsync clk native), H. reflexivity.
Qed.

(** X11. Where the start of an atomic call is read. Through the patch of
    [Completions.create] the clock is first read once the original has
    returned, so the recorded start is the instant of completion and the end is
    the next reading. Through [sync_method] the start is read before the
    original is called. The response has the fields of the object-attribute
    dialect, the first of its choices being read in the lists as the original
    left them, and the keyword arguments include [messages]. *)
Theorem where_the_start_is_read (r object choices choice message model prompt : pyval)
    (kwargs : pykwargs) (original : val) (args : list pyval) :
  getattr r "object" = Ok object ->
  getattr r "choices" = Ok choices ->
  getattr choice "message" = Ok message ->
  getattr r "model" = Ok model ->
  dict_getitem kwargs "messages" = Ok prompt ->
  (forall st st1,
      call clk native original args kwargs
           (printed (PrintKwargs kwargs)
              (printed (PrintArgs args) (printed (PrintStr "patched function") st))) =
        (Ok (RVal r), st1) ->
      getindex0 (lists st1) choices = Ok choice ->
      call clk native (VPatched original) args kwargs st =
      (Ok (RVal r),
       mkWorld (event_stream st1)
         (client st1 ++ [mkEvent object kwargs "Success" [("content", message)] "llm"
                                 model prompt (clk (ticks st1)) (clk (S (ticks st1)))])
         (S (S (ticks st1))) (stdout st1) (sys_modules st1) (heap st1) (lists st1))) /\
  (forall st st1,
      call clk native original args kwargs (tick st) = (Ok (RVal r), st1) ->
      getindex0 (lists st1) choices = Ok choice ->
      call clk native (VSync "openai" original) args kwargs st =
      (Ok (RVal r),
       mkWorld (event_stream st1)
         (client st1 ++ [mkEvent object kwargs "Success" [("content", message)] "llm"
                                 model prompt (clk (ticks st)) (clk (ticks st1))])
         (S (ticks st1)) (stdout st1) (sys_modules st1) (heap st1) (lists st1))).
Proof.
  intros Hobject Hchoices Hmessage Hmodel Hprompt. split; intros st st1 Hcall Hchoice.
  - rewrite (call_VPatched clk native), Hcall.
    rewrite (record_response_openai_Ok clk r kwargs (clk (ticks st1)) (tick st1)
               object choices choice message model prompt) by assumption.
    reflexivity.
  - rewrite (call_VSync clk native), Hcall. unfold handle_response.
    change (String.eqb "openai" "openai") with true. cbv iota.
    now apply (record_response_openai_Ok clk r kwargs (clk (ticks st)) st1
                 object choices choice message model prompt).
Qed.

End Normalizers.

Lemma other_dialect_records_nothing_witness :
  ((forall attrs, mapping_response <> PObj attrs) /\
   (forall d, object_response <> PDict d)) /\
  _handle_response_openai counting_clock (RVal mapping_response) plain_kwargs 0 empty_world =
    (Ok (RVal mapping_response), printed (UnableToParseResponse plain_kwargs) empty_world) /\
  _handle_async_response_openai counting_clock (RVal object_response) plain_kwargs 0
    empty_world =
    (Ok (RVal object_response), printed (UnableToParseResponse plain_kwargs) empty_world).
Proof.
  assert (H1 : forall attrs, mapping_response <> PObj attrs) by (intros attrs; discriminate).
  assert (H2 : forall d, object_response <> PDict d) by (intros d; discriminate).
  split; [split; assumption|]. split.
  - exact (proj1 (other_dialect_records_nothing counting_clock plain_kwargs 0 empty_world)
             mapping_response H1).
  - exact (proj2 (other_dialect_records_nothing counting_clock plain_kwargs 0 empty_world)
             object_response H2).
Defined.

Lemma async_patch_records_nothing_witness :
  let create := VNative "AsyncCompletions.create" true in
  let st1 := printed (PrintStr "patched async function") empty_world in
  let body : M returned := ret (RVal object_response) in
  call counting_clock coroutine_provider create [] plain_kwargs
       (printed (PrintStr "patched async function") empty_world) = (Ok (RCoro body), st1) /\
  call counting_clock coroutine_provider (VPatchedAsync create) [] plain_kwargs empty_world =
    (Ok (RCoro body), printed (UnableToParseResponse plain_kwargs) (tick st1)) /\
  client (printed (UnableToParseResponse plain_kwargs) (tick st1)) = client st1.
Proof.
  intros create st1 body.
  assert (H : call counting_clock coroutine_provider create [] plain_kwargs
                (printed (PrintStr "patched async function") empty_world) =
              (Ok (RCoro body), st1)) by reflexivity.
  split; [exact H|].
  exact (async_patch_records_nothing counting_clock coroutine_provider create []
           plain_kwargs empty_world st1 body H).
Defined.

Lemma where_the_start_is_read_witness :
  let create := VNative "Completions.create" false in
  let choice := PObj [("message", object_message); ("finish_reason", PStr "stop")] in
  let st0 := printed (PrintKwargs plain_kwargs)
               (printed (PrintArgs []) (printed (PrintStr "patched function") sample_world)) in
  (getattr object_response "object" = Ok (PStr "chat.completion") /\
   getattr object_response "choices" = Ok (PList 8) /\
   getattr choice "message" = Ok object_message /\
   getattr object_response "model" = Ok (PStr "m") /\
   dict_getitem plain_kwargs "messages" = Ok (PList 1) /\
   call counting_clock sample_provider create [] plain_kwargs st0 =
     (Ok (RVal object_response), st0) /\
   getindex0 (lists st0) (PList 8) = Ok choice /\
   call counting_clock sample_provider create [] plain_kwargs (tick sample_world) =
     (Ok (RVal object_response), tick sample_world) /\
   getindex0 (lists (tick sample_world)) (PList 8) = Ok choice) /\
  call counting_clock sample_provider (VPatched create) [] plain_kwargs sample_world =
    (Ok (RVal object_response),
     mkWorld None
       [mkEvent (PStr "chat.completion") plain_kwargs "Success"
                [("content", object_message)] "llm" (PStr "m") (PList 1) 0 1]
       2 (stdout st0) ∅ ∅ sample_lists) /\
  call counting_clock sample_provider (VSync "openai" create) [] plain_kwargs sample_world =
    (Ok (RVal object_response),
     mkWorld None
       [mkEvent (PStr "chat.completion") plain_kwargs "Success"
                [("content", object_message)] "llm" (PStr "m") (PList 1) 0 1]
       2 [] ∅ ∅ sample_lists).
Proof.
  intros create choice st0.
  assert (H1 : getattr object_response "object" = Ok (PStr "chat.completion")) by reflexivity.
  assert (H2 : getattr object_response "choices" = Ok (PList 8)) by reflexivity.
  assert (H3 : getindex0 (lists st0) (PList 8) = Ok choice) by reflexivity.
  assert (H3' : getindex0 (lists (tick sample_world)) (PList 8) = Ok choice) by reflexivity.
  assert (H4 : getattr choice "message" = Ok object_message) by reflexivity.
  assert (H5 : getattr object_response "model" = Ok (PStr "m")) by reflexivity.
  assert (H6 : dict_getitem plain_kwargs "messages" = Ok (PList 1)) by reflexivity.
  assert (H7 : call counting_clock sample_provider create [] plain_kwargs st0 =
               (Ok (RVal object_response), st0)) by reflexivity.
  assert (H8 : call counting_clock sample_provider create [] plain_kwargs (tick sample_world) =
               (Ok (RVal object_response), tick sample_world)) by reflexivity.
  split; [repeat split; assumption|].
  destruct (where_the_start_is_read counting_clock sample_provider object_response
              (PStr "chat.completion") (PList 8) choice object_message (PStr "m") (PList 1)
              plain_kwargs create [] H1 H2 H4 H5 H6) as [Hpatch Hwrap].
  split.
  - exact (Hpatch sample_world st0 H7 H3).
  - exact (Hwrap sample_world (tick sample_world) H8 H3').
Defined.

(** * What the tracker never does at call time *)

(** X12. At call time the tracker only adds: a call through any wrapper or
    patch (up to the return of the call itself; a coroutine it returns is not
    run), either normalizer, and any number of pulls on any generator leave
    [sys.modules] and the module graph untouched, keep every event the sink
    has received and every line printed, in order, never set the clock
    back, and keep the items of every list, in order, adding only at its
    end. *)
Theorem call_time_only_adds (clk : nat -> nat)
    (native : string -> list pyval -> pykwargs -> Exc returned) (st : world) :
  (forall f args kwargs, grows st (snd (call clk native f args kwargs st))) /\
  (forall response kwargs started,
      grows st (snd (_handle_response_openai clk response kwargs started st)) /\
      grows st (snd (_handle_async_response_openai clk response kwargs started st))) /\
  (forall n g, grows st (snd (iterate clk n g st))).
Proof.
  split; [|split].
  - intros f args kwargs. apply growing_call.
  - intros response kwargs started.
    split; [apply growing__handle_response_openai|apply growing__handle_async_response_openai].
  - intros n g. apply growing_iterate.
Qed.

(** * Further properties of the stream accumulator *)

Section StreamEffect.

Variable clk : nat -> nat.
Variable kwargs : pykwargs.
Variable started : nat.
Variable prompt : pyval.
Hypothesis kwargs_messages : dict_getitem kwargs "messages" = Ok prompt.

(** X13. The whole effect of a complete stream, iterated to its end from a
    state with no stream open, for a call whose keyword arguments include
    [messages]: chunks that do not end the stream, then one with a string token
    and a true finish reason. Every chunk is yielded. The sink receives one
    event: type "openai stream", the keyword arguments as parameters, result
    "Success", the finish reason of the last chunk and the tokens joined in
    order, action type "llm", the model of the first chunk that parsed, the
    messages as prompt, the start of the call, and as end the second reading
    of the clock. The clock is read exactly twice, one line is printed for each
    chunk that did not parse, the slot is empty again and nothing else has
    changed. *)
Theorem complete_stream_effect (st : world) (chunks : list pyval)
    (last model finish_reason : pyval) (token : string) :
  event_stream st = None ->
  Forall (continuing (lists st)) chunks ->
  parse_chunk (lists st) last = Ok (model, PStr token, finish_reason) ->
  truthy (lists st) finish_reason = true ->
  exhaust clk (Decorated kwargs started (Upstream (chunks ++ [last]))) st =
  (Ok (chunks ++ [last]),
   mkWorld None
     (client st ++
      [mkEvent (PStr "openai stream") kwargs "Success"
               [("finish_reason", finish_reason);
                ("content", PStr (concat_tokens (lists st) (chunks ++ [last])))]
               "llm" (first_model (lists st) (chunks ++ [last])) prompt started
               (clk (S (ticks st)))])
     (S (S (ticks st))) (stdout st ++ skipped_lines (lists st) kwargs chunks)
     (sys_modules st) (heap st) (lists st)).
Proof.
  intros Hes Hall Hparse Htrue.
  assert (Htoken : chunk_token (lists st) last = token)
    by (unfold chunk_token; now rewrite Hparse).
  rewrite exhaust_Decorated. f_equal.
  rewrite handled_all_snoc.
  rewrite (handled_all_stream_state clk kwargs started prompt st chunks
             kwargs_messages Hes Hall).
  rewrite first_model_snoc, concat_tokens_snoc, Htoken.
  unfold stream_state. destruct (existsb (parsed (lists st)) chunks) eqn:Hopened.
  - erewrite handled_parsed; [|exact Hparse|].
    2:{ erewrite accumulate_open; [|reflexivity|reflexivity].
        cbn [lists]. rewrite Htrue. reflexivity. }
    reflexivity.
  - erewrite handled_parsed; [|exact Hparse|].
    2:{ erewrite accumulate_closed; [|reflexivity|exact kwargs_messages].
        cbn [lists]. rewrite Htrue. reflexivity. }
    cbn [first_model]. rewrite Hparse, (concat_tokens_unparsed _ chunks Hopened).
    reflexivity.
Qed.


End StreamEffect.

Section Counting.

Variable clk : nat -> nat.

(** A chunk hands the sink at most one event. *)
Lemma handled_client_cases kwargs started st chunk :
  client (handled clk kwargs started st chunk) = client st \/
  exists ev, client (handled clk kwargs started st chunk) = client st ++ [ev].
Proof.
  destruct (handled_cases clk kwargs started st chunk)
    as [H|[(model & token & finish_reason & prompt & Hparse & Hes & Hprompt & Hacc)
          |(model & token & finish_reason & ev & content & content' & ls' &
            Hparse & Hes & Hcontent & Hadd & Hacc)]].
  - left. now rewrite H.
  - rewrite (accumulate_None clk kwargs started model token finish_reason st prompt
               Hes Hprompt) in Hacc.
    destruct (truthy (lists st) finish_reason); injection Hacc as <-;
      [right; eexists; reflexivity|left; reflexivity].
  - rewrite (accumulate_Some clk kwargs started model token finish_reason st ev
               content content' ls' Hes Hcontent Hadd) in Hacc.
    destruct (truthy ls' finish_reason); injection Hacc as <-;
      [right; eexists; reflexivity|left; reflexivity].
Qed.

Lemma handled_all_client_any kwargs started chunks : forall st,
  exists evs,
    client (handled_all clk kwargs started chunks st) = client st ++ evs /\
    length evs <= length chunks.
Proof.
  induction chunks as [|chunk chunks IH]; intros st.
  - exists []. cbn. split; [now rewrite app_nil_r|lia].
  - rewrite handled_all_cons.
    destruct (IH (handled clk kwargs started st chunk)) as (evs & Hevs & Hlen).
    destruct (handled_client_cases kwargs started st chunk) as [H|[ev H]].
    + exists evs. rewrite Hevs, H. split; [reflexivity|]. cbn. lia.
    + exists (ev :: evs). rewrite Hevs, H, <- app_assoc. split; [reflexivity|].
      cbn. lia.
Qed.

(** With no list accumulated, none unless the finish reason of the chunk is
    true. *)
Lemma handled_all_client kwargs started chunks : forall st,
  list_content st = false ->
  Forall (fun chunk => list_token (lists st) chunk = false) chunks ->
  exists evs,
    client (handled_all clk kwargs started chunks st) = client st ++ evs /\
    length evs <= length (List.filter (terminal (lists st)) chunks).
Proof.
  induction chunks as [|chunk chunks IH]; intros st Hplain Hall.
  - exists []. cbn. split; [now rewrite app_nil_r|lia].
  - inversion Hall as [|? ? Hchunk Hchunks]; subst.
    rewrite handled_all_cons.
    pose proof (handled_lists clk kwargs started st chunk Hplain) as Hls.
    pose proof (handled_list_content clk kwargs started st chunk Hplain Hchunk) as Hplain'.
    destruct (IH (handled clk kwargs started st chunk) Hplain') as (evs & Hevs & Hlen).
    { now rewrite Hls. }
    rewrite Hls in Hlen. cbn [List.filter].
    destruct (terminal (lists st) chunk) eqn:Hterm.
    + destruct (handled_client_cases kwargs started st chunk) as [H|[ev H]].
      * exists evs. rewrite Hevs, H. split; [reflexivity|]. cbn. lia.
      * exists (ev :: evs). rewrite Hevs, H, <- app_assoc. split; [reflexivity|].
        cbn. lia.
    + exists evs. rewrite Hevs, (handled_quiet clk kwargs started chunk st Hplain Hterm).
      split; [reflexivity|assumption].
Qed.

(** X15. Whatever the chunks and the state, a caller that pulls [n] elements
    from the decorated generator gets the first [n] chunks, and the sink gets
    only new events after those it had, at most one for each chunk pulled;
    and, when no list is accumulated (neither the content in the slot nor the
    token of a chunk pulled is a list), at most one for each chunk pulled whose
    finish reason is true. *)
Theorem events_bounded_by_terminal_chunks (kwargs : pykwargs) (started : nat)
    (chunks : list pyval) (n : nat) (st : world) :
  exists g' st' evs,
    iterate clk n (Decorated kwargs started (Upstream chunks)) st =
      (Ok (take n chunks, g'), st') /\
    client st' = client st ++ evs /\
    length evs <= length (take n chunks) /\
    (list_content st = false ->
     Forall (fun chunk => list_token (lists st) chunk = false) (take n chunks) ->
     length evs <= length (List.filter (terminal (lists st)) (take n chunks))).
Proof.
  rewrite iterate_Decorated.
  destruct (handled_all_client_any kwargs started (take n chunks) st) as (evs & Hevs & Hlen).
  do 2 eexists. exists evs. split; [reflexivity|]. split; [assumption|].
  split; [assumption|]. intros Hplain Hall.
  destruct (handled_all_client kwargs started (take n chunks) st Hplain Hall)
    as (evs' & Hevs' & Hlen').
  rewrite Hevs in Hevs'. apply app_inv_head in Hevs'. now subst evs'.
Qed.

End Counting.

Lemma complete_stream_effect_witness :
  let chunks := [chunk_no_choice; chunk_He] in
  let st := sample_world in
  (dict_getitem chat_kwargs "messages" = Ok (PList 1) /\
   event_stream st = None /\
   Forall (continuing (lists st)) chunks /\
   parse_chunk (lists st) chunk_llo_stop = Ok (PStr "m", PStr "llo", PStr "stop") /\
   truthy (lists st) (PStr "stop") = true) /\
  exhaust counting_clock (Decorated chat_kwargs 0 (Upstream (chunks ++ [chunk_llo_stop]))) st =
  (Ok (chunks ++ [chunk_llo_stop]),
   mkWorld None
     (client st ++
      [mkEvent (PStr "openai stream") chat_kwargs "Success"
               [("finish_reason", PStr "stop");
                ("content", PStr (concat_tokens (lists st) (chunks ++ [chunk_llo_stop])))]
               "llm" (first_model (lists st) (chunks ++ [chunk_llo_stop])) (PList 1) 0
               (counting_clock (S (ticks st)))])
     (S (S (ticks st))) (stdout st ++ skipped_lines (lists st) chat_kwargs chunks)
     (sys_modules st) (heap st) (lists st)) /\
  concat_tokens (lists st) (chunks ++ [chunk_llo_stop]) = "Hello" /\
  first_model (lists st) (chunks ++ [chunk_llo_stop]) = PStr "m" /\
  skipped_lines (lists st) chat_kwargs chunks = [UnableToParseChunk chat_kwargs].
Proof.
  intros chunks st.
  assert (H1 : dict_getitem chat_kwargs "messages" = Ok (PList 1)) by reflexivity.
  assert (H2 : event_stream st = None) by reflexivity.
  assert (H3 : Forall (continuing (lists st)) chunks).
  { constructor; [left; reflexivity|].
    constructor; [right; split; reflexivity|constructor]. }
  assert (H4 : parse_chunk (lists st) chunk_llo_stop = Ok (PStr "m", PStr "llo", PStr "stop"))
    by reflexivity.
  assert (H5 : truthy (lists st) (PStr "stop") = true) by reflexivity.
  split; [repeat split; assumption|].
  split; [|repeat split; reflexivity].
  exact (complete_stream_effect counting_clock chat_kwargs 0 (PList 1) H1 st chunks
           chunk_llo_stop (PStr "m") (PStr "stop") "llo" H2 H3 H4 H5).
Defined.


Lemma events_bounded_by_terminal_chunks_witness :
  let chunks := [chunk_He; chunk_llo_stop; chunk_By; chunk_Bye_stop] in
  exists g' st' evs,
    iterate counting_clock 3 (Decorated chat_kwargs 0 (Upstream chunks)) sample_world =
      (Ok (take 3 chunks, g'), st') /\
    client st' = client sample_world ++ evs /\
    length evs <= 3 /\
    length evs <= length (List.filter (terminal sample_lists) (take 3 chunks)) /\
    length (List.filter (terminal sample_lists) (take 3 chunks)) = 1.
Proof.
  intros chunks.
  destruct (events_bounded_by_terminal_chunks counting_clock chat_kwargs 0 chunks 3
              sample_world) as (g' & st' & evs & Hrun & Hclient & Hany & Hlen).
  exists g', st', evs. split; [exact Hrun|]. split; [exact Hclient|].
  split; [exact Hany|]. split; [|reflexivity].
  apply Hlen; [reflexivity|]. repeat constructor.
Defined.

(** Why the second bound asks that no list is accumulated: a finish reason
    that is the very list the content is accumulated in is empty, so false,
    when the first chunk is handled, and true once the token of the second
    chunk has been added to it. *)
Example list_finish_reason_becomes_true :
  let choice content :=
    PDict [("delta", PDict [("content", PList content)]); ("finish_reason", PList 40)] in
  let ls : store :=
    list_to_map [(40, []); (41, [PStr "x"]); (50, [choice 40]); (51, [choice 41])] in
  let chunks := [stream_chunk "m" 50; stream_chunk "m" 51] in
  let run := exhaust counting_clock (Decorated chat_kwargs 0 (Upstream chunks))
               (mkWorld None [] 0 [] ∅ ∅ ls) in
  List.filter (terminal ls) chunks = [] /\
  fst run = Ok chunks /\
  length (client (snd run)) = 1.
Proof. vm_compute. repeat split. Qed.
(** * Streams one after another, and wrappers one over another *)

Section Composition.

Variable clk : nat -> nat.
Variable native : string -> list pyval -> pykwargs -> Exc returned.

(** X17. Two complete streams iterated one after the other, each of its own
    call, starting with no stream open: the sink receives two events, in that
    order, each with the tokens and the finish reason of its own stream, and
    the slot is empty at the end. *)
Theorem consecutive_streams_are_independent
    (kwargs1 kwargs2 : pykwargs) (started1 started2 : nat) (prompt1 prompt2 : pyval)
    (chunks1 chunks2 : list pyval) (last1 last2 finish_reason1 finish_reason2 : pyval)
    (st : world) :
  event_stream st = None ->
  dict_getitem kwargs1 "messages" = Ok prompt1 ->
  dict_getitem kwargs2 "messages" = Ok prompt2 ->
  Forall (continuing (lists st)) chunks1 ->
  text_chunk (lists st) last1 = true ->
  chunk_finish_reason (lists st) last1 = Ok finish_reason1 ->
  truthy (lists st) finish_reason1 = true ->
  Forall (continuing (lists st)) chunks2 ->
  text_chunk (lists st) last2 = true ->
  chunk_finish_reason (lists st) last2 = Ok finish_reason2 ->
  truthy (lists st) finish_reason2 = true ->
  exists st1 st2 ev1 ev2,
    exhaust clk (Decorated kwargs1 started1 (Upstream (chunks1 ++ [last1]))) st =
      (Ok (chunks1 ++ [last1]), st1) /\
    exhaust clk (Decorated kwargs2 started2 (Upstream (chunks2 ++ [last2]))) st1 =
      (Ok (chunks2 ++ [last2]), st2) /\
    client st2 = client st ++ [ev1; ev2] /\
    returns ev1 = [("finish_reason", finish_reason1);
                   ("content", PStr (concat_tokens (lists st) (chunks1 ++ [last1])))] /\
    returns ev2 = [("finish_reason", finish_reason2);
                   ("content", PStr (concat_tokens (lists st) (chunks2 ++ [last2])))] /\
    event_stream st2 = None.
Proof.
  intros Hes Hp1 Hp2 Hall1 Htext1 Hfr1 Htrue1 Hall2 Htext2 Hfr2 Htrue2.
  destruct (handled_all_stream clk kwargs1 started1 prompt1 Hp1 st chunks1 last1
              finish_reason1 Hes Hall1 Htext1 Hfr1 Htrue1)
    as (ev1 & Hslot1 & Hclient1 & Hlists1 & Hreturns1).
  rewrite <- Hlists1 in Hall2, Htext2, Hfr2, Htrue2.
  destruct (handled_all_stream clk kwargs2 started2 prompt2 Hp2 _ chunks2 last2
              finish_reason2 Hslot1 Hall2 Htext2 Hfr2 Htrue2)
    as (ev2 & Hslot2 & Hclient2 & Hlists2 & Hreturns2).
  rewrite Hlists1 in Hreturns2.
  do 2 eexists. exists ev1, ev2.
  rewrite !exhaust_Decorated. split; [reflexivity|]. split; [reflexivity|].
  rewrite Hclient2, Hclient1, <- app_assoc. repeat split; assumption.
Qed.

(** X18. A method wrapped twice records every atomic call twice. The inner
    wrapper, which read its start second, records first; the outer one records
    the same response again, with the earlier start and a later end. The
    caller still gets the response. *)
Theorem double_wrapping_records_twice
    (r object choices choice message model prompt : pyval)
    (kwargs : pykwargs) (original : val) (args : list pyval) (st st1 : world) :
  getattr r "object" = Ok object ->
  getattr r "choices" = Ok choices ->
  getindex0 (lists st1) choices = Ok choice ->
  getattr choice "message" = Ok message ->
  getattr r "model" = Ok model ->
  dict_getitem kwargs "messages" = Ok prompt ->
  call clk native original args kwargs (tick (tick st)) = (Ok (RVal r), st1) ->
  call clk native (VSync "openai" (VSync "openai" original)) args kwargs st =
  (Ok (RVal r),
   mkWorld (event_stream st1)
     (client st1 ++
      [mkEvent object kwargs "Success" [("content", message)] "llm" model prompt
               (clk (S (ticks st))) (clk (ticks st1));
       mkEvent object kwargs "Success" [("content", message)] "llm" model prompt
               (clk (ticks st)) (clk (S (ticks st1)))])
     (S (S (ticks st1))) (stdout st1) (sys_modules st1) (heap st1) (lists st1)).
Proof.
  intros Hobject Hchoices Hchoice Hmessage Hmodel Hprompt Hcall.
  rewrite (call_VSync clk native "openai" (VSync "openai" original)).
  rewrite (call_VSync clk native "openai" original), Hcall.
  unfold handle_response. change (String.eqb "openai" "openai") with true. cbv iota.
  rewrite (record_response_openai_Ok clk r kwargs _ st1
             object choices choice message model prompt) by assumption.
  rewrite (record_response_openai_Ok clk r kwargs _ _
             object choices choice message model prompt) by assumption.
  cbn [client ticks event_stream stdout sys_modules heap lists tick].
  now rewrite <- app_assoc.
Qed.

Lemma next_Decorated_twice kwargs inner outer chunk chunks st :
  next clk (Decorated kwargs outer (Decorated kwargs inner (Upstream (chunk :: chunks)))) st =
  (Ok (Some (chunk, Decorated kwargs outer (Decorated kwargs inner (Upstream chunks)))),
   handled_twice clk kwargs inner outer st chunk).
Proof.
  change (next clk (Decorated kwargs outer
                      (Decorated kwargs inner (Upstream (chunk :: chunks)))) st)
    with ((r <- next clk (Decorated kwargs inner (Upstream (chunk :: chunks)));
           match r with
           | None => ret None
           | Some (chunk, response') =>
               handle_stream_chunk clk kwargs outer chunk ;;
               ret (Some (chunk, Decorated kwargs outer response'))
           end) st).
  unfold bind at 1. rewrite next_Decorated_cons.
  unfold bind. rewrite handle_stream_chunk_handled. reflexivity.
Qed.

Lemma iterate_Decorated_twice kwargs inner outer n : forall chunks st,
  iterate clk n (Decorated kwargs outer (Decorated kwargs inner (Upstream chunks))) st =
  (Ok (take n chunks,
       Decorated kwargs outer (Decorated kwargs inner (Upstream (drop n chunks)))),
   fold_left (handled_twice clk kwargs inner outer) (take n chunks) st).
Proof.
  induction n as [|n IH]; intros chunks st; [reflexivity|].
  destruct chunks as [|chunk chunks]; [reflexivity|].
  cbn [iterate take drop fold_left].
  unfold bind at 1. rewrite next_Decorated_twice.
  unfold bind. rewrite IH. reflexivity.
Qed.

Lemma exhaust_Decorated_twice kwargs inner outer chunks st :
  exhaust clk (Decorated kwargs outer (Decorated kwargs inner (Upstream chunks))) st =
  (Ok chunks, fold_left (handled_twice clk kwargs inner outer) chunks st).
Proof.
  unfold exhaust, bind. rewrite iterate_Decorated_twice. cbn [remaining fst ret].
  rewrite take_ge by lia. reflexivity.
Qed.

Lemma double_tokens_cons ls chunk chunks :
  double_tokens ls (chunk :: chunks) =
  String.append (String.append (chunk_token ls chunk) (chunk_token ls chunk))
                (double_tokens ls chunks).
Proof. reflexivity. Qed.

Section Twice.

Variable kwargs : pykwargs.
Variable inner outer : nat.
Variable prompt : pyval.
Hypothesis kwargs_messages : dict_getitem kwargs "messages" = Ok prompt.

(** Chunks that do not end the stream, under two layers: the slot holds every
    token twice. *)
Lemma handled_twice_continuing chunks : forall st content,
  Forall (continuing (lists st)) chunks ->
  slot_holds st content ->
  exists content',
    slot_holds (fold_left (handled_twice clk kwargs inner outer) chunks st) content' /\
    default EmptyString content' =
      String.append (default EmptyString content) (double_tokens (lists st) chunks) /\
    client (fold_left (handled_twice clk kwargs inner outer) chunks st) = client st /\
    lists (fold_left (handled_twice clk kwargs inner outer) chunks st) = lists st.
Proof.
  induction chunks as [|chunk chunks IH]; intros st content Hall Hslot.
  - exists content. cbn. repeat split; [assumption|]. now rewrite append_empty_r.
  - inversion Hall as [|? ? Hchunk Hchunks]; subst.
    cbn [fold_left]. rewrite double_tokens_cons.
    change (handled_twice clk kwargs inner outer st chunk)
      with (handled clk kwargs outer (handled clk kwargs inner st chunk) chunk).
    destruct Hchunk as [Hfail|[Htext Hterm]].
    + destruct (handled_skipped clk kwargs inner st chunk content Hfail Hslot)
        as (Hslot1 & Hclient1 & Hlists1 & Htoken).
      rewrite <- Hlists1 in Hfail.
      destruct (handled_skipped clk kwargs outer _ chunk content Hfail Hslot1)
        as (Hslot2 & Hclient2 & Hlists2 & _).
      assert (Hlists : lists (handled clk kwargs outer (handled clk kwargs inner st chunk)
                                chunk) = lists st) by congruence.
      rewrite <- Hlists in Hchunks.
      destruct (IH _ content Hchunks Hslot2)
        as (content' & Hslot' & Hcontent & Hclient' & Hlists').
      rewrite Hlists in Hcontent.
      exists content'. rewrite Htoken. cbn [String.append].
      repeat split; [assumption|assumption|congruence|congruence].
    + pose proof Htext as Htext0.
      destruct (handled_appended clk kwargs inner prompt kwargs_messages st chunk content
                  Htext Hterm Hslot) as (Hslot1 & Hclient1 & Hlists1).
      rewrite <- Hlists1 in Htext, Hterm.
      destruct (handled_appended clk kwargs outer prompt kwargs_messages _ chunk _
                  Htext Hterm Hslot1) as (Hslot2 & Hclient2 & Hlists2).
      assert (Hlists : lists (handled clk kwargs outer (handled clk kwargs inner st chunk)
                                chunk) = lists st) by congruence.
      rewrite <- Hlists in Hchunks.
      destruct (IH _ _ Hchunks Hslot2)
        as (content' & Hslot' & Hcontent & Hclient' & Hlists').
      rewrite Hlists, Hlists1 in Hcontent.
      exists content'. repeat split; [assumption| |congruence|congruence].
      rewrite Hcontent. cbn [default]. unfold id. now rewrite !append_assoc.
Qed.

(** X19. A stream that comes through two layers of decoration, as a method
    wrapped twice returns it, is accumulated twice into the one slot. For a
    complete stream iterated to its end with no stream open at the start, the
    sink receives two events: the first has every token before the last one
    twice and then the last token; the second has the last token alone. Both
    have the finish reason of the last chunk. *)
Theorem double_wrapping_garbles_streams (chunks : list pyval)
    (last finish_reason : pyval) (st : world) :
  event_stream st = None ->
  Forall (continuing (lists st)) chunks ->
  text_chunk (lists st) last = true ->
  chunk_finish_reason (lists st) last = Ok finish_reason ->
  truthy (lists st) finish_reason = true ->
  exists st' ev1 ev2,
    exhaust clk (Decorated kwargs outer
                   (Decorated kwargs inner (Upstream (chunks ++ [last])))) st =
      (Ok (chunks ++ [last]), st') /\
    client st' = client st ++ [ev1; ev2] /\
    returns ev1 =
      [("finish_reason", finish_reason);
       ("content", PStr (String.append (double_tokens (lists st) chunks) (chunk_token (lists st) last)))] /\
    returns ev2 =
      [("finish_reason", finish_reason); ("content", PStr (chunk_token (lists st) last))] /\
    event_stream st' = None.
Proof.
  intros Hes Hall Htext Hfr Htrue.
  rewrite exhaust_Decorated_twice, fold_left_app. cbn [fold_left].
  destruct (handled_twice_continuing chunks st None Hall Hes)
    as (content & Hslot & Hcontent & Hclient & Hlists).
  set (st1 := fold_left (handled_twice clk kwargs inner outer) chunks st) in *.
  rewrite <- Hlists in Htext, Hfr, Htrue.
  change (handled_twice clk kwargs inner outer st1 last)
    with (handled clk kwargs outer (handled clk kwargs inner st1 last) last).
  destruct (handled_terminal clk kwargs inner prompt kwargs_messages st1 last content
              finish_reason Htext Hfr Htrue Hslot)
    as (ev1 & Hslot1 & Hclient1 & Hlists1 & Hreturns1).
  rewrite <- Hlists1 in Htext, Hfr, Htrue.
  destruct (handled_terminal clk kwargs outer prompt kwargs_messages _ last None
              finish_reason Htext Hfr Htrue Hslot1)
    as (ev2 & Hslot2 & Hclient2 & Hlists2 & Hreturns2).
  rewrite Hlists1, Hlists in Hreturns2. rewrite Hlists in Hreturns1.
  eexists. exists ev1, ev2. split; [reflexivity|].
  rewrite Hclient2, Hclient1, Hclient, <- app_assoc.
  repeat split; [|assumption|assumption].
  rewrite Hreturns1, Hcontent. reflexivity.
Qed.

End Twice.

End Composition.

Lemma consecutive_streams_are_independent_witness :
  let st := sample_world in
  let chunks1 := [chunk_He] in
  let chunks2 : list pyval := [] in
  (event_stream st = None /\
   dict_getitem chat_kwargs "messages" = Ok (PList 1) /\
   dict_getitem goodbye_kwargs "messages" = Ok (PList 2) /\
   Forall (continuing (lists st)) chunks1 /\
   text_chunk (lists st) chunk_llo_stop = true /\
   chunk_finish_reason (lists st) chunk_llo_stop = Ok (PStr "stop") /\
   truthy (lists st) (PStr "stop") = true /\
   Forall (continuing (lists st)) chunks2 /\
   text_chunk (lists st) chunk_Bye_length = true /\
   chunk_finish_reason (lists st) chunk_Bye_length = Ok (PStr "length") /\
   truthy (lists st) (PStr "length") = true) /\
  (exists st1 st2 ev1 ev2,
    exhaust counting_clock (Decorated chat_kwargs 0 (Upstream (chunks1 ++ [chunk_llo_stop])))
      st = (Ok (chunks1 ++ [chunk_llo_stop]), st1) /\
    exhaust counting_clock
      (Decorated goodbye_kwargs 5 (Upstream (chunks2 ++ [chunk_Bye_length]))) st1 =
      (Ok (chunks2 ++ [chunk_Bye_length]), st2) /\
    client st2 = client st ++ [ev1; ev2] /\
    returns ev1 = [("finish_reason", PStr "stop");
                   ("content",
                    PStr (concat_tokens (lists st) (chunks1 ++ [chunk_llo_stop])))] /\
    returns ev2 = [("finish_reason", PStr "length");
                   ("content",
                    PStr (concat_tokens (lists st) (chunks2 ++ [chunk_Bye_length])))] /\
    event_stream st2 = None) /\
  concat_tokens (lists st) (chunks1 ++ [chunk_llo_stop]) = "Hello" /\
  concat_tokens (lists st) (chunks2 ++ [chunk_Bye_length]) = "Bye".
Proof.
  intros st chunks1 chunks2.
  assert (H0 : event_stream st = None) by reflexivity.
  assert (H1 : dict_getitem chat_kwargs "messages" = Ok (PList 1)) by reflexivity.
  assert (H1' : dict_getitem goodbye_kwargs "messages" = Ok (PList 2)) by reflexivity.
  assert (H2 : Forall (continuing (lists st)) chunks1)
    by (constructor; [right; split; reflexivity|constructor]).
  assert (H3 : text_chunk (lists st) chunk_llo_stop = true) by reflexivity.
  assert (H4 : chunk_finish_reason (lists st) chunk_llo_stop = Ok (PStr "stop"))
    by reflexivity.
  assert (H5 : truthy (lists st) (PStr "stop") = true) by reflexivity.
  assert (H6 : Forall (continuing (lists st)) chunks2) by constructor.
  assert (H7 : text_chunk (lists st) chunk_Bye_length = true) by reflexivity.
  assert (H8 : chunk_finish_reason (lists st) chunk_Bye_length = Ok (PStr "length"))
    by reflexivity.
  assert (H9 : truthy (lists st) (PStr "length") = true) by reflexivity.
  split; [repeat split; assumption|].
  split; [|split; reflexivity].
  exact (consecutive_streams_are_independent counting_clock chat_kwargs goodbye_kwargs 0 5
           (PList 1) (PList 2) chunks1 chunks2 chunk_llo_stop chunk_Bye_length
           (PStr "stop") (PStr "length") st H0 H1 H1' H2 H3 H4 H5 H6 H7 H8 H9).
Defined.

Lemma double_wrapping_records_twice_witness :
  let create := VNative "chat.completions.create" false in
  let choice := PObj [("message", object_message); ("finish_reason", PStr "stop")] in
  let st1 := tick (tick sample_world) in
  (getattr object_response "object" = Ok (PStr "chat.completion") /\
   getattr object_response "choices" = Ok (PList 8) /\
   getindex0 (lists st1) (PList 8) = Ok choice /\
   getattr choice "message" = Ok object_message /\
   getattr object_response "model" = Ok (PStr "m") /\
   dict_getitem plain_kwargs "messages" = Ok (PList 1) /\
   call counting_clock sample_provider create [] plain_kwargs (tick (tick sample_world)) =
     (Ok (RVal object_response), st1)) /\
  call counting_clock sample_provider (VSync "openai" (VSync "openai" create)) []
       plain_kwargs sample_world =
  (Ok (RVal object_response),
   mkWorld (event_stream st1)
     (client st1 ++
      [mkEvent (PStr "chat.completion") plain_kwargs "Success"
               [("content", object_message)] "llm"
               (PStr "m") (PList 1) (counting_clock (S (ticks sample_world)))
               (counting_clock (ticks st1));
       mkEvent (PStr "chat.completion") plain_kwargs "Success"
               [("content", object_message)] "llm"
               (PStr "m") (PList 1) (counting_clock (ticks sample_world))
               (counting_clock (S (ticks st1)))])
     (S (S (ticks st1))) (stdout st1) (sys_modules st1) (heap st1) (lists st1)).
Proof.
  intros create choice st1.
  assert (H1 : getattr object_response "object" = Ok (PStr "chat.completion")) by reflexivity.
  assert (H2 : getattr object_response "choices" = Ok (PList 8)) by reflexivity.
  assert (H3 : getindex0 (lists st1) (PList 8) = Ok choice) by reflexivity.
  assert (H4 : getattr choice "message" = Ok object_message) by reflexivity.
  assert (H5 : getattr object_response "model" = Ok (PStr "m")) by reflexivity.
  assert (H6 : dict_getitem plain_kwargs "messages" = Ok (PList 1)) by reflexivity.
  assert (H7 : call counting_clock sample_provider create [] plain_kwargs
                 (tick (tick sample_world)) = (Ok (RVal object_response), st1))
    by reflexivity.
  split; [repeat split; assumption|].
  exact (double_wrapping_records_twice counting_clock sample_provider object_response
           (PStr "chat.completion") (PList 8) choice object_message (PStr "m") (PList 1)
           plain_kwargs create [] sample_world st1 H1 H2 H3 H4 H5 H6 H7).
Defined.

Lemma double_wrapping_garbles_streams_witness :
  let st := sample_world in
  let chunks := [chunk_He] in
  (dict_getitem chat_kwargs "messages" = Ok (PList 1) /\
   event_stream st = None /\
   Forall (continuing (lists st)) chunks /\
   text_chunk (lists st) chunk_llo_stop = true /\
   chunk_finish_reason (lists st) chunk_llo_stop = Ok (PStr "stop") /\
   truthy (lists st) (PStr "stop") = true) /\
  (exists st' ev1 ev2,
    exhaust counting_clock
      (Decorated chat_kwargs 0
         (Decorated chat_kwargs 1 (Upstream (chunks ++ [chunk_llo_stop]))))
      st = (Ok (chunks ++ [chunk_llo_stop]), st') /\
    client st' = client st ++ [ev1; ev2] /\
    returns ev1 =
      [("finish_reason", PStr "stop");
       ("content", PStr (String.append (double_tokens (lists st) chunks)
                                       (chunk_token (lists st) chunk_llo_stop)))] /\
    returns ev2 =
      [("finish_reason", PStr "stop");
       ("content", PStr (chunk_token (lists st) chunk_llo_stop))] /\
    event_stream st' = None) /\
  String.append (double_tokens (lists st) chunks) (chunk_token (lists st) chunk_llo_stop) =
    "HeHello" /\
  chunk_token (lists st) chunk_llo_stop = "llo".
Proof.
  intros st chunks.
  assert (H1 : dict_getitem chat_kwargs "messages" = Ok (PList 1)) by reflexivity.
  assert (H2 : event_stream st = None) by reflexivity.
  assert (H3 : Forall (continuing (lists st)) chunks)
    by (constructor; [right; split; reflexivity|constructor]).
  assert (H4 : text_chunk (lists st) chunk_llo_stop = true) by reflexivity.
  assert (H5 : chunk_finish_reason (lists st) chunk_llo_stop = Ok (PStr "stop"))
    by reflexivity.
  assert (H6 : truthy (lists st) (PStr "stop") = true) by reflexivity.
  split; [repeat split; assumption|].
  split; [|split; reflexivity].
  exact (double_wrapping_garbles_streams counting_clock chat_kwargs 1 0 (PList 1) H1
           chunks chunk_llo_stop (PStr "stop") st H2 H3 H4 H5 H6).
Defined.

(** The scenario of the specification through a method wrapped twice: the
    sink receives "HeHello" and then "llo". *)
Example hello_stream_wrapped_twice :
  let create := VNative "chat.completions.create" false in
  let run :=
    (r <- call counting_clock sample_provider (VSync "openai" (VSync "openai" create))
            [] chat_kwargs;
     match r with
     | RGen g => exhaust counting_clock g
     | _ => ret []
     end) sample_world in
  fst run = Ok hello_chunks /\
  map returns (client (snd run)) =
    [[("finish_reason", PStr "stop"); ("content", PStr "HeHello")];
     [("finish_reason", PStr "stop"); ("content", PStr "llo")]].
Proof. vm_compute. repeat split. Qed.

(** * Calls that cannot be recorded *)

Section Unrecorded.

Variable clk : nat -> nat.
Variable native : string -> list pyval -> pykwargs -> Exc returned.

(** A wrapper installed for a provider other than "openai" records
    nothing: [sync_method] reads the clock and then gives exactly what the
    original gives, result and state, and so does the body of [async_method]
    with what awaiting the original gives. *)
Theorem other_provider_wrapper_only_reads_the_clock (api : string) (original : val)
    (args : list pyval) (kwargs : pykwargs) (st : world) :
  String.eqb api "openai" = false ->
  call clk native (VSync api original) args kwargs st =
    call clk native original args kwargs (tick st) /\
  async_method_body clk native api original args kwargs st =
    (coroutine <- call clk native original args kwargs; await coroutine) (tick st).
Proof.
  intros Hapi. split.
  - rewrite (call_VSync clk native). unfold handle_response. rewrite Hapi.
    destruct (call clk native original args kwargs (tick st)) as [[r|e] st1]; reflexivity.
  - rewrite (async_method_body_eq clk native). unfold handle_response. rewrite Hapi.
    destruct ((coroutine <- call clk native original args kwargs; await coroutine) (tick st))
      as [[r|e] st1]; reflexivity.
Qed.

Lemma handled_without_messages kwargs started st chunk :
  raised (dict_getitem kwargs "messages") = true ->
  event_stream st = None ->
  handled clk kwargs started st chunk = printed (UnableToParseChunk kwargs) st.
Proof.
  intros Hmessages Hes. apply handled_Raise. rewrite handle_stream_chunk_body_eq.
  destruct (parse_chunk (lists st) chunk) as [[[model token] finish_reason]|];
    [|reflexivity].
  unfold accumulate, bind, get_event_stream, lift. rewrite Hes.
  destruct (dict_getitem kwargs "messages"); [discriminate|reflexivity].
Qed.

Lemma handled_all_without_messages kwargs started chunks : forall st,
  raised (dict_getitem kwargs "messages") = true ->
  event_stream st = None ->
  handled_all clk kwargs started chunks st =
  mkWorld None (client st) (ticks st)
          (stdout st ++ replicate (length chunks) (UnableToParseChunk kwargs))
          (sys_modules st) (heap st) (lists st).
Proof.
  induction chunks as [|chunk chunks IH]; intros st Hmessages Hes.
  - cbn. rewrite app_nil_r. destruct st; cbn in *; now subst.
  - change (handled_all clk kwargs started (chunk :: chunks) st)
      with (handled_all clk kwargs started chunks (handled clk kwargs started st chunk)).
    rewrite (handled_without_messages kwargs started st chunk Hmessages Hes).
    rewrite IH by assumption. cbn. now rewrite <- app_assoc.
Qed.

(** X20. A call whose keyword arguments have no [messages] is never recorded.
    With no stream open, every chunk of its stream, well formed or not, is
    yielded and skipped: the slot stays empty, the sink and the clock are
    untouched and one line is printed for each chunk. An atomic response, in
    either dialect, comes back with one line printed and nothing else. *)
Theorem call_without_messages_is_never_recorded (kwargs : pykwargs) (started : nat)
    (st : world) :
  raised (dict_getitem kwargs "messages") = true ->
  (forall chunks,
      event_stream st = None ->
      exhaust clk (Decorated kwargs started (Upstream chunks)) st =
      (Ok chunks,
       mkWorld None (client st) (ticks st)
               (stdout st ++ replicate (length chunks) (UnableToParseChunk kwargs))
               (sys_modules st) (heap st) (lists st))) /\
  (forall v,
      _handle_response_openai clk (RVal v) kwargs started st =
        (Ok (RVal v), printed (UnableToParseResponse kwargs) st) /\
      _handle_async_response_openai clk (RVal v) kwargs started st =
        (Ok (RVal v), printed (UnableToParseResponse kwargs) st)).
Proof.
  intros Hmessages. split.
  - intros chunks Hes. rewrite exhaust_Decorated.
    now rewrite handled_all_without_messages.
  - intros v. split.
    + unfold _handle_response_openai, record_response_openai, try_except.
      unfold bind at 1. rewrite !bind_lift.
      destruct (getattr v "object"); [|reflexivity].
      rewrite bind_lift. destruct (getattr v "choices") as [choices|]; [|reflexivity].
      rewrite bind_index0. destruct (getindex0 (lists st) choices) as [choice|];
        [|reflexivity].
      rewrite bind_lift. destruct (getattr choice "message"); [|reflexivity].
      rewrite bind_lift. destruct (getattr v "model"); [|reflexivity].
      rewrite bind_lift. destruct (dict_getitem kwargs "messages"); [discriminate|].
      reflexivity.
    + unfold _handle_async_response_openai, record_async_response_openai, try_except.
      unfold bind at 1. rewrite !bind_lift.
      destruct (getitem v "object"); [|reflexivity].
      rewrite bind_lift. destruct (getitem v "choices") as [choices|]; [|reflexivity].
      rewrite bind_index0. destruct (getindex0 (lists st) choices) as [choice|];
        [|reflexivity].
      rewrite bind_lift. destruct (getitem choice "message") as [message|]; [|reflexivity].
      rewrite bind_lift. destruct (getitem message "content"); [|reflexivity].
      rewrite bind_lift. destruct (getitem v "model"); [|reflexivity].
      rewrite bind_lift. destruct (dict_getitem kwargs "messages"); [discriminate|].
      reflexivity.
Qed.

End Unrecorded.

Lemma other_provider_wrapper_only_reads_the_clock_witness :
  let create := VNative "messages.create" false in
  String.eqb "anthropic" "openai" = false /\
  call counting_clock sample_provider (VSync "anthropic" create) [] plain_kwargs sample_world =
    call counting_clock sample_provider create [] plain_kwargs (tick sample_world) /\
  async_method_body counting_clock sample_provider "anthropic" create [] plain_kwargs
    sample_world =
    (coroutine <- call counting_clock sample_provider create [] plain_kwargs; await coroutine)
      (tick sample_world).
Proof.
  intros create.
  assert (H : String.eqb "anthropic" "openai" = false) by reflexivity.
  split; [exact H|].
  exact (other_provider_wrapper_only_reads_the_clock counting_clock sample_provider
           "anthropic" create [] plain_kwargs sample_world H).
Defined.

Lemma call_without_messages_is_never_recorded_witness :
  let kwargs := bare_kwargs in
  raised (dict_getitem kwargs "messages") = true /\
  exhaust counting_clock (Decorated kwargs 0 (Upstream hello_chunks)) sample_world =
    (Ok hello_chunks,
     mkWorld None [] 0 [UnableToParseChunk kwargs; UnableToParseChunk kwargs] ∅ ∅
             sample_lists) /\
  _handle_response_openai counting_clock (RVal object_response) kwargs 0 sample_world =
    (Ok (RVal object_response), printed (UnableToParseResponse kwargs) sample_world) /\
  _handle_async_response_openai counting_clock (RVal mapping_response) kwargs 0 sample_world =
    (Ok (RVal mapping_response), printed (UnableToParseResponse kwargs) sample_world).
Proof.
  intros kwargs.
  assert (H : raised (dict_getitem kwargs "messages") = true) by reflexivity.
  split; [exact H|].
  destruct (call_without_messages_is_never_recorded counting_clock kwargs 0 sample_world H)
    as [Hstream Hatomic].
  split; [exact (Hstream hello_chunks eq_refl)|].
  split; [exact (proj1 (Hatomic object_response))|exact (proj2 (Hatomic mapping_response))].
Defined.
